(** * Storageinator: hierarchical authorization, directory tree and cascade delete

    A shallow embedding of the authorization resolver
    ([app/services/permission_service.py], [app/api/deps.py],
    [app/models/role.py]), of the directory service
    ([app/services/directory_service.py]) and of the directory endpoint
    ([app/api/directories.py]).

    The MongoDB collections are lists of documents in natural order:
    [find_one] returns the first document that matches, [find] all the matching
    documents in order, [update_one] rewrites the first match, [delete_many]
    removes every match.  Loops whose termination depends on the stored data
    ([while current.get("parent_id")], [while queue]) take a fuel argument and
    return [None] when it runs out. *)

From Stdlib Require Import List String Bool Arith Lia Permutation.
Import ListNotations.
Open Scope string_scope.
Open Scope list_scope.

(** ** Python values shared by the services *)

(** Exceptions raised by the services and the endpoints. *)
Inductive exn : Type :=
| HTTPException (status_code : nat) (detail : string)
| ValueError (msg : string)
| PermissionError (msg : string)
| TypeError (msg : string).

(** Outcome of a call: a returned value or a raised exception. *)
Inductive result (A : Type) : Type :=
| Return (a : A)
| Raise (e : exn).
Arguments Return {A} a.
Arguments Raise {A} e.

Definition HTTP_400_BAD_REQUEST : nat := 400.
Definition HTTP_403_FORBIDDEN : nat := 403.
Definition HTTP_404_NOT_FOUND : nat := 404.

(** Truthiness of a string ([""] is falsy) and of an optional string
    ([None] is falsy), as in [if data.parent_id:]. *)
Definition truthy_str (s : string) : bool := negb (s =? "").

Definition truthy (o : option string) : bool :=
  match o with
  | Some s => truthy_str s
  | None => false
  end.

(** [x in xs] on a list of strings. *)
Definition str_in (x : string) (xs : list string) : bool :=
  existsb (String.eqb x) xs.

(** ** app/models/role.py *)
Module Role.

Inductive UserRole : Type := SUPER_ADMIN | ADMIN | USER | PENDING.

Definition eqb (a b : UserRole) : bool :=
  match a, b with
  | SUPER_ADMIN, SUPER_ADMIN | ADMIN, ADMIN | USER, USER | PENDING, PENDING => true
  | _, _ => false
  end.

Definition ROLE_PERMISSIONS : list (UserRole * list (string * bool)) :=
  [ (SUPER_ADMIN, [("read", true); ("write", true); ("delete", true);
                   ("manage_users", true); ("access_all", true)]);
    (ADMIN, [("read", true); ("write", true); ("delete", true);
             ("manage_users", true); ("access_all", false)]);
    (USER, [("read", true); ("write", true); ("delete", false);
            ("manage_users", false); ("access_all", false)]);
    (PENDING, [("read", false); ("write", false); ("delete", false);
               ("manage_users", false); ("access_all", false)]) ].

(** [dict.get(key, default)] on an association list. *)
Fixpoint dict_get {K V : Type} (keq : K -> K -> bool) (d : list (K * V))
         (key : K) (default : V) : V :=
  match d with
  | [] => default
  | (k, v) :: rest => if keq k key then v else dict_get keq rest key default
  end.

Definition get_role_permissions (role : UserRole) : list (string * bool) :=
  dict_get eqb ROLE_PERMISSIONS role
           (dict_get eqb ROLE_PERMISSIONS USER []).

Definition has_permission (role : UserRole) (permission : string) : bool :=
  dict_get String.eqb (get_role_permissions role) permission false.

Definition is_super_admin (role : UserRole) : bool := eqb role SUPER_ADMIN.

End Role.

(** ** app/models/permission.py *)
Module Permission.

Inductive PermissionType : Type := READ | WRITE | DELETE.

(** The [.value] of the enum member. *)
Definition value (p : PermissionType) : string :=
  match p with
  | READ => "read"
  | WRITE => "write"
  | DELETE => "delete"
  end.

Definition eqb (a b : PermissionType) : bool :=
  match a, b with
  | READ, READ | WRITE, WRITE | DELETE, DELETE => true
  | _, _ => false
  end.

(** A document of the [permissions] collection.  [_id] is the [ObjectId]
    drawn when the document is inserted; the generator is modelled as a
    counter, so the identifier is the counter's value. *)
Record doc : Type := mkDoc {
  _id : nat;
  user_id : string;
  directory_id : string;
  permissions : list string;
  granted_by : string;
  created_at : nat
}.

(** The request body of a grant. *)
Record PermissionGrant : Type := mkGrant {
  user_email : string;
  grant_permissions : list PermissionType
}.

Record PermissionResponse : Type := mkResponse {
  r_id : nat;
  r_user_id : string;
  r_user_email : string;
  r_directory_id : string;
  r_permissions : list string;
  r_created_at : nat
}.

(** [PermissionType(p)]: the member with that value, if any. *)
Definition of_value (s : string) : option PermissionType :=
  if s =? "read" then Some READ
  else if s =? "write" then Some WRITE
  else if s =? "delete" then Some DELETE
  else None.

End Permission.

(** ** app/models/directory.py *)
Module Directory.

(** A document of the [directories] collection. *)
Record doc : Type := mkDoc {
  _id : string;
  name : string;
  owner_id : string;
  parent_id : option string;
  path : string;
  is_public : bool;
  created_at : nat
}.

Record DirectoryResponse : Type := mkResponse {
  r_id : string;
  r_name : string;
  r_path : string;
  r_parent_id : option string;
  r_is_public : bool;
  r_owner_id : string;
  r_created_at : nat
}.

(** A node of the tree view.  The [children] list of the source holds
    references to the node objects of [dir_map]; a reference is the key of
    the node in [dir_map]. *)
Record DirectoryTree : Type := mkTree {
  t_id : string;
  t_name : string;
  t_path : string;
  t_parent_id : option string;
  t_is_public : bool;
  t_owner_id : string;
  t_created_at : nat;
  children : list string
}.

(** The request body of a creation. *)
Record DirectoryCreate : Type := mkCreate {
  c_name : string;
  c_parent_id : option string;
  c_is_public : bool
}.

End Directory.

(** ** app/models/file.py (the fields the directory service reads) *)
Module File.

Record doc : Type := mkDoc {
  _id : string;
  filename : string;
  directory_id : string;
  owner_id : string
}.

End File.

(** ** app/models/user.py (without the credential hash and the timestamp) *)
Module User.

Record doc : Type := mkDoc {
  _id : string;
  email : string;
  role : Role.UserRole;
  is_active : bool
}.

Record UserResponse : Type := mkResponse {
  id : string;
  r_email : string;
  r_role : Role.UserRole;
  r_is_active : bool
}.

End User.

(** ** The database: the four collections and the [ObjectId] counter *)
Record db : Type := mkDb {
  directories_collection : list Directory.doc;
  files_collection : list File.doc;
  permissions_collection : list Permission.doc;
  users_collection : list User.doc;
  next_oid : nat
}.

(** [directories.find_one({"_id": directory_id})] *)
Definition find_directory (ds : list Directory.doc) (directory_id : string)
  : option Directory.doc :=
  find (fun d => Directory._id d =? directory_id) ds.

(** [permissions.find_one({"user_id": user_id, "directory_id": dir_id})] *)
Definition find_permission (ps : list Permission.doc) (user_id dir_id : string)
  : option Permission.doc :=
  find (fun p => (Permission.user_id p =? user_id)
                 && (Permission.directory_id p =? dir_id)) ps.

(** ** app/services/permission_service.py *)
Module PermissionService.
Import Permission.

(** The document after [{"$set": {"permissions": v}}]. *)
Definition with_permissions (v : list string) (p : doc) : doc :=
  mkDoc (_id p) (user_id p) (directory_id p) v (granted_by p) (created_at p).

(** [update_one({"_id": id}, {"$set": {"permissions": v}})]: the first
    document with that [_id] gets the new list, in place. *)
Fixpoint update_one (ps : list doc) (id : nat) (v : list string) : list doc :=
  match ps with
  | [] => []
  | p :: rest =>
      if _id p =? id
      then with_permissions v p :: rest
      else p :: update_one rest id v
  end%nat.

(** [delete_one({"user_id": u, "directory_id": d})]: the first match is
    removed; the flag is [deleted_count > 0]. *)
Fixpoint delete_one (ps : list doc) (u d : string) : list doc * bool :=
  match ps with
  | [] => ([], false)
  | p :: rest =>
      if (user_id p =? u) && (directory_id p =? d)
      then (rest, true)
      else let (rest', found) := delete_one rest u d in (p :: rest', found)
  end.

Definition set_permissions (st : db) (ps : list doc) (oid : nat) : db :=
  mkDb (directories_collection st) (files_collection st) ps (users_collection st) oid.

Definition to_response (perm : doc) (email : string) : PermissionResponse :=
  mkResponse (_id perm) (user_id perm) email (directory_id perm)
             (Permission.permissions perm) (created_at perm).

(** [grant_permission(data, directory_id, granted_by)]; [now] is the clock
    value read by [datetime.now].  Returns the outcome and the database.  The
    final [find_one({"_id": perm_id})] is subscripted without a test, which
    raises [TypeError] should it return nothing. *)
Definition grant_permission (now : nat) (st : db) (data : PermissionGrant)
           (directory_id granted_by : string) : result PermissionResponse * db :=
  match find_directory (directories_collection st) directory_id with
  | None => (Raise (ValueError "Directory not found"), st)
  | Some directory =>
    if negb (Directory.owner_id directory =? granted_by)
    then (Raise (PermissionError "Only directory owner can grant permissions"), st)
    else
      match find (fun u => User.email u =? user_email data) (users_collection st) with
      | None => (Raise (ValueError "User not found"), st)
      | Some user =>
        let user_id := User._id user in
        if user_id =? granted_by
        then (Raise (ValueError "Cannot grant permissions to yourself"), st)
        else
          let values := map value (grant_permissions data) in
          let (st', perm_id) :=
            match find_permission (permissions_collection st) user_id directory_id with
            | Some existing =>
                (set_permissions st
                   (update_one (permissions_collection st) (_id existing) values)
                   (next_oid st),
                 _id existing)
            | None =>
                let perm_doc :=
                  mkDoc (next_oid st) user_id directory_id values granted_by now in
                (set_permissions st (permissions_collection st ++ [perm_doc])
                                 (S (next_oid st)),
                 _id perm_doc)
            end in
          match find (fun p => _id p =? perm_id)%nat (permissions_collection st') with
          | Some perm => (Return (to_response perm (user_email data)), st')
          | None => (Raise (TypeError "'NoneType' object is not subscriptable"), st')
          end
      end
  end.

Definition revoke_permission (st : db) (directory_id user_id revoked_by : string)
  : result bool * db :=
  match find_directory (directories_collection st) directory_id with
  | None => (Raise (ValueError "Directory not found"), st)
  | Some directory =>
    if negb (Directory.owner_id directory =? revoked_by)
    then (Raise (PermissionError "Only directory owner can revoke permissions"), st)
    else
      let (ps, deleted) := delete_one (permissions_collection st) user_id directory_id in
      (Return deleted, set_permissions st ps (next_oid st))
  end.

(** The loop [while current.get("parent_id"): ...] that builds [path_ids].
    [None] when the fuel runs out before the loop exits. *)
Fixpoint build_path (fuel : nat) (ds : list Directory.doc)
         (current : Directory.doc) (path_ids : list string)
  : option (list string) :=
  match fuel with
  | O => None
  | S fuel' =>
    match Directory.parent_id current with
    | Some p =>
      if truthy_str p then
        let path_ids' := path_ids ++ [p] in
        match find_directory ds p with
        | Some current' => build_path fuel' ds current' path_ids'
        | None => Some path_ids'
        end
      else Some path_ids
    | None => Some path_ids
    end
  end.

(** The loop [for dir_id in path_ids: ...] of [check_permission]: the first
    grant found decides. *)
Fixpoint scan_path (ps : list doc) (user_id : string) (path_ids : list string)
         (permission_type : PermissionType) : bool :=
  match path_ids with
  | [] => false
  | dir_id :: rest =>
    match find_permission ps user_id dir_id with
    | Some perm => str_in (value permission_type) (Permission.permissions perm)
    | None => scan_path ps user_id rest permission_type
    end
  end.

Definition check_permission (fuel : nat) (st : db) (user_id directory_id : string)
           (permission_type : PermissionType) : option bool :=
  match find_directory (directories_collection st) directory_id with
  | None => Some false
  | Some directory =>
    if Directory.owner_id directory =? user_id then Some true
    else
      match build_path fuel (directories_collection st) directory [directory_id] with
      | None => None
      | Some path_ids =>
          Some (scan_path (permissions_collection st) user_id path_ids permission_type)
      end
  end.

Definition can_access_directory (fuel : nat) (st : db) (user_id directory_id : string)
  : option bool :=
  match find_directory (directories_collection st) directory_id with
  | None => Some false
  | Some directory =>
    if Directory.owner_id directory =? user_id then Some true
    else check_permission fuel st user_id directory_id READ
  end.

(** [[PermissionType(p) for p in perm["permissions"]]]: the enum lookup raises
    [ValueError] at the first string that is no member's value (the message
    is Python's for a string without quote characters). *)
Fixpoint to_permission_types (values : list string) : result (list PermissionType) :=
  match values with
  | [] => Return []
  | p :: rest =>
    match of_value p with
    | None => Raise (ValueError ("'" ++ p ++ "' is not a valid PermissionType")%string)
    | Some t =>
      match to_permission_types rest with
      | Return ts => Return (t :: ts)
      | Raise e => Raise e
      end
    end
  end.

(** The loop [for dir_id in path_ids: ...] of [get_effective_permissions]. *)
Fixpoint scan_effective (ps : list doc) (user_id : string) (path_ids : list string)
  : result (list PermissionType) :=
  match path_ids with
  | [] => Return []
  | dir_id :: rest =>
    match find_permission ps user_id dir_id with
    | Some perm => to_permission_types (Permission.permissions perm)
    | None => scan_effective ps user_id rest
    end
  end.

Definition get_effective_permissions (fuel : nat) (st : db)
           (user_id directory_id : string)
  : option (result (list PermissionType)) :=
  match find_directory (directories_collection st) directory_id with
  | None => Some (Return [])
  | Some directory =>
    if Directory.owner_id directory =? user_id
    then Some (Return [READ; WRITE; DELETE])
    else
      match build_path fuel (directories_collection st) directory [directory_id] with
      | None => None
      | Some path_ids =>
          Some (scan_effective (permissions_collection st) user_id path_ids)
      end
  end.

End PermissionService.

(** ** app/services/directory_service.py *)
Module DirectoryService.
Import Directory.

Definition to_response (d : doc) : DirectoryResponse :=
  mkResponse (_id d) (name d) (path d) (parent_id d) (is_public d)
             (owner_id d) (created_at d).

(** The response built in the public-directories loop, with [is_public=True]. *)
Definition to_public_response (d : doc) : DirectoryResponse :=
  mkResponse (_id d) (name d) (path d) (parent_id d) true
             (owner_id d) (created_at d).

Definition get_directory (st : db) (directory_id : string)
  : option DirectoryResponse :=
  match find_directory (directories_collection st) directory_id with
  | None => None
  | Some dir_doc => Some (to_response dir_doc)
  end.

(** The loop over [public_cursor]: appends the directories whose id is not
    yet in [result_ids] and adds their id to that set. *)
Fixpoint add_public (cursor : list doc) (result : list DirectoryResponse)
         (result_ids : list string) : list DirectoryResponse * list string :=
  match cursor with
  | [] => (result, result_ids)
  | d :: rest =>
    if negb (str_in (_id d) result_ids)
    then add_public rest (result ++ [to_public_response d]) (_id d :: result_ids)
    else add_public rest result result_ids
  end.

(** The loop over [shared_cursor]: [result_ids] is read, not extended. *)
Fixpoint add_shared (cursor : list doc) (result : list DirectoryResponse)
         (result_ids : list string) : list DirectoryResponse :=
  match cursor with
  | [] => result
  | d :: rest =>
    if negb (str_in (_id d) result_ids)
    then add_shared rest (result ++ [to_response d]) result_ids
    else add_shared rest result result_ids
  end.

Definition get_user_directories (st : db) (user_id : string)
           (user_role : Role.UserRole) : list DirectoryResponse :=
  let ds := directories_collection st in
  if Role.eqb user_role Role.SUPER_ADMIN then map to_response ds
  else
    let result := map to_response (filter (fun d => owner_id d =? user_id) ds) in
    let result_ids := map r_id result in
    let (result, result_ids) :=
      add_public (filter (fun d => is_public d) ds) result result_ids in
    let shared_ids :=
      map Permission.directory_id
          (filter (fun p => Permission.user_id p =? user_id)
                  (permissions_collection st)) in
    match shared_ids with
    | [] => result
    | _ :: _ =>
      add_shared (filter (fun d => str_in (_id d) shared_ids) ds) result result_ids
    end.

(** *** The tree view: [dir_map] and the node objects it holds *)

Definition dir_map_t : Type := list (string * DirectoryTree).

(** [dir_map[key] = node] of the dict comprehension: a key seen again keeps
    its position and takes the later node. *)
Fixpoint dict_set (m : dir_map_t) (key : string) (node : DirectoryTree)
  : dir_map_t :=
  match m with
  | [] => [(key, node)]
  | (k, v) :: rest =>
    if k =? key then (k, node) :: rest else (k, v) :: dict_set rest key node
  end.

Fixpoint dict_lookup (m : dir_map_t) (key : string) : option DirectoryTree :=
  match m with
  | [] => None
  | (k, v) :: rest => if k =? key then Some v else dict_lookup rest key
  end.

(** [key in dir_map] *)
Definition dict_mem (m : dir_map_t) (key : string) : bool :=
  match dict_lookup m key with Some _ => true | None => false end.

Definition new_node (d : DirectoryResponse) : DirectoryTree :=
  mkTree (r_id d) (r_name d) (r_path d) (r_parent_id d) (r_is_public d)
         (r_owner_id d) (r_created_at d) [].

Definition build_dir_map (all_dirs : list DirectoryResponse) : dir_map_t :=
  fold_left (fun m d => dict_set m (r_id d) (new_node d)) all_dirs [].

(** The node with [refs] appended to its [children] list. *)
Definition children_extend (node : DirectoryTree) (refs : list string)
  : DirectoryTree :=
  mkTree (t_id node) (t_name node) (t_path node) (t_parent_id node)
         (t_is_public node) (t_owner_id node) (t_created_at node)
         (children node ++ refs).

(** [dir_map[parent].children.append(dir_tree)]: the node stored under
    [parent] is mutated; [child] is the reference to the appended node. *)
Fixpoint append_child (m : dir_map_t) (parent child : string) : dir_map_t :=
  match m with
  | [] => []
  | (k, v) :: rest =>
    if k =? parent
    then (k, children_extend v [child]) :: rest
    else (k, v) :: append_child rest parent child
  end.

(** The loop [for dir_tree in dir_map.values()]: [todo] are the nodes still
    to visit, as (reference, parent_id); [roots] holds references. *)
Fixpoint assemble (todo : list (string * option string)) (m : dir_map_t)
         (roots : list string) : dir_map_t * list string :=
  match todo with
  | [] => (m, roots)
  | (key, parent) :: rest =>
    match parent with
    | Some p =>
      if truthy_str p && dict_mem m p
      then assemble rest (append_child m p key) roots
      else assemble rest m (roots ++ [key])
    | None => assemble rest m (roots ++ [key])
    end
  end.

(** Returns the node store after the loop and the references in [roots]. *)
Definition get_directory_tree (st : db) (user_id : string)
           (user_role : Role.UserRole) : dir_map_t * list string :=
  let all_dirs := get_user_directories st user_id user_role in
  let dir_map := build_dir_map all_dirs in
  assemble (map (fun kv => (fst kv, t_parent_id (snd kv))) dir_map) dir_map [].

(** *** Deletion *)

(** [directories.find({"parent_id": parent_id})] *)
Definition children_of (ds : list doc) (p : string) : list doc :=
  filter (fun d => match parent_id d with
                   | Some q => q =? p
                   | None => false
                   end) ds.

(** The loop [while queue: ...] of [_get_descendant_ids]. *)
Fixpoint descendants_loop (fuel : nat) (ds : list doc)
         (queue result : list string) : option (list string) :=
  match fuel with
  | O => None
  | S fuel' =>
    match queue with
    | [] => Some result
    | p :: queue' =>
      let found := map _id (children_of ds p) in
      descendants_loop fuel' ds (queue' ++ found) (result ++ found)
    end
  end.

Definition _get_descendant_ids (fuel : nat) (st : db) (directory_id : string)
  : option (list string) :=
  descendants_loop fuel (directories_collection st) [directory_id] [].

(** The writes [delete_directory] issues against the collections. *)
Inductive write : Type :=
| files_delete_many (ids : list string)
| permissions_delete_many (ids : list string)
| directories_delete_many (ids : list string)
| permissions_delete_many_eq (id : string)
| directories_delete_one (id : string).

Fixpoint delete_first (ds : list doc) (id : string) : list doc :=
  match ds with
  | [] => []
  | d :: rest => if _id d =? id then rest else d :: delete_first rest id
  end.

Definition apply_write (st : db) (w : write) : db :=
  match w with
  | files_delete_many ids =>
    mkDb (directories_collection st)
         (filter (fun f => negb (str_in (File.directory_id f) ids))
                 (files_collection st))
         (permissions_collection st) (users_collection st) (next_oid st)
  | permissions_delete_many ids =>
    mkDb (directories_collection st) (files_collection st)
         (filter (fun p => negb (str_in (Permission.directory_id p) ids))
                 (permissions_collection st))
         (users_collection st) (next_oid st)
  | directories_delete_many ids =>
    mkDb (filter (fun d => negb (str_in (_id d) ids)) (directories_collection st))
         (files_collection st) (permissions_collection st)
         (users_collection st) (next_oid st)
  | permissions_delete_many_eq id =>
    mkDb (directories_collection st) (files_collection st)
         (filter (fun p => negb (Permission.directory_id p =? id))
                 (permissions_collection st))
         (users_collection st) (next_oid st)
  | directories_delete_one id =>
    mkDb (delete_first (directories_collection st) id)
         (files_collection st) (permissions_collection st)
         (users_collection st) (next_oid st)
  end.

(** The database after each write of a sequence, in order. *)
Fixpoint run (st : db) (ws : list write) : list db :=
  match ws with
  | [] => []
  | w :: rest => let st' := apply_write st w in st' :: run st' rest
  end.

(** [delete_directory]: the outcome and the writes issued, in order. *)
Definition delete_directory (fuel : nat) (st : db) (directory_id user_id : string)
           (user_role : Role.UserRole) (cascade : bool)
  : option (result bool * list write) :=
  match find_directory (directories_collection st) directory_id with
  | None => Some (Return false, [])
  | Some dir_doc =>
    if negb (owner_id dir_doc =? user_id)
       && negb (Role.eqb user_role Role.SUPER_ADMIN)
    then Some (Raise (PermissionError "Not authorized to delete this directory"), [])
    else
      match children_of (directories_collection st) directory_id, cascade with
      | _ :: _, false =>
        Some (Raise (ValueError
             "Directory has subdirectories. Use cascade=true to delete all."), [])
      | _, _ =>
        match find (fun f => File.directory_id f =? directory_id)
                   (files_collection st), cascade with
        | Some _, false =>
          Some (Raise (ValueError
               "Directory has files. Use cascade=true to delete all."), [])
        | _, _ =>
          if cascade then
            match _get_descendant_ids fuel st directory_id with
            | None => None
            | Some descendant_ids =>
              let all_ids := directory_id :: descendant_ids in
              Some (Return true,
                    [files_delete_many all_ids;
                     permissions_delete_many all_ids;
                     directories_delete_many all_ids])
            end
          else
            Some (Return true,
                  [permissions_delete_many_eq directory_id;
                   directories_delete_one directory_id])
        end
      end
  end.

Definition is_owner (st : db) (directory_id user_id : string) : bool :=
  match find (fun d => (_id d =? directory_id) && (owner_id d =? user_id))
             (directories_collection st) with
  | Some _ => true
  | None => false
  end.

Definition is_public (st : db) (directory_id : string) : bool :=
  match find_directory (directories_collection st) directory_id with
  | Some dir_doc => Directory.is_public dir_doc
  | None => false
  end.

(** *** Creation and update *)

Definition set_directories (st : db) (ds : list doc) : db :=
  mkDb ds (files_collection st) (permissions_collection st)
       (users_collection st) (next_oid st).

(** [create_directory(data, owner_id)]; [oid] is the string drawn by
    [str(ObjectId())] and [now] the clock value.  Returns the outcome and the
    database. *)
Definition create_directory (oid : string) (now : nat) (st : db)
           (data : DirectoryCreate) (owner : string)
  : result DirectoryResponse * db :=
  let built :=
    match c_parent_id data with
    | Some p =>
      if truthy_str p then
        match find_directory (directories_collection st) p with
        | None => Raise (ValueError "Parent directory not found")
        | Some parent => Return (path parent ++ "/" ++ c_name data)%string
        end
      else Return ("/" ++ c_name data)%string
    | None => Return ("/" ++ c_name data)%string
    end in
  match built with
  | Raise e => (Raise e, st)
  | Return new_path =>
    match find (fun d => (owner_id d =? owner) && (path d =? new_path))
               (directories_collection st) with
    | Some _ =>
      (Raise (ValueError "Directory with this name already exists at this location"),
       st)
    | None =>
      let dir_doc :=
        mkDoc oid (c_name data) owner (c_parent_id data) new_path
              (c_is_public data) now in
      (Return (to_response dir_doc),
       set_directories st (directories_collection st ++ [dir_doc]))
    end
  end.

(** The [$set] document of [update_directory]: the fields present in
    [update_doc]. *)
Record update_doc : Type := mkUpdate {
  set_name : option string;
  set_path : option string;
  set_is_public : option bool
}.

Definition or_else {A : Type} (o : option A) (default : A) : A :=
  match o with Some a => a | None => default end.

Definition apply_update (u : update_doc) (d : doc) : doc :=
  mkDoc (_id d) (or_else (set_name u) (name d)) (owner_id d) (parent_id d)
        (or_else (set_path u) (path d))
        (or_else (set_is_public u) (Directory.is_public d))
        (created_at d).

(** [directories.update_one({"_id": id}, {"$set": update_doc})] *)
Fixpoint update_one (ds : list doc) (id : string) (u : update_doc) : list doc :=
  match ds with
  | [] => []
  | d :: rest =>
    if _id d =? id then apply_update u d :: rest else d :: update_one rest id u
  end.

(** [if update_doc:] a dict is truthy when it has a key. *)
Definition update_doc_truthy (u : update_doc) : bool :=
  match set_name u, set_path u, set_is_public u with
  | None, None, None => false
  | _, _, _ => true
  end.

(** [update_directory(directory_id, user_id, user_role, name, is_public)].
    With a name and a truthy [parent_id] the parent is looked up and
    subscripted without a test, which raises [TypeError] when it is missing. *)
Definition update_directory (st : db) (directory_id user_id : string)
           (user_role : Role.UserRole) (new_name : option string)
           (new_is_public : option bool)
  : result (option DirectoryResponse) * db :=
  match find_directory (directories_collection st) directory_id with
  | None => (Return None, st)
  | Some dir_doc =>
    if negb (owner_id dir_doc =? user_id)
       && negb (Role.eqb user_role Role.SUPER_ADMIN)
    then (Raise (PermissionError "Not authorized to update this directory"), st)
    else
      let renamed :=
        match new_name with
        | None => Return (None, None)
        | Some n =>
          match parent_id dir_doc with
          | Some p =>
            if truthy_str p then
              match find_directory (directories_collection st) p with
              | Some parent => Return (Some n, Some (path parent ++ "/" ++ n)%string)
              | None => Raise (TypeError "'NoneType' object is not subscriptable")
              end
            else Return (Some n, Some ("/" ++ n)%string)
          | None => Return (Some n, Some ("/" ++ n)%string)
          end
        end in
      match renamed with
      | Raise e => (Raise e, st)
      | Return (set_n, set_p) =>
        let u := mkUpdate set_n set_p new_is_public in
        let st' :=
          if update_doc_truthy u
          then set_directories st (update_one (directories_collection st) directory_id u)
          else st in
        (Return (get_directory st' directory_id), st')
      end
  end.

End DirectoryService.

(** ** app/api/deps.py *)
Module Deps.
Import Permission.

(** [PermissionChecker(permission_type).__call__(directory_id, current_user)] *)
Definition PermissionChecker (permission_type : PermissionType) (fuel : nat)
           (st : db) (directory_id : string) (current_user : User.UserResponse)
  : option (result bool) :=
  let role := User.r_role current_user in
  if Role.eqb role Role.SUPER_ADMIN then Some (Return true)
  else if (Permission.eqb permission_type READ || Permission.eqb permission_type WRITE)
          && DirectoryService.is_public st directory_id
  then Some (Return true)
  else if Role.eqb role Role.ADMIN
          && DirectoryService.is_owner st directory_id (User.id current_user)
  then Some (Return true)
  else
    let permission_name := value permission_type in
    if negb (Role.has_permission role permission_name)
    then Some (Raise (HTTPException HTTP_403_FORBIDDEN
                ("Your role does not have " ++ permission_name ++ " permission")%string))
    else if DirectoryService.is_owner st directory_id (User.id current_user)
    then Some (Return true)
    else
      match PermissionService.check_permission
              fuel st (User.id current_user) directory_id permission_type with
      | None => None
      | Some has_perm =>
        if negb has_perm
        then Some (Raise (HTTPException HTTP_403_FORBIDDEN
                    ("Missing " ++ permission_name
                                ++ " permission for this directory")%string))
        else Some (Return true)
      end.

Definition require_read := PermissionChecker READ.
Definition require_write := PermissionChecker WRITE.
Definition require_delete := PermissionChecker DELETE.

End Deps.

(** ** app/api/directories.py *)
Module DirectoriesApi.

(** [GET /directories/{directory_id}] *)
Definition get_directory (fuel : nat) (st : db) (directory_id : string)
           (current_user : User.UserResponse)
  : option (result Directory.DirectoryResponse) :=
  match DirectoryService.get_directory st directory_id with
  | None => Some (Raise (HTTPException HTTP_404_NOT_FOUND "Directory not found"))
  | Some directory =>
    if Role.eqb (User.r_role current_user) Role.SUPER_ADMIN then Some (Return directory)
    else if Directory.r_is_public directory then Some (Return directory)
    else if Directory.r_owner_id directory =? User.id current_user
    then Some (Return directory)
    else
      match PermissionService.can_access_directory
              fuel st (User.id current_user) directory_id with
      | None => None
      | Some can_access =>
        if negb can_access
        then Some (Raise (HTTPException HTTP_403_FORBIDDEN
                                        "No access to this directory"))
        else Some (Return directory)
      end
  end.

(** [POST /directories]; [oid] and [now] as in the service.  Only
    [ValueError] is caught and turned into a 400. *)
Definition create_directory (fuel : nat) (oid : string) (now : nat) (st : db)
           (data : Directory.DirectoryCreate) (current_user : User.UserResponse)
  : option (result Directory.DirectoryResponse * db) :=
  let create :=
    match DirectoryService.create_directory oid now st data (User.id current_user) with
    | (Raise (ValueError msg), st') =>
        (Raise (HTTPException HTTP_400_BAD_REQUEST msg), st')
    | other => other
    end in
  match Directory.c_parent_id data with
  | Some p =>
    if truthy_str p && negb (Role.eqb (User.r_role current_user) Role.SUPER_ADMIN) then
      match DirectoryService.get_directory st p with
      | Some parent_dir =>
        if negb (Directory.r_owner_id parent_dir =? User.id current_user) then
          match PermissionService.check_permission
                  fuel st (User.id current_user) p Permission.WRITE with
          | None => None
          | Some has_permission =>
            if negb has_permission
            then Some (Raise (HTTPException HTTP_403_FORBIDDEN
                                            "No write permission for parent directory"),
                       st)
            else Some create
          end
        else Some create
      | None => Some create
      end
    else Some create
  | None => Some create
  end.

End DirectoriesApi.


(** ** app/api/files.py (the permission helper) *)
Module FilesApi.

Definition check_file_permission (fuel : nat) (st : db) (user : User.UserResponse)
           (directory_id : string) (permission_type : Permission.PermissionType)
  : option bool :=
  if Role.eqb (User.r_role user) Role.SUPER_ADMIN then Some true
  else if Permission.eqb permission_type Permission.READ
          && DirectoryService.is_public st directory_id
  then Some true
  else if DirectoryService.is_owner st directory_id (User.id user) then Some true
  else PermissionService.check_permission
         fuel st (User.id user) directory_id permission_type.

End FilesApi.

(** ** The ancestor chain of a directory *)

(** How the upward walk from a directory ends: at a directory without a
    (truthy) [parent_id], or at a [parent_id] that names no stored directory. *)
Inductive chain_end : Type := AtRoot | AtBrokenLink.

(** [ancestor_chain ds d chain e]: following [parent_id] from [d] visits the
    identifiers [chain] (nearest first, [d] itself excluded) and ends as [e].
    With [AtBrokenLink] the last identifier of [chain] is the dangling one. *)
Inductive ancestor_chain (ds : list Directory.doc)
  : Directory.doc -> list string -> chain_end -> Prop :=
| chain_root (d : Directory.doc) :
    truthy (Directory.parent_id d) = false ->
    ancestor_chain ds d [] AtRoot
| chain_broken (d : Directory.doc) (p : string) :
    Directory.parent_id d = Some p ->
    truthy_str p = true ->
    find_directory ds p = None ->
    ancestor_chain ds d [p] AtBrokenLink
| chain_up (d d' : Directory.doc) (p : string) (chain : list string) (e : chain_end) :
    Directory.parent_id d = Some p ->
    truthy_str p = true ->
    find_directory ds p = Some d' ->
    ancestor_chain ds d' chain e ->
    ancestor_chain ds d (p :: chain) e.

(** The first grant for [uid] on a path, nearest first. *)
Fixpoint first_grant (ps : list Permission.doc) (uid : string) (path : list string)
  : option Permission.doc :=
  match path with
  | [] => None
  | dir_id :: rest =>
    match find_permission ps uid dir_id with
    | Some g => Some g
    | None => first_grant ps uid rest
    end
  end.

(** ** Vocabulary of the tree view *)

(** A grant for [uid] exists on the directory, whatever its capabilities. *)
Definition granted (ps : list Permission.doc) (uid : string) (d : Directory.doc) : Prop :=
  exists p, In p ps /\ Permission.user_id p = uid
            /\ Permission.directory_id p = Directory._id d.

(** The directories a user who is not a super-admin is meant to see: owned,
    public, or holding a grant for the user. *)
Definition visible (st : db) (uid : string) (d : Directory.doc) : Prop :=
  Directory.owner_id d = uid
  \/ Directory.is_public d = true
  \/ granted (permissions_collection st) uid d.

(** Every stored directory has its own [_id] (MongoDB's primary key). *)
Definition unique_ids (st : db) : Prop :=
  NoDup (map Directory._id (directories_collection st)).

(** The test of the assembly loop: the node has a truthy [parent_id] that is a
    key of [dir_map]. *)
Definition attaches (m : DirectoryService.dir_map_t) (kp : string * option string)
  : bool :=
  match snd kp with
  | Some p => truthy_str p && DirectoryService.dict_mem m p
  | None => false
  end.

(** The node is attached under the key [q]. *)
Definition attaches_to (m : DirectoryService.dir_map_t) (q : string)
           (kp : string * option string) : bool :=
  match snd kp with
  | Some p => truthy_str p && DirectoryService.dict_mem m p && (p =? q)
  | None => false
  end.

(** The (reference, parent_id) pair the assembly loop sees for a directory. *)
Definition todo_entry (d : Directory.DirectoryResponse) : string * option string :=
  (Directory.r_id d, Directory.r_parent_id d).

(** ** Vocabulary of the grant store *)

(** One call of [grant_permission]. *)
Record grant_call : Type := mkCall {
  call_now : nat;
  call_data : Permission.PermissionGrant;
  call_directory_id : string;
  call_granted_by : string
}.

Definition grant (st : db) (c : grant_call)
  : result Permission.PermissionResponse * db :=
  PermissionService.grant_permission
    (call_now c) st (call_data c) (call_directory_id c) (call_granted_by c).

(** The database after a sequence of grant calls, failed ones included. *)
Fixpoint run_grants (st : db) (calls : list grant_call) : db :=
  match calls with
  | [] => st
  | c :: rest => run_grants (snd (grant st c)) rest
  end.

(** The grant documents of the pair (grantee [u], directory [d]). *)
Definition same_pair (u d : string) (p : Permission.doc) : bool :=
  (Permission.user_id p =? u) && (Permission.directory_id p =? d).

(** The user a grant request names by email. *)
Definition grantee (st : db) (data : Permission.PermissionGrant) : option string :=
  match find (fun u => User.email u =? Permission.user_email data)
             (users_collection st) with
  | Some user => Some (User._id user)
  | None => None
  end.

(** The capability list of the last call of the sequence that returned a
    response and addressed the pair ([u], [d]), if any. *)
Fixpoint most_recent_grant (st : db) (calls : list grant_call) (u d : string)
  : option (list string) :=
  match calls with
  | [] => None
  | c :: rest =>
    match most_recent_grant (snd (grant st c)) rest u d with
    | Some caps => Some caps
    | None =>
      match fst (grant st c), grantee st (call_data c) with
      | Return _, Some uid =>
        if (uid =? u) && (call_directory_id c =? d)
        then Some (map Permission.value (Permission.grant_permissions (call_data c)))
        else None
      | _, _ => None
      end
    end
  end.

(** The grant collection is well formed: the documents have distinct [_id]s,
    all drawn before the counter's current value, and no pair has two. *)
Definition grants_wf (st : db) : Prop :=
  NoDup (map Permission._id (permissions_collection st))
  /\ (forall p, In p (permissions_collection st) -> Permission._id p < next_oid st)
  /\ (forall u d,
        List.length (filter (same_pair u d) (permissions_collection st)) <= 1).

(** ** Vocabulary of the cascade delete *)

(** A file or a grant of the database refers to [x] although no stored
    directory has that identifier. *)
Definition orphaned_reference (st : db) (x : string) : Prop :=
  ~ In x (map Directory._id (directories_collection st))
  /\ ((exists f, In f (files_collection st) /\ File.directory_id f = x)
      \/ (exists p, In p (permissions_collection st)
                    /\ Permission.directory_id p = x)).

(** ** Vocabulary of the descendant enumeration *)

(** [x] is the identifier of a stored directory whose [parent_id] is [p]. *)
Definition is_child (ds : list Directory.doc) (x p : string) : Prop :=
  exists d, In d ds /\ Directory._id d = x /\ Directory.parent_id d = Some p.

(** [x] is a direct or transitive descendant of [a]. *)
Inductive descendant_of (ds : list Directory.doc) (a : string) : string -> Prop :=
| descendant_child (x : string) :
    is_child ds x a -> descendant_of ds a x
| descendant_step (x y : string) :
    is_child ds x y -> descendant_of ds a y -> descendant_of ds a x.

(** The stored parent links contain no cycle: no directory descends from
    itself. *)
Definition acyclic (ds : list Directory.doc) : Prop :=
  forall x, ~ descendant_of ds x x.

(** The identifiers one iteration of the loop appends for the parent [p]. *)
Definition child_ids (ds : list Directory.doc) (p : string) : list string :=
  map Directory._id (DirectoryService.children_of ds p).

(** The children of a whole queue, in queue order: the next breadth-first
    level. *)
Definition next_level (ds : list Directory.doc) (queue : list string) : list string :=
  flat_map (child_ids ds) queue.

(** The [k]-th level below the queue. *)
Definition level (ds : list Directory.doc) (k : nat) (queue : list string)
  : list string :=
  Nat.iter k (next_level ds) queue.

(** The levels 1 to [n] below the queue, one after the other. *)
Fixpoint collected (ds : list Directory.doc) (n : nat) (queue : list string)
  : list string :=
  match n with
  | O => []
  | S n' => next_level ds queue ++ collected ds n' (next_level ds queue)
  end.

(** The number of loop iterations spent on the levels 0 to [n - 1]. *)
Fixpoint iterations (ds : list Directory.doc) (n : nat) (queue : list string) : nat :=
  match n with
  | O => 0
  | S n' => List.length queue + iterations ds n' (next_level ds queue)
  end.

(** The [parent_id] stored for the identifier [x], if any. *)
Definition parent_id_of (ds : list Directory.doc) (x : string) : option string :=
  match find_directory ds x with
  | Some d => Directory.parent_id d
  | None => None
  end.

(** The [k]-th ancestor of [x] along the stored parent links. *)
Fixpoint ancestor (ds : list Directory.doc) (k : nat) (x : string) : option string :=
  match k with
  | O => Some x
  | S k' =>
    match parent_id_of ds x with
    | Some p => ancestor ds k' p
    | None => None
    end
  end.

(** [x] followed by its first [k - 1] ancestors. *)
Fixpoint upward (ds : list Directory.doc) (k : nat) (x : string) : list string :=
  match k with
  | O => []
  | S k' =>
    x :: match parent_id_of ds x with
         | Some p => upward ds k' p
         | None => []
         end
  end.

(** ** Vocabulary of the further properties *)

(** The database after a sequence of writes. *)
Definition final_db (st : db) (ws : list DirectoryService.write) : db :=
  fold_left DirectoryService.apply_write ws st.

(** A grant document was issued by the owner of a stored directory to a
    registered user other than the owner. *)
Definition grant_sound (st : db) (p : Permission.doc) : Prop :=
  exists D user,
    find_directory (directories_collection st) (Permission.directory_id p) = Some D
    /\ Directory.owner_id D = Permission.granted_by p
    /\ In user (users_collection st)
    /\ User._id user = Permission.user_id p
    /\ Permission.user_id p <> Permission.granted_by p.

(** Every stored capability string is the value of a [PermissionType]. *)
Definition valid_grants (st : db) : Prop :=
  forall p s, In p (permissions_collection st) ->
              In s (Permission.permissions p) ->
              exists a, s = Permission.value a.

(** Every truthy [parent_id] names a stored directory. *)
Definition parents_stored (ds : list Directory.doc) : Prop :=
  forall d p, In d ds -> Directory.parent_id d = Some p -> truthy_str p = true ->
              In p (map Directory._id ds).

(** The directory collection is a forest: distinct identifiers, no cycle, no
    dangling parent. *)
Definition tree_wf (st : db) : Prop :=
  unique_ids st
  /\ acyclic (directories_collection st)
  /\ parents_stored (directories_collection st).

(** No two directories of one owner share a path. *)
Definition paths_unique (ds : list Directory.doc) : Prop :=
  forall d d', In d ds -> In d' ds ->
               Directory.owner_id d = Directory.owner_id d' ->
               Directory.path d = Directory.path d' -> d = d'.

(** The order of the roles, from [PENDING] up to [SUPER_ADMIN]. *)
Definition role_rank (r : Role.UserRole) : nat :=
  match r with
  | Role.PENDING => 0
  | Role.USER => 1
  | Role.ADMIN => 2
  | Role.SUPER_ADMIN => 3
  end.

(** The fields of a directory that fix its identity and its place in the
    tree: identifier, owner, parent and creation time. *)
Definition shape_of (d : Directory.doc) : string * string * option string * nat :=
  (Directory._id d, Directory.owner_id d, Directory.parent_id d,
   Directory.created_at d).

(** The node [k] is one of the returned roots or is found from one through
    the [children] lists. *)
Inductive in_forest (m : DirectoryService.dir_map_t) (roots : list string)
  : string -> Prop :=
| forest_root (k : string) :
    In k roots -> in_forest m roots k
| forest_child (q k : string) (node : Directory.DirectoryTree) :
    in_forest m roots q ->
    DirectoryService.dict_lookup m q = Some node ->
    In k (Directory.children node) ->
    in_forest m roots k.

(** ** Example stores used to evaluate the code *)
Module Examples.

Definition user_of (uid : string) (role : Role.UserRole) : User.UserResponse :=
  User.mkResponse uid (uid ++ "@example.org")%string role true.

Definition dir_of (id owner : string) (parent : option string) (public : bool)
  : Directory.doc :=
  Directory.mkDoc id id owner parent ("/" ++ id)%string public 0.

Definition grant_of (oid : nat) (uid dir : string) (caps : list string)
  : Permission.doc :=
  Permission.mkDoc oid uid dir caps "owner" 0.

(** root <- mid <- leaf, all private and owned by "owner". *)
Definition chain_dirs : list Directory.doc :=
  [ dir_of "root" "owner" None false;
    dir_of "mid" "owner" (Some "root") false;
    dir_of "leaf" "owner" (Some "mid") false ].

(** "guest" holds a read-only grant on leaf and a full grant on root. *)
Definition shadow_db : db :=
  mkDb chain_dirs []
       [ grant_of 0 "guest" "root" ["read"; "write"; "delete"];
         grant_of 1 "guest" "leaf" ["read"] ]
       [] 2.

(** One private directory owned by "alice". *)
Definition own_db : db :=
  mkDb [ dir_of "home" "alice" None false ] [] [] [] 0.

(** One public directory owned by "alice", without grants. *)
Definition public_db : db :=
  mkDb [ dir_of "pub" "alice" None true ] [] [] [] 0.

(** "orphan" names a parent that is not stored. *)
Definition dangling_db : db :=
  mkDb [ dir_of "orphan" "alice" (Some "gone") false ] [] [] [] 0.

(** "guest" holds a write-only grant on the private directory "box". *)
Definition write_only_db : db :=
  mkDb [ dir_of "box" "alice" None false ] []
       [ grant_of 0 "guest" "box" ["write"] ] [] 1.

(** a (public) <- b <- c <- e: "u2" owns a, b and c, "u1" owns e and holds
    a write-only grant on c. *)
Definition tree_db : db :=
  mkDb [ dir_of "a" "u2" None true;
         dir_of "b" "u2" (Some "a") false;
         dir_of "c" "u2" (Some "b") false;
         dir_of "e" "u1" (Some "c") false ] []
       [ grant_of 0 "u1" "c" ["write"] ] [] 1.

(** "alice" owns "box"; "guest" is a registered user; no grant yet. *)
Definition grant_db : db :=
  mkDb [ dir_of "box" "alice" None false ] [] []
       [ User.mkDoc "alice" "alice@example.org" Role.USER true;
         User.mkDoc "guest" "guest@example.org" Role.USER true ] 0.

(** "alice" grants "guest" read on "box", then write. *)
Definition read_then_write : list grant_call :=
  [ mkCall 10 (Permission.mkGrant "guest@example.org" [Permission.READ])
           "box" "alice";
    mkCall 20 (Permission.mkGrant "guest@example.org" [Permission.WRITE])
           "box" "alice" ].

(** The chain root <- mid <- leaf with a file and a grant at every level,
    and an unrelated directory "other" with a file of its own. *)
Definition cascade_db : db :=
  mkDb (chain_dirs ++ [ dir_of "other" "owner" None false ])
       [ File.mkDoc "f1" "a.txt" "root" "owner";
         File.mkDoc "f2" "b.txt" "mid" "owner";
         File.mkDoc "f3" "c.txt" "leaf" "owner";
         File.mkDoc "f4" "d.txt" "other" "owner" ]
       [ grant_of 0 "guest" "root" ["read"];
         grant_of 1 "guest" "mid" ["write"];
         grant_of 2 "guest" "leaf" ["delete"];
         grant_of 3 "guest" "other" ["read"] ]
       [] 4.

(** Two directories that name each other as parent. *)
Definition cyclic_db : db :=
  mkDb [ dir_of "a" "alice" (Some "b") false;
         dir_of "b" "alice" (Some "a") false ] [] [] [] 0.

End Examples.

(** ** Properties *)

Section Lookup.

Lemma find_directory_id (ds : list Directory.doc) (id : string) (d : Directory.doc) :
  find_directory ds id = Some d -> Directory._id d = id.
Proof.
  unfold find_directory. intro H.
  apply find_some in H. destruct H as [_ H].
  now apply String.eqb_eq.
Qed.

Lemma find_directory_In (ds : list Directory.doc) (id : string) (d : Directory.doc) :
  find_directory ds id = Some d -> In d ds.
Proof.
  unfold find_directory. intro H. now apply find_some in H.
Qed.

Lemma find_directory_None (ds : list Directory.doc) (id : string) :
  find_directory ds id = None <-> ~ In id (map Directory._id ds).
Proof.
  unfold find_directory. split.
  - intros H Hin. apply in_map_iff in Hin. destruct Hin as [d [Hid Hd]].
    pose proof (find_none _ _ H d Hd) as Hn. cbv beta in Hn.
    rewrite Hid, String.eqb_refl in Hn. discriminate.
  - intro Hn. destruct (find _ ds) as [d|] eqn:E; [|reflexivity].
    exfalso. apply Hn. apply find_some in E. destruct E as [Hd He].
    apply String.eqb_eq in He. rewrite <- He. now apply in_map.
Qed.

Lemma str_in_In (x : string) (xs : list string) :
  str_in x xs = true <-> In x xs.
Proof.
  unfold str_in. rewrite existsb_exists. split.
  - intros [y [Hy He]]. apply String.eqb_eq in He. now subst.
  - intro H. exists x. split; [assumption | apply String.eqb_refl].
Qed.

Lemma str_in_false (x : string) (xs : list string) :
  str_in x xs = false <-> ~ In x xs.
Proof.
  rewrite <- str_in_In. destruct (str_in x xs); split; intro H.
  - discriminate.
  - exfalso. now apply H.
  - discriminate.
  - reflexivity.
Qed.

(** A stored directory that its own lookup returns is recognised by
    [is_owner] for its owner. *)
Lemma is_owner_of_found (st : db) (id u : string) (d : Directory.doc) :
  find_directory (directories_collection st) id = Some d ->
  Directory.owner_id d = u ->
  DirectoryService.is_owner st id u = true.
Proof.
  intros Hf Ho. unfold DirectoryService.is_owner.
  destruct (find _ (directories_collection st)) as [d'|] eqn:E; [reflexivity|].
  pose proof (find_none _ _ E d (find_directory_In _ _ _ Hf)) as Hn.
  cbv beta in Hn.
  rewrite (find_directory_id _ _ _ Hf), Ho, !String.eqb_refl in Hn. discriminate.
Qed.

Lemma is_public_of_found (st : db) (id : string) (d : Directory.doc) :
  find_directory (directories_collection st) id = Some d ->
  DirectoryService.is_public st id = Directory.is_public d.
Proof.
  intro Hf. unfold DirectoryService.is_public. now rewrite Hf.
Qed.

End Lookup.

Section OwnerInvariant.
Import Permission.

(** C1, as stated, fails: "alice" owns the private directory "home" and has
    role [USER]; [check_permission] allows delete, but the role gate of
    [PermissionChecker] runs before its ownership test and raises 403. *)
Lemma owner_delete_denied_by_role_gate :
  find_directory (directories_collection Examples.own_db) "home"
    = Some (Examples.dir_of "home" "alice" None false)
  /\ PermissionService.check_permission 3 Examples.own_db "alice" "home" DELETE
     = Some true
  /\ Deps.PermissionChecker DELETE 3 Examples.own_db "home"
                            (Examples.user_of "alice" Role.USER)
     = Some (Raise (HTTPException 403 "Your role does not have delete permission")).
Proof. repeat split. Qed.

(** C1 (amended): for the owner U of a stored directory D and every action,
    [check_permission] answers true whatever U's role and whatever grants
    exist (with any fuel), and [PermissionChecker] returns true as soon as
    U is super-admin, or U's role carries the action in the role table, or
    the action is read or write and D is public. *)
Theorem owner_always_allowed
        (fuel : nat) (st : db) (directory_id : string) (D : Directory.doc)
        (U : User.UserResponse) (action : PermissionType) :
  find_directory (directories_collection st) directory_id = Some D ->
  Directory.owner_id D = User.id U ->
  PermissionService.check_permission fuel st (User.id U) directory_id action
    = Some true
  /\ (User.r_role U = Role.SUPER_ADMIN
      \/ Role.has_permission (User.r_role U) (value action) = true
      \/ (action <> DELETE /\ Directory.is_public D = true) ->
      Deps.PermissionChecker action fuel st directory_id U = Some (Return true)).
Proof.
  intros Hfind Hown. split.
  - unfold PermissionService.check_permission.
    now rewrite Hfind, Hown, String.eqb_refl.
  - intros Hcase. unfold Deps.PermissionChecker.
    rewrite (is_owner_of_found _ _ _ _ Hfind Hown).
    rewrite (is_public_of_found _ _ _ Hfind).
    destruct Hcase as [Hsa | [Hrole | [Hact Hpub]]].
    + now rewrite Hsa.
    + rewrite Hrole. cbn [negb].
      destruct (Role.eqb (User.r_role U) Role.SUPER_ADMIN); [reflexivity|].
      destruct (_ && Directory.is_public D); [reflexivity|].
      now destruct (Role.eqb (User.r_role U) Role.ADMIN && true).
    + rewrite Hpub.
      destruct (Role.eqb (User.r_role U) Role.SUPER_ADMIN); [reflexivity|].
      destruct action; try reflexivity. now elim Hact.
Qed.

Lemma owner_always_allowed_witness :
  PermissionService.check_permission 0 Examples.own_db "alice" "home" DELETE
    = Some true
  /\ Deps.PermissionChecker WRITE 0 Examples.own_db "home"
                            (Examples.user_of "alice" Role.USER)
     = Some (Return true).
Proof.
  destruct (owner_always_allowed 0 Examples.own_db "home"
              (Examples.dir_of "home" "alice" None false)
              (Examples.user_of "alice" Role.USER) DELETE
              eq_refl eq_refl) as [Hc _].
  destruct (owner_always_allowed 0 Examples.own_db "home"
              (Examples.dir_of "home" "alice" None false)
              (Examples.user_of "alice" Role.USER) WRITE
              eq_refl eq_refl) as [_ Hp].
  split; [exact Hc | apply Hp; right; left; reflexivity].
Defined.

End OwnerInvariant.

Section AncestorWalk.
Import Permission.

(** The walk only appends to [path_ids], and what it appends is the
    ancestor chain of the directory it started from. *)
Lemma build_path_sound (fuel : nat) (ds : list Directory.doc) :
  forall (current : Directory.doc) (acc path : list string),
    PermissionService.build_path fuel ds current acc = Some path ->
    exists chain e, path = acc ++ chain /\ ancestor_chain ds current chain e.
Proof.
  induction fuel as [|fuel IH]; intros current acc path H; [discriminate|].
  cbn [PermissionService.build_path] in H.
  destruct (Directory.parent_id current) as [p|] eqn:Hp.
  - destruct (truthy_str p) eqn:Ht.
    + destruct (find_directory ds p) as [c'|] eqn:Hf.
      * apply IH in H. destruct H as [chain [e [-> Hc]]].
        exists (p :: chain), e. split; [now rewrite <- app_assoc|].
        now apply chain_up with c'.
      * injection H as <-. exists [p], AtBrokenLink. split; [reflexivity|].
        now apply chain_broken.
    + injection H as <-. exists [], AtRoot. split; [now rewrite app_nil_r|].
      apply chain_root. now rewrite Hp.
  - injection H as <-. exists [], AtRoot. split; [now rewrite app_nil_r|].
    apply chain_root. now rewrite Hp.
Qed.

(** A directory with an ancestor chain makes the walk return it, as soon as
    the fuel exceeds the length of the chain. *)
Lemma build_path_complete (ds : list Directory.doc) (current : Directory.doc)
      (chain : list string) (e : chain_end) :
  ancestor_chain ds current chain e ->
  forall (acc : list string) (fuel : nat),
    List.length chain < fuel ->
    PermissionService.build_path fuel ds current acc = Some (acc ++ chain).
Proof.
  induction 1 as [d Hroot | d p Hp Ht Hf | d d' p chain e Hp Ht Hf Hc IH];
    intros acc fuel Hlen; (destruct fuel as [|fuel]; [cbn in Hlen; lia|]);
    cbn [PermissionService.build_path].
  - destruct (Directory.parent_id d) as [p|]; [|now rewrite app_nil_r].
    cbn in Hroot. rewrite Hroot. now rewrite app_nil_r.
  - now rewrite Hp, Ht, Hf.
  - rewrite Hp, Ht, Hf. rewrite IH by (cbn in Hlen; lia).
    now rewrite <- app_assoc.
Qed.

(** The scan over the path answers from the first grant found. *)
Lemma scan_path_first_grant (ps : list doc) (uid : string) (action : PermissionType) :
  forall path : list string,
    PermissionService.scan_path ps uid path action
    = match first_grant ps uid path with
      | Some g => str_in (value action) (Permission.permissions g)
      | None => false
      end.
Proof.
  induction path as [|x path IH]; cbn; [reflexivity|].
  now destruct (find_permission ps uid x).
Qed.

Lemma first_grant_split (ps : list doc) (uid : string) :
  forall (pre post : list string) (dir_id : string) (g : doc),
    (forall x, In x pre -> find_permission ps uid x = None) ->
    find_permission ps uid dir_id = Some g ->
    first_grant ps uid (pre ++ dir_id :: post) = Some g.
Proof.
  induction pre as [|x pre IH]; intros post dir_id g Hpre Hg; cbn.
  - now rewrite Hg.
  - rewrite (Hpre x (or_introl eq_refl)).
    apply IH; [|assumption]. intros y Hy. apply Hpre. now right.
Qed.

Lemma first_grant_none (ps : list doc) (uid : string) :
  forall path : list string,
    (forall x, In x path -> find_permission ps uid x = None) ->
    first_grant ps uid path = None.
Proof.
  induction path as [|x path IH]; intro H; cbn; [reflexivity|].
  rewrite (H x (or_introl eq_refl)). apply IH. intros y Hy. apply H. now right.
Qed.

(** [check_permission] for a user who does not own the stored target:
    enough fuel yields the scan of the target followed by its chain. *)
Lemma check_permission_non_owner
      (st : db) (uid directory_id : string) (D : Directory.doc)
      (chain : list string) (e : chain_end) (action : PermissionType) (fuel : nat) :
  find_directory (directories_collection st) directory_id = Some D ->
  Directory.owner_id D <> uid ->
  ancestor_chain (directories_collection st) D chain e ->
  List.length chain < fuel ->
  PermissionService.check_permission fuel st uid directory_id action
  = Some match first_grant (permissions_collection st) uid (directory_id :: chain) with
         | Some g => str_in (value action) (Permission.permissions g)
         | None => false
         end.
Proof.
  intros Hfind Hown Hchain Hfuel. unfold PermissionService.check_permission.
  rewrite Hfind.
  destruct (Directory.owner_id D =? uid) eqn:E.
  { apply String.eqb_eq in E. contradiction. }
  rewrite (build_path_complete _ _ _ _ Hchain) by assumption.
  now rewrite scan_path_first_grant.
Qed.

(** C2: for a stored directory D that the user does not own, with ancestor
    chain [chain], [check_permission] returns as soon as the fuel exceeds
    the chain's length, and the first directory of [D :: chain] that holds a
    grant for the user decides: the answer is whether that grant's list
    contains the action, whatever grants the directories after it hold.  In
    particular a grant on D itself whose capabilities are exactly read makes
    write denied, whatever the ancestors grant. *)
Theorem first_grant_shadows
        (st : db) (uid directory_id : string) (D : Directory.doc)
        (chain : list string) (e : chain_end) (fuel : nat) :
  find_directory (directories_collection st) directory_id = Some D ->
  Directory.owner_id D <> uid ->
  ancestor_chain (directories_collection st) D chain e ->
  List.length chain < fuel ->
  (forall (action : PermissionType) (pre post : list string) (dir_id : string)
          (g : doc),
      directory_id :: chain = pre ++ dir_id :: post ->
      (forall x, In x pre -> find_permission (permissions_collection st) uid x = None) ->
      find_permission (permissions_collection st) uid dir_id = Some g ->
      PermissionService.check_permission fuel st uid directory_id action
      = Some (str_in (value action) (Permission.permissions g)))
  /\ (forall g : doc,
         find_permission (permissions_collection st) uid directory_id = Some g ->
         (forall c, In c (Permission.permissions g) <-> c = "read") ->
         PermissionService.check_permission fuel st uid directory_id WRITE
         = Some false).
Proof.
  intros Hfind Hown Hchain Hfuel. split.
  - intros action pre post dir_id g Hsplit Hpre Hg.
    rewrite (check_permission_non_owner _ _ _ _ _ _ _ _ Hfind Hown Hchain Hfuel).
    rewrite Hsplit. now rewrite (first_grant_split _ _ _ _ _ _ Hpre Hg).
  - intros g Hg Hread.
    rewrite (check_permission_non_owner _ _ _ _ _ _ _ _ Hfind Hown Hchain Hfuel).
    cbn [first_grant]. rewrite Hg. f_equal.
    apply str_in_false. intro Hin. apply Hread in Hin. discriminate.
Qed.

Lemma shadow_chain :
  ancestor_chain Examples.chain_dirs
                 (Examples.dir_of "leaf" "owner" (Some "mid") false)
                 ["mid"; "root"] AtRoot.
Proof.
  eapply chain_up; [reflexivity | reflexivity | reflexivity |].
  eapply chain_up; [reflexivity | reflexivity | reflexivity |].
  now apply chain_root.
Defined.

Lemma first_grant_shadows_witness :
  PermissionService.check_permission 3 Examples.shadow_db "guest" "leaf" WRITE
  = Some false.
Proof.
  refine (proj2 (first_grant_shadows Examples.shadow_db "guest" "leaf"
                   (Examples.dir_of "leaf" "owner" (Some "mid") false)
                   ["mid"; "root"] AtRoot 3 eq_refl _ shadow_chain _)
                (Examples.grant_of 1 "guest" "leaf" ["read"]) eq_refl _).
  - discriminate.
  - cbn. lia.
  - intro c. cbn. split.
    + intros [H | []]. now symmetry.
    + intros ->. now left.
Defined.

End AncestorWalk.

Section RoleCeiling.
Import Permission.

(** C3, as stated, fails: "bob" has role [PENDING], whose table denies read,
    and does not own the public directory "pub"; the public fast-path runs
    before the role gate and lets the read through. *)
Lemma pending_reads_public_directory :
  Role.has_permission Role.PENDING (value READ) = false
  /\ DirectoryService.is_owner Examples.public_db "pub" "bob" = false
  /\ Deps.PermissionChecker READ 3 Examples.public_db "pub"
                            (Examples.user_of "bob" Role.PENDING)
     = Some (Return true).
Proof. repeat split. Qed.

(** C3 (amended): when the role table denies the action for the user's role,
    [PermissionChecker] raises 403 at the role gate on every directory to
    which the public fast-path does not apply (the action is delete, or the
    directory is not public), whatever grants are stored and before any
    grant lookup (with any fuel). *)
Theorem role_gate_is_a_ceiling
        (fuel : nat) (st : db) (directory_id : string) (U : User.UserResponse)
        (action : PermissionType) :
  Role.has_permission (User.r_role U) (value action) = false ->
  action = DELETE \/ DirectoryService.is_public st directory_id = false ->
  Deps.PermissionChecker action fuel st directory_id U
  = Some (Raise (HTTPException HTTP_403_FORBIDDEN
                   ("Your role does not have " ++ value action ++ " permission")%string)).
Proof.
  intros Hrole Hnofast. unfold Deps.PermissionChecker.
  rewrite Hrole. cbn [negb].
  assert (Hfast : (Permission.eqb action READ || Permission.eqb action WRITE)
                  && DirectoryService.is_public st directory_id = false).
  { destruct Hnofast as [-> | ->]; [reflexivity | apply andb_false_r]. }
  rewrite Hfast.
  destruct (User.r_role U), action; try discriminate Hrole; reflexivity.
Qed.

Lemma role_gate_is_a_ceiling_witness :
  Deps.PermissionChecker DELETE 3 Examples.shadow_db "leaf"
                         (Examples.user_of "guest" Role.USER)
  = Some (Raise (HTTPException 403 "Your role does not have delete permission")).
Proof.
  apply (role_gate_is_a_ceiling 3 Examples.shadow_db "leaf"
           (Examples.user_of "guest" Role.USER) DELETE).
  - reflexivity.
  - left. reflexivity.
Defined.

End RoleCeiling.

Section PublicDirectories.
Import Permission.

(** C4, as stated, fails: "root" is a super-admin who does not own the public
    directory "pub", which has no grants; delete is allowed by the global
    override. *)
Lemma super_admin_deletes_public_directory :
  DirectoryService.is_public Examples.public_db "pub" = true
  /\ permissions_collection Examples.public_db = []
  /\ DirectoryService.is_owner Examples.public_db "pub" "root" = false
  /\ Deps.PermissionChecker DELETE 3 Examples.public_db "pub"
                            (Examples.user_of "root" Role.SUPER_ADMIN)
     = Some (Return true).
Proof. repeat split. Qed.

Lemma not_owner_of_found (st : db) (id u : string) (d : Directory.doc) :
  find_directory (directories_collection st) id = Some d ->
  DirectoryService.is_owner st id u = false ->
  Directory.owner_id d <> u.
Proof.
  intros Hf Hno Ho. rewrite (is_owner_of_found _ _ _ _ Hf Ho) in Hno. discriminate.
Qed.

(** C4 (amended): on a stored public directory D every user is allowed read
    and write (with any fuel).  Delete is refused with 403 for every user
    who is not a super-admin, whom [is_owner] does not recognise as D's
    owner, and for whom neither D nor a directory of its ancestor chain
    holds a grant, as soon as the fuel exceeds the chain's length. *)
Theorem public_read_write_not_delete
        (st : db) (directory_id : string) (D : Directory.doc)
        (U : User.UserResponse) (fuel : nat) :
  find_directory (directories_collection st) directory_id = Some D ->
  Directory.is_public D = true ->
  Deps.PermissionChecker READ fuel st directory_id U = Some (Return true)
  /\ Deps.PermissionChecker WRITE fuel st directory_id U = Some (Return true)
  /\ (forall (chain : list string) (e : chain_end),
         User.r_role U <> Role.SUPER_ADMIN ->
         DirectoryService.is_owner st directory_id (User.id U) = false ->
         ancestor_chain (directories_collection st) D chain e ->
         first_grant (permissions_collection st) (User.id U) (directory_id :: chain)
           = None ->
         List.length chain < fuel ->
         exists detail,
           Deps.PermissionChecker DELETE fuel st directory_id U
           = Some (Raise (HTTPException HTTP_403_FORBIDDEN detail))).
Proof.
  intros Hfind Hpub.
  pose proof (is_public_of_found _ _ _ Hfind) as Hp. rewrite Hpub in Hp.
  repeat split.
  - unfold Deps.PermissionChecker. rewrite Hp.
    now destruct (Role.eqb (User.r_role U) Role.SUPER_ADMIN).
  - unfold Deps.PermissionChecker. rewrite Hp.
    now destruct (Role.eqb (User.r_role U) Role.SUPER_ADMIN).
  - intros chain e Hsa Hno Hchain Hnone Hfuel.
    unfold Deps.PermissionChecker. rewrite Hno.
    rewrite (check_permission_non_owner _ _ _ _ _ _ DELETE _ Hfind
               (not_owner_of_found _ _ _ _ Hfind Hno) Hchain Hfuel).
    rewrite Hnone.
    destruct (User.r_role U); try (now elim Hsa); cbn; eexists; reflexivity.
Qed.

Lemma public_read_write_not_delete_witness :
  Deps.PermissionChecker READ 1 Examples.public_db "pub"
                         (Examples.user_of "bob" Role.ADMIN) = Some (Return true)
  /\ Deps.PermissionChecker WRITE 1 Examples.public_db "pub"
                            (Examples.user_of "bob" Role.ADMIN) = Some (Return true)
  /\ exists detail,
      Deps.PermissionChecker DELETE 1 Examples.public_db "pub"
                             (Examples.user_of "bob" Role.ADMIN)
      = Some (Raise (HTTPException HTTP_403_FORBIDDEN detail)).
Proof.
  destruct (public_read_write_not_delete Examples.public_db "pub"
              (Examples.dir_of "pub" "alice" None true)
              (Examples.user_of "bob" Role.ADMIN) 1 eq_refl eq_refl)
    as [Hr [Hw Hd]].
  split; [exact Hr | split; [exact Hw |]].
  apply (Hd [] AtRoot).
  - discriminate.
  - reflexivity.
  - now apply chain_root.
  - reflexivity.
  - cbn. lia.
Defined.

End PublicDirectories.

Section BrokenParentLink.
Import Permission.

(** A chain that ends at a broken link is not empty, its last identifier
    names no stored directory and all the earlier ones do. *)
Lemma broken_chain_shape (ds : list Directory.doc) (d : Directory.doc)
      (chain : list string) (e : chain_end) :
  ancestor_chain ds d chain e ->
  e = AtBrokenLink ->
  exists body p,
    chain = body ++ [p]
    /\ find_directory ds p = None
    /\ forall x, In x body -> find_directory ds x <> None.
Proof.
  induction 1 as [d Hroot | d p Hp Ht Hf | d d' p chain e Hp Ht Hf Hc IH];
    intro He; [discriminate | |].
  - exists [], p. repeat split; [assumption | intros x []].
  - destruct (IH He) as [body [q [-> [Hq Hbody]]]].
    exists (p :: body), q. repeat split; [assumption|].
    intros x [<- | Hx]; [now rewrite Hf | now apply Hbody].
Qed.

(** C8: when the ancestor chain of a stored directory D ends at a dangling
    [parent_id], the walk of [check_permission] returns as soon as the fuel
    exceeds the chain's length: [path_ids] is D followed by the chain up to
    and including the dangling identifier, [check_permission] returns a
    boolean for every user and action, and for a user who is not the owner
    and has no grant on any identifier of that path the answer is false. *)
Theorem dangling_parent_truncates_walk
        (st : db) (uid directory_id : string) (D : Directory.doc)
        (chain : list string) (action : PermissionType) (fuel : nat) :
  find_directory (directories_collection st) directory_id = Some D ->
  ancestor_chain (directories_collection st) D chain AtBrokenLink ->
  List.length chain < fuel ->
  (exists body p,
      chain = body ++ [p]
      /\ find_directory (directories_collection st) p = None
      /\ forall x, In x body -> find_directory (directories_collection st) x <> None)
  /\ PermissionService.build_path fuel (directories_collection st) D [directory_id]
     = Some (directory_id :: chain)
  /\ (exists b : bool,
         PermissionService.check_permission fuel st uid directory_id action = Some b)
  /\ (Directory.owner_id D <> uid ->
      first_grant (permissions_collection st) uid (directory_id :: chain) = None ->
      PermissionService.check_permission fuel st uid directory_id action
      = Some false).
Proof.
  intros Hfind Hchain Hfuel.
  split; [now apply (broken_chain_shape _ _ _ _ Hchain)|].
  split; [now apply (build_path_complete _ _ _ _ Hchain [directory_id])|].
  split.
  - unfold PermissionService.check_permission. rewrite Hfind.
    destruct (Directory.owner_id D =? uid); [now exists true|].
    rewrite (build_path_complete _ _ _ _ Hchain [directory_id]) by assumption.
    eexists; reflexivity.
  - intros Hown Hnone.
    rewrite (check_permission_non_owner _ _ _ _ _ _ action _ Hfind Hown Hchain Hfuel).
    now rewrite Hnone.
Qed.

Lemma dangling_parent_truncates_walk_witness :
  PermissionService.build_path 2 (directories_collection Examples.dangling_db)
    (Examples.dir_of "orphan" "alice" (Some "gone") false) ["orphan"]
  = Some ["orphan"; "gone"]
  /\ PermissionService.check_permission 2 Examples.dangling_db "bob" "orphan" READ
     = Some false.
Proof.
  destruct (dangling_parent_truncates_walk Examples.dangling_db "bob" "orphan"
              (Examples.dir_of "orphan" "alice" (Some "gone") false)
              ["gone"] READ 2 eq_refl)
    as [_ [Hpath [_ Hdeny]]].
  - now apply chain_broken.
  - cbn. lia.
  - split; [exact Hpath | apply Hdeny; [discriminate | reflexivity]].
Defined.

End BrokenParentLink.

Section VisibilitySet.
Import Directory.

Lemma to_public_response_eq (d : doc) :
  is_public d = true ->
  DirectoryService.to_public_response d = DirectoryService.to_response d.
Proof.
  intro H. unfold DirectoryService.to_public_response, DirectoryService.to_response.
  now rewrite H.
Qed.

(** Two stored directories with the same identifier are the same document. *)
Lemma unique_ids_inj (ds : list doc) (d d' : doc) :
  NoDup (map _id ds) -> In d ds -> In d' ds -> _id d = _id d' -> d = d'.
Proof.
  induction ds as [|x ds IH]; intros Hnd Hd Hd' He; [destruct Hd|].
  cbn in Hnd. inversion Hnd as [|? ? Hx Hnd']; subst.
  destruct Hd as [-> | Hd], Hd' as [-> | Hd'].
  - reflexivity.
  - exfalso. apply Hx. rewrite He. now apply in_map.
  - exfalso. apply Hx. rewrite <- He. now apply in_map.
  - now apply IH.
Qed.

Lemma NoDup_map_filter {A B : Type} (f : A -> B) (q : A -> bool) (l : list A) :
  NoDup (map f l) -> NoDup (map f (filter q l)).
Proof.
  induction l as [|x l IH]; intro H; cbn; [constructor|].
  cbn in H. inversion H as [|? ? Hx Hl]; subst.
  destruct (q x); cbn; [|now apply IH].
  constructor; [|now apply IH].
  intro Hin. apply Hx. apply in_map_iff in Hin. destruct Hin as [y [Hy Hin]].
  apply filter_In in Hin. rewrite <- Hy. apply in_map. tauto.
Qed.

(** The public loop: what it appends and which identifiers it records. *)
Lemma add_public_spec (cursor : list doc) :
  forall (result : list DirectoryResponse) (result_ids : list string),
    NoDup (map _id cursor) ->
    let out := DirectoryService.add_public cursor result result_ids in
    (forall r, In r (fst out) <->
               In r result
               \/ exists d, In d cursor /\ ~ In (_id d) result_ids
                            /\ r = DirectoryService.to_public_response d)
    /\ (forall i, In i (snd out) <-> In i result_ids \/ In i (map _id cursor)).
Proof.
  induction cursor as [|d cursor IH]; intros result result_ids Hnd; cbn zeta.
  - cbn. split; intro x; split; try tauto.
    intros [H | [d [[] _]]]. assumption.
  - cbn in Hnd. inversion Hnd as [|? ? Hd Hnd']; subst.
    cbn [DirectoryService.add_public].
    destruct (str_in (_id d) result_ids) eqn:E; cbn [negb].
    + apply str_in_In in E.
      destruct (IH result result_ids Hnd') as [IHr IHi]. split.
      * intro r. rewrite IHr. split.
        -- intros [H | [d' [Hin [Hno ->]]]]; [now left|].
           right. exists d'. repeat split; [now right | assumption].
        -- intros [H | [d' [[<- | Hin] [Hno ->]]]]; [now left | contradiction |].
           right. exists d'. now repeat split.
      * intro i. rewrite IHi. cbn. split; [tauto|].
        intros [H | [<- | H]]; tauto.
    + apply str_in_false in E.
      destruct (IH (result ++ [DirectoryService.to_public_response d])
                   (_id d :: result_ids) Hnd') as [IHr IHi]. split.
      * intro r. rewrite IHr, in_app_iff. cbn [In]. split.
        -- intros [[H | [<- | []]] | [d' [Hin [Hno ->]]]].
           ++ now left.
           ++ right. exists d. repeat split; [now left | assumption].
           ++ right. exists d'. repeat split; [now right|].
              intro H. apply Hno. now right.
        -- intros [H | [d' [[<- | Hin] [Hno ->]]]].
           ++ now left; left.
           ++ left; right; now left.
           ++ right. exists d'. repeat split; [assumption|].
              intros [He | H]; [|contradiction].
              apply Hd. rewrite He. now apply in_map.
      * intro i. rewrite IHi. cbn. tauto.
Qed.

(** The public loop keeps the identifiers of the result distinct and
    recorded in [result_ids]. *)
Lemma add_public_NoDup (cursor : list doc) :
  forall (result : list DirectoryResponse) (result_ids : list string),
    NoDup (map r_id result) ->
    (forall i, In i (map r_id result) -> In i result_ids) ->
    let out := DirectoryService.add_public cursor result result_ids in
    NoDup (map r_id (fst out))
    /\ (forall i, In i (map r_id (fst out)) -> In i (snd out)).
Proof.
  induction cursor as [|d cursor IH]; intros result result_ids Hnd Hsub; cbn zeta.
  - cbn. now split.
  - cbn [DirectoryService.add_public].
    destruct (str_in (_id d) result_ids) eqn:E; cbn [negb].
    + now apply IH.
    + apply str_in_false in E. apply IH.
      * rewrite map_app. cbn. apply NoDup_app; [assumption | | ].
        -- constructor; [intros [] | constructor].
        -- intros i Hi [<- | []]. apply E. now apply Hsub.
      * intro i. rewrite map_app, in_app_iff. cbn.
        intros [H | [<- | []]]; [right; now apply Hsub | now left].
Qed.

(** The shared loop: what it appends. *)
Lemma add_shared_spec (cursor : list doc) (result_ids : list string) :
  forall (result : list DirectoryResponse) (r : DirectoryResponse),
    In r (DirectoryService.add_shared cursor result result_ids) <->
    In r result
    \/ exists d, In d cursor /\ ~ In (_id d) result_ids
                 /\ r = DirectoryService.to_response d.
Proof.
  induction cursor as [|d cursor IH]; intros result r.
  - cbn. split; [tauto|]. intros [H | [d [[] _]]]. assumption.
  - cbn [DirectoryService.add_shared].
    destruct (str_in (_id d) result_ids) eqn:E; cbn [negb].
    + apply str_in_In in E. rewrite IH. split.
      * intros [H | [d' [Hin [Hno ->]]]]; [now left|].
        right. exists d'. repeat split; [now right | assumption].
      * intros [H | [d' [[<- | Hin] [Hno ->]]]]; [now left | contradiction |].
        right. exists d'. now repeat split.
    + apply str_in_false in E. rewrite IH, in_app_iff. cbn [In]. split.
      * intros [[H | [<- | []]] | [d' [Hin [Hno ->]]]].
        -- now left.
        -- right. exists d. repeat split; [now left | assumption].
        -- right. exists d'. repeat split; [now right | assumption].
      * intros [H | [d' [[<- | Hin] [Hno ->]]]].
        -- now left; left.
        -- left; right; now left.
        -- right. exists d'. now repeat split.
Qed.

Lemma add_shared_NoDup (cursor : list doc) (result_ids : list string) :
  forall result : list DirectoryResponse,
    NoDup (map _id cursor) ->
    NoDup (map r_id result) ->
    (forall d, In d cursor -> In (_id d) (map r_id result) -> In (_id d) result_ids) ->
    NoDup (map r_id (DirectoryService.add_shared cursor result result_ids)).
Proof.
  induction cursor as [|d cursor IH]; intros result Hc Hnd Hsub; [assumption|].
  cbn in Hc. inversion Hc as [|? ? Hd Hc']; subst.
  cbn [DirectoryService.add_shared].
  destruct (str_in (_id d) result_ids) eqn:E; cbn [negb].
  - apply IH; [assumption | assumption |].
    intros d' Hin. apply Hsub. now right.
  - apply str_in_false in E. apply IH; [assumption | |].
    + rewrite map_app. cbn. apply NoDup_app; [assumption | |].
      * constructor; [intros [] | constructor].
      * intros i Hi [<- | []]. apply E. apply Hsub; [now left | assumption].
    + intros d' Hin. rewrite map_app, in_app_iff. cbn.
      intros [H | [He | []]]; [apply Hsub; [now right | assumption]|].
      exfalso. apply Hd. rewrite He. now apply in_map.
Qed.

End VisibilitySet.

Section VisibilityTheorem.
Import Directory.

Lemma r_id_to_response (l : list doc) :
  map r_id (map DirectoryService.to_response l) = map _id l.
Proof. rewrite map_map. now apply map_ext. Qed.

(** The identifiers collected from the user's grants. *)
Lemma shared_ids_In (ps : list Permission.doc) (uid : string) (d : doc) :
  In (_id d)
     (map Permission.directory_id
          (filter (fun p => Permission.user_id p =? uid) ps))
  <-> granted ps uid d.
Proof.
  unfold granted. rewrite in_map_iff. split.
  - intros [p [He Hp]]. apply filter_In in Hp. destruct Hp as [Hp Hu].
    apply String.eqb_eq in Hu. now exists p.
  - intros [p [Hp [Hu He]]]. exists p. split; [assumption|].
    apply filter_In. split; [assumption|]. now apply String.eqb_eq.
Qed.

(** What [get_user_directories] returns for a user who is not a
    super-admin, on a store with distinct identifiers. *)
Lemma get_user_directories_spec (st : db) (uid : string) (role : Role.UserRole) :
  role <> Role.SUPER_ADMIN ->
  unique_ids st ->
  (forall r, In r (DirectoryService.get_user_directories st uid role) <->
             exists d, In d (directories_collection st) /\ visible st uid d
                       /\ r = DirectoryService.to_response d)
  /\ NoDup (map r_id (DirectoryService.get_user_directories st uid role)).
Proof.
  intros Hrole Huniq. unfold unique_ids in Huniq.
  unfold DirectoryService.get_user_directories.
  assert (Hr : Role.eqb role Role.SUPER_ADMIN = false)
    by (destruct role; try reflexivity; now elim Hrole).
  rewrite Hr. clear Hr Hrole.
  set (ds := directories_collection st) in *.
  set (owned := filter (fun d => owner_id d =? uid) ds).
  set (pub := filter (fun d => is_public d) ds).
  set (shared_ids := map Permission.directory_id
                         (filter (fun p => Permission.user_id p =? uid)
                                 (permissions_collection st))).
  rewrite r_id_to_response.
  pose proof (add_public_spec pub (map DirectoryService.to_response owned)
                (map _id owned) (NoDup_map_filter _ _ _ Huniq)) as Hpub.
  pose proof (add_public_NoDup pub (map DirectoryService.to_response owned)
                (map _id owned)) as Hpubnd.
  rewrite r_id_to_response in Hpubnd.
  specialize (Hpubnd (NoDup_map_filter _ _ _ Huniq) (fun i H => H)).
  cbn zeta in Hpub, Hpubnd.
  destruct (DirectoryService.add_public pub _ _) as [r1 ids1].
  cbn [fst snd] in Hpub, Hpubnd.
  destruct Hpub as [Hr1 Hids1]. destruct Hpubnd as [Hnd1 Hsub1].
  (* membership in the result of the first two phases *)
  assert (Hin1 : forall r, In r r1 <->
             exists d, In d ds
                       /\ (owner_id d = uid \/ is_public d = true)
                       /\ r = DirectoryService.to_response d).
  { intro r. rewrite Hr1. split.
    - intros [H | [d [Hd [Hno ->]]]].
      + apply in_map_iff in H. destruct H as [d [<- Hd]].
        apply filter_In in Hd. destruct Hd as [Hd Ho].
        apply String.eqb_eq in Ho. exists d. tauto.
      + apply filter_In in Hd. destruct Hd as [Hd Hp].
        exists d. repeat split; [assumption | now right |].
        now apply to_public_response_eq.
    - intros [d [Hd [[Ho | Hp] ->]]].
      + left. apply in_map. apply filter_In. split; [assumption|].
        now apply String.eqb_eq.
      + destruct (owner_id d =? uid) eqn:Ho.
        * left. apply in_map. apply filter_In. now split.
        * right. exists d. split; [apply filter_In; now split|].
          split; [|symmetry; now apply to_public_response_eq].
          intro Hin. apply in_map_iff in Hin. destruct Hin as [d' [He Hd']].
          apply filter_In in Hd'. destruct Hd' as [Hd' Ho'].
          rewrite (unique_ids_inj ds d' d Huniq Hd' Hd He) in Ho'. congruence. }
  (* an identifier recorded after the public phase is owned or public *)
  assert (Hrec : forall d, In d ds -> In (_id d) ids1 ->
                           owner_id d = uid \/ is_public d = true).
  { intros d Hd Hi. apply Hids1 in Hi.
    destruct Hi as [Hi | Hi]; apply in_map_iff in Hi;
      destruct Hi as [d' [He Hd']]; apply filter_In in Hd';
        destruct Hd' as [Hd' Hq];
        rewrite (unique_ids_inj ds d' d Huniq Hd' Hd He) in Hq.
    - left. now apply String.eqb_eq.
    - now right. }
  destruct shared_ids as [|i0 rest] eqn:Hshared.
  - split; [|assumption].
    intro r. rewrite Hin1. split.
    + intros [d [Hd [Hv ->]]]. exists d. unfold visible. tauto.
    + intros [d [Hd [[Ho | [Hp | Hg]] ->]]];
        [exists d; tauto | exists d; tauto |].
      apply shared_ids_In in Hg. fold shared_ids in Hg.
      rewrite Hshared in Hg. destruct Hg.
  - rewrite <- Hshared. split.
    + intro r. rewrite add_shared_spec, Hin1. split.
      * intros [[d [Hd [Hv ->]]] | [d [Hd [Hno ->]]]].
        -- exists d. unfold visible. tauto.
        -- apply filter_In in Hd. destruct Hd as [Hd Hs].
           apply str_in_In in Hs. apply shared_ids_In in Hs.
           exists d. unfold visible. tauto.
      * intros [d [Hd [[Ho | [Hp | Hg]] ->]]];
          [left; exists d; tauto | left; exists d; tauto |].
        destruct (in_dec string_dec (_id d) ids1) as [Hi | Hi].
        -- left. exists d. pose proof (Hrec d Hd Hi). tauto.
        -- right. exists d. repeat split; [|assumption].
           apply filter_In. split; [assumption|].
           apply str_in_In. now apply shared_ids_In.
    + apply add_shared_NoDup; [now apply NoDup_map_filter | assumption |].
      intros d _. apply Hsub1.
Qed.

End VisibilityTheorem.

Section TreeAssembly.
Import Directory.
Import DirectoryService.

Lemma children_extend_nil (v : DirectoryTree) : children_extend v [] = v.
Proof. destruct v. unfold children_extend. cbn. now rewrite app_nil_r. Qed.

Lemma children_extend_twice (v : DirectoryTree) (l l' : list string) :
  children_extend (children_extend v l) l' = children_extend v (l ++ l').
Proof. unfold children_extend. cbn. now rewrite app_assoc. Qed.

(** Mutating the node under [p] changes that node only. *)
Lemma dict_lookup_append_child (m : dir_map_t) (p k q : string) :
  dict_lookup (append_child m p k) q
  = match dict_lookup m q with
    | Some v => Some (if q =? p then children_extend v [k] else v)
    | None => None
    end.
Proof.
  induction m as [|[k0 v] m IH]; cbn; [reflexivity|].
  destruct (k0 =? p) eqn:Ep; cbn.
  - apply String.eqb_eq in Ep. subst k0.
    destruct (p =? q) eqn:Eq.
    + apply String.eqb_eq in Eq. subst q. now rewrite String.eqb_refl.
    + destruct (dict_lookup m q); [|reflexivity].
      rewrite String.eqb_sym. now rewrite Eq.
  - destruct (k0 =? q) eqn:Eq; [|assumption].
    apply String.eqb_eq in Eq. subst q. now rewrite Ep.
Qed.

Lemma dict_mem_append_child (m : dir_map_t) (p k q : string) :
  dict_mem (append_child m p k) q = dict_mem m q.
Proof.
  unfold dict_mem. rewrite dict_lookup_append_child.
  now destruct (dict_lookup m q).
Qed.

Lemma keys_append_child (m : dir_map_t) (p k : string) :
  map fst (append_child m p k) = map fst m.
Proof.
  induction m as [|[k0 v] m IH]; cbn; [reflexivity|].
  destruct (k0 =? p); cbn; [reflexivity | now rewrite IH].
Qed.

Lemma attaches_append_child (m : dir_map_t) (p k : string)
      (kp : string * option string) :
  attaches (append_child m p k) kp = attaches m kp.
Proof.
  unfold attaches. destruct (snd kp); [|reflexivity].
  now rewrite dict_mem_append_child.
Qed.

Lemma attaches_to_append_child (m : dir_map_t) (p k q : string)
      (kp : string * option string) :
  attaches_to (append_child m p k) q kp = attaches_to m q kp.
Proof.
  unfold attaches_to. destruct (snd kp); [|reflexivity].
  now rewrite dict_mem_append_child.
Qed.

(** The roots after the loop: the nodes that do not attach, in order. *)
Lemma assemble_roots (todo : list (string * option string)) :
  forall (m : dir_map_t) (roots : list string),
    snd (assemble todo m roots)
    = roots ++ map fst (filter (fun kp => negb (attaches m kp)) todo).
Proof.
  induction todo as [|[key parent] todo IH]; intros m roots; cbn [assemble].
  - cbn. now rewrite app_nil_r.
  - unfold attaches at 1. cbn [filter snd].
    destruct parent as [p|].
    + destruct (truthy_str p && dict_mem m p) eqn:E; cbn [negb].
      * rewrite IH. f_equal. f_equal. apply filter_ext.
        intro kp. now rewrite attaches_append_child.
      * rewrite IH. cbn. now rewrite <- app_assoc.
    + rewrite IH. cbn. now rewrite <- app_assoc.
Qed.

Lemma assemble_keys (todo : list (string * option string)) :
  forall (m : dir_map_t) (roots : list string),
    map fst (fst (assemble todo m roots)) = map fst m.
Proof.
  induction todo as [|[key parent] todo IH]; intros m roots; cbn [assemble];
    [reflexivity|].
  destruct parent as [p|]; [|apply IH].
  destruct (truthy_str p && dict_mem m p); [|apply IH].
  rewrite IH. apply keys_append_child.
Qed.

(** The node under [q] after the loop: its children are extended by the
    nodes that attach to [q], in order. *)
Lemma assemble_children (todo : list (string * option string)) :
  forall (m : dir_map_t) (roots : list string) (q : string),
    dict_lookup (fst (assemble todo m roots)) q
    = match dict_lookup m q with
      | Some v => Some (children_extend v (map fst (filter (attaches_to m q) todo)))
      | None => None
      end.
Proof.
  induction todo as [|[key parent] todo IH]; intros m roots q; cbn [assemble].
  - cbn. destruct (dict_lookup m q); [|reflexivity].
    now rewrite children_extend_nil.
  - unfold attaches_to at 1. cbn [filter snd].
    destruct parent as [p|].
    + destruct (truthy_str p && dict_mem m p) eqn:E; cbn [andb].
      * rewrite IH, dict_lookup_append_child.
        rewrite (filter_ext (attaches_to (append_child m p key) q)
                            (attaches_to m q))
          by (intro kp; apply attaches_to_append_child).
        destruct (dict_lookup m q) as [v|]; [|reflexivity].
        rewrite (String.eqb_sym p q).
        destruct (q =? p); [|reflexivity].
        now rewrite children_extend_twice.
      * now rewrite IH.
    + now rewrite IH.
Qed.

(** On distinct identifiers the dict comprehension is a plain map. *)
Lemma dict_set_fresh (m : dir_map_t) (key : string) (node : DirectoryTree) :
  ~ In key (map fst m) -> dict_set m key node = m ++ [(key, node)].
Proof.
  induction m as [|[k v] m IH]; intro H; cbn; [reflexivity|].
  cbn in H. destruct (k =? key) eqn:E.
  - apply String.eqb_eq in E. tauto.
  - rewrite IH; [reflexivity | tauto].
Qed.

Lemma build_dir_map_from (all_dirs : list DirectoryResponse) :
  forall m : dir_map_t,
    NoDup (map fst m ++ map r_id all_dirs) ->
    fold_left (fun m d => dict_set m (r_id d) (new_node d)) all_dirs m
    = m ++ map (fun d => (r_id d, new_node d)) all_dirs.
Proof.
  induction all_dirs as [|d l IH]; intros m H; cbn.
  - now rewrite app_nil_r.
  - cbn in H. pose proof (NoDup_remove_2 _ _ _ H) as Hd.
    rewrite dict_set_fresh by (intro Hi; apply Hd; apply in_app_iff; now left).
    rewrite IH.
    + now rewrite <- app_assoc.
    + rewrite map_app. cbn. rewrite <- app_assoc. cbn.
      apply NoDup_remove_1 in H as H'.
      apply (Permutation_NoDup (l := r_id d :: map fst m ++ map r_id l)).
      * apply Permutation_middle.
      * constructor; assumption.
Qed.

Lemma build_dir_map_NoDup (all_dirs : list DirectoryResponse) :
  NoDup (map r_id all_dirs) ->
  build_dir_map all_dirs = map (fun d => (r_id d, new_node d)) all_dirs.
Proof.
  intro H. unfold build_dir_map. now rewrite build_dir_map_from.
Qed.

End TreeAssembly.

Section TreeView.
Import Directory.
Import DirectoryService.

Lemma NoDup_map_inj {A B : Type} (f : A -> B) (l : list A) (x y : A) :
  NoDup (map f l) -> In x l -> In y l -> f x = f y -> x = y.
Proof.
  induction l as [|a l IH]; intros Hnd Hx Hy He; [destruct Hx|].
  cbn in Hnd. inversion Hnd as [|? ? Ha Hnd']; subst.
  destruct Hx as [-> | Hx], Hy as [-> | Hy].
  - reflexivity.
  - exfalso. apply Ha. rewrite He. now apply in_map.
  - exfalso. apply Ha. rewrite <- He. now apply in_map.
  - now apply IH.
Qed.

Lemma dict_lookup_fresh_map (vis : list DirectoryResponse) (q : string) :
  dict_lookup (map (fun d => (r_id d, new_node d)) vis) q
  = option_map new_node (find (fun d => r_id d =? q) vis).
Proof.
  induction vis as [|d vis IH]; cbn; [reflexivity|].
  now destruct (r_id d =? q).
Qed.

Lemma dict_mem_fresh_map (vis : list DirectoryResponse) (q : string) :
  dict_mem (map (fun d => (r_id d, new_node d)) vis) q = true
  <-> In q (map r_id vis).
Proof.
  unfold dict_mem. rewrite dict_lookup_fresh_map.
  destruct (find _ vis) as [d|] eqn:E; cbn.
  - apply find_some in E. destruct E as [Hd He]. apply String.eqb_eq in He.
    split; [|reflexivity]. intros _. rewrite <- He. now apply in_map.
  - split; [discriminate|]. intro Hin. apply in_map_iff in Hin.
    destruct Hin as [d [He Hd]]. pose proof (find_none _ _ E d Hd) as Hn.
    cbn beta in Hn. rewrite He, String.eqb_refl in Hn. discriminate.
Qed.

Lemma in_selected_refs (vis : list DirectoryResponse)
      (f : string * option string -> bool) (d : DirectoryResponse) :
  NoDup (map r_id vis) -> In d vis ->
  (In (r_id d) (map fst (filter f (map todo_entry vis))) <-> f (todo_entry d) = true).
Proof.
  intros Hnd Hd. rewrite in_map_iff. split.
  - intros [kp [He Hkp]]. apply filter_In in Hkp. destruct Hkp as [Hkp Hf].
    apply in_map_iff in Hkp. destruct Hkp as [d' [<- Hd']].
    cbn in He. now rewrite <- (NoDup_map_inj r_id vis d' d Hnd Hd' Hd He).
  - intro Hf. exists (todo_entry d). split; [reflexivity|].
    apply filter_In. split; [now apply in_map | assumption].
Qed.

Lemma selected_refs_NoDup (vis : list DirectoryResponse)
      (f : string * option string -> bool) :
  NoDup (map r_id vis) -> NoDup (map fst (filter f (map todo_entry vis))).
Proof.
  intro Hnd. apply NoDup_map_filter. rewrite map_map. exact Hnd.
Qed.

Lemma selected_refs_visible (vis : list DirectoryResponse)
      (f : string * option string -> bool) (k : string) :
  In k (map fst (filter f (map todo_entry vis))) -> In k (map r_id vis).
Proof.
  intro H. apply in_map_iff in H. destruct H as [kp [<- Hkp]].
  apply filter_In in Hkp. destruct Hkp as [Hkp _].
  apply in_map_iff in Hkp. destruct Hkp as [d [<- Hd]]. cbn. now apply in_map.
Qed.

(** The tree builder on a list of directories with distinct identifiers. *)
Lemma get_directory_tree_unfold (st : db) (uid : string) (role : Role.UserRole) :
  let vis := get_user_directories st uid role in
  NoDup (map r_id vis) ->
  get_directory_tree st uid role
  = assemble (map todo_entry vis) (map (fun d => (r_id d, new_node d)) vis) [].
Proof.
  intros vis Hnd. unfold get_directory_tree. fold vis.
  rewrite (build_dir_map_NoDup vis Hnd). now rewrite map_map.
Qed.

Lemma get_user_directories_NoDup (st : db) (uid : string) (role : Role.UserRole) :
  unique_ids st ->
  NoDup (map r_id (get_user_directories st uid role)).
Proof.
  intro Huniq. destruct role;
    try (apply get_user_directories_spec; [discriminate | assumption]).
  unfold get_user_directories. cbn [Role.eqb]. now rewrite r_id_to_response.
Qed.

(** C6: on a store with distinct identifiers, the list the tree builder
    works from is, for a super-admin, every stored directory, and otherwise
    exactly the stored directories that the user owns, that are public or
    that hold a grant for the user (whatever its capabilities), each once.
    The nodes of the tree view are exactly these directories; a visible
    directory is a root exactly when it has no truthy [parent_id] naming a
    visible directory, and it is in the children list of the node [q]
    exactly when its [parent_id] is [q]; every reference among the roots and
    the children lists is a visible directory, and none occurs twice. *)
Theorem tree_view_of_visible_directories
        (st : db) (uid : string) (role : Role.UserRole) :
  unique_ids st ->
  let vis := get_user_directories st uid role in
  let m := fst (get_directory_tree st uid role) in
  let roots := snd (get_directory_tree st uid role) in
  (role = Role.SUPER_ADMIN -> vis = map to_response (directories_collection st))
  /\ (role <> Role.SUPER_ADMIN ->
      forall r, In r vis <->
                exists d, In d (directories_collection st) /\ visible st uid d
                          /\ r = to_response d)
  /\ NoDup (map r_id vis)
  /\ map fst m = map r_id vis
  /\ NoDup roots
  /\ (forall k, In k roots -> In k (map r_id vis))
  /\ (forall d, In d vis ->
        (In (r_id d) roots <->
         ~ exists p, r_parent_id d = Some p /\ truthy_str p = true
                     /\ In p (map r_id vis)))
  /\ (forall q, In q (map r_id vis) ->
        exists node,
          dict_lookup m q = Some node
          /\ t_id node = q
          /\ NoDup (children node)
          /\ (forall k, In k (children node) -> In k (map r_id vis))
          /\ forall d, In d vis ->
               (In (r_id d) (children node) <->
                r_parent_id d = Some q /\ truthy_str q = true)).
Proof.
  intros Huniq vis m roots.
  pose proof (get_user_directories_NoDup st uid role Huniq) as Hnd. fold vis in Hnd.
  pose proof (get_directory_tree_unfold st uid role Hnd) as Htree. fold vis in Htree.
  set (m0 := map (fun d => (r_id d, new_node d)) vis) in *.
  assert (Hroots : roots
                   = map fst (filter (fun kp => negb (attaches m0 kp))
                                     (map todo_entry vis))).
  { unfold roots. rewrite Htree. now rewrite assemble_roots. }
  assert (Hm : forall q, dict_lookup m q
               = match dict_lookup m0 q with
                 | Some v => Some (children_extend v
                               (map fst (filter (attaches_to m0 q) (map todo_entry vis))))
                 | None => None
                 end).
  { intro q. unfold m. rewrite Htree. apply assemble_children. }
  split; [|split; [|split; [|split; [|split; [|split; [|split]]]]]].
  - intros ->. reflexivity.
  - intro Hrole. now apply get_user_directories_spec.
  - exact Hnd.
  - unfold m. rewrite Htree, assemble_keys. unfold m0. now rewrite map_map.
  - rewrite Hroots. now apply selected_refs_NoDup.
  - intro k. rewrite Hroots. apply selected_refs_visible.
  - intros d Hd. rewrite Hroots.
    rewrite (in_selected_refs vis _ d Hnd Hd).
    unfold attaches, todo_entry. cbn [snd]. split.
    + intros Hn [p [Hp [Ht Hin]]]. rewrite Hp, Ht in Hn.
      apply dict_mem_fresh_map in Hin. fold m0 in Hin. rewrite Hin in Hn.
      discriminate.
    + intro Hn. destruct (r_parent_id d) as [p|]; [|reflexivity].
      destruct (truthy_str p && dict_mem m0 p) eqn:E; [|reflexivity].
      exfalso. apply Hn. exists p. apply andb_true_iff in E.
      destruct E as [Ht Hmem]. repeat split; [assumption|].
      now apply dict_mem_fresh_map.
  - intros q Hq.
    pose proof (proj2 (dict_mem_fresh_map vis q) Hq) as Hmem. fold m0 in Hmem.
    unfold dict_mem in Hmem.
    destruct (dict_lookup m0 q) as [v|] eqn:Ev; [|discriminate].
    exists (children_extend v (map fst (filter (attaches_to m0 q) (map todo_entry vis)))).
    assert (Hv : t_id v = q /\ children v = []).
    { unfold m0 in Ev. rewrite dict_lookup_fresh_map in Ev.
      destruct (find _ vis) as [d|] eqn:Ef; [|discriminate].
      injection Ev as <-. apply find_some in Ef. destruct Ef as [_ He].
      apply String.eqb_eq in He. now split. }
    destruct Hv as [Hid Hch].
    split; [now rewrite Hm, Ev|]. split; [exact Hid|].
    cbn [children_extend children]. rewrite Hch. cbn [app].
    split; [now apply selected_refs_NoDup|].
    split; [intro k; apply selected_refs_visible|].
    intros d Hd. rewrite (in_selected_refs vis _ d Hnd Hd).
    unfold attaches_to, todo_entry. cbn [snd]. split.
    + intro H. destruct (r_parent_id d) as [p|]; [|discriminate].
      apply andb_true_iff in H. destruct H as [H He].
      apply andb_true_iff in H. destruct H as [Ht _].
      apply String.eqb_eq in He. subst p. now split.
    + intros [Hp Ht]. rewrite Hp, Ht. cbn [andb].
      unfold dict_mem. rewrite Ev. cbn. apply String.eqb_refl.
Qed.

End TreeView.

Section TreeViewExamples.
Import Directory.
Import DirectoryService.

Lemma tree_db_unique_ids : unique_ids Examples.tree_db.
Proof.
  unfold unique_ids. cbn.
  repeat (constructor; [cbn; intuition discriminate|]). constructor.
Defined.

(** The tree of "u1": the public a and the granted c are roots, the owned e
    hangs under c, and b, which "u1" cannot see, is not a node. *)
Example tree_db_view :
  map r_id (get_user_directories Examples.tree_db "u1" Role.USER) = ["e"; "a"; "c"]
  /\ snd (get_directory_tree Examples.tree_db "u1" Role.USER) = ["a"; "c"]
  /\ option_map children
       (dict_lookup (fst (get_directory_tree Examples.tree_db "u1" Role.USER)) "c")
     = Some ["e"]
  /\ dict_lookup (fst (get_directory_tree Examples.tree_db "u1" Role.USER)) "b"
     = None.
Proof. repeat split. Qed.

Lemma tree_view_of_visible_directories_witness :
  NoDup (snd (get_directory_tree Examples.tree_db "u1" Role.USER))
  /\ map fst (fst (get_directory_tree Examples.tree_db "u1" Role.USER))
     = map r_id (get_user_directories Examples.tree_db "u1" Role.USER).
Proof.
  destruct (tree_view_of_visible_directories Examples.tree_db "u1" Role.USER
              tree_db_unique_ids)
    as [_ [_ [_ [Hkeys [Hroots _]]]]].
  split; [exact Hroots | exact Hkeys].
Defined.

End TreeViewExamples.

Section DirectoryFetch.
Import Permission.

Lemma find_permission_granted (ps : list doc) (uid dir_id : string) (g : doc)
      (d : Directory.doc) :
  find_permission ps uid dir_id = Some g ->
  Directory._id d = dir_id ->
  granted ps uid d.
Proof.
  unfold find_permission. intros Hf Hd. apply find_some in Hf.
  destruct Hf as [Hin Hb]. apply andb_true_iff in Hb. destruct Hb as [Hu Hdir].
  apply String.eqb_eq in Hu, Hdir. exists g. repeat split; congruence.
Qed.

(** C10: for a user who is neither super-admin nor owner of the stored,
    non-public directory D, the fetch returns as soon as the fuel exceeds
    the length of D's ancestor chain, and it returns D exactly when the
    first grant found on D followed by its chain contains read; otherwise
    it raises 403.  In particular a user whose grant on D is exactly write
    is refused by [can_access_directory] and by the endpoint, although D is
    in the list the user's tree is built from. *)
Theorem fetch_requires_read_in_nearest_grant
        (st : db) (U : User.UserResponse) (directory_id : string)
        (D : Directory.doc) (chain : list string) (e : chain_end) (fuel : nat) :
  find_directory (directories_collection st) directory_id = Some D ->
  User.r_role U <> Role.SUPER_ADMIN ->
  Directory.is_public D = false ->
  Directory.owner_id D <> User.id U ->
  ancestor_chain (directories_collection st) D chain e ->
  List.length chain < fuel ->
  DirectoriesApi.get_directory fuel st directory_id U
  = Some match first_grant (permissions_collection st) (User.id U)
                           (directory_id :: chain) with
         | Some g =>
           if str_in "read" (Permission.permissions g)
           then Return (DirectoryService.to_response D)
           else Raise (HTTPException HTTP_403_FORBIDDEN "No access to this directory")
         | None =>
           Raise (HTTPException HTTP_403_FORBIDDEN "No access to this directory")
         end
  /\ (forall g : doc,
         find_permission (permissions_collection st) (User.id U) directory_id = Some g ->
         (forall c, In c (Permission.permissions g) <-> c = "write") ->
         PermissionService.can_access_directory fuel st (User.id U) directory_id
         = Some false
         /\ DirectoriesApi.get_directory fuel st directory_id U
            = Some (Raise (HTTPException HTTP_403_FORBIDDEN
                                         "No access to this directory"))
         /\ (unique_ids st ->
             In directory_id
                (map Directory.r_id
                     (DirectoryService.get_user_directories
                        st (User.id U) (User.r_role U))))).
Proof.
  intros Hfind Hrole Hpriv Hown Hchain Hfuel.
  assert (Hacc : PermissionService.can_access_directory fuel st (User.id U) directory_id
                 = Some match first_grant (permissions_collection st) (User.id U)
                                          (directory_id :: chain) with
                        | Some g => str_in "read" (Permission.permissions g)
                        | None => false
                        end).
  { unfold PermissionService.can_access_directory. rewrite Hfind.
    destruct (Directory.owner_id D =? User.id U) eqn:E.
    { apply String.eqb_eq in E. contradiction. }
    apply (check_permission_non_owner _ _ _ _ _ _ READ _ Hfind Hown Hchain Hfuel). }
  assert (Hget : DirectoriesApi.get_directory fuel st directory_id U
                 = match PermissionService.can_access_directory
                           fuel st (User.id U) directory_id with
                   | Some can_access =>
                     if negb can_access
                     then Some (Raise (HTTPException HTTP_403_FORBIDDEN
                                                     "No access to this directory"))
                     else Some (Return (DirectoryService.to_response D))
                   | None => None
                   end).
  { unfold DirectoriesApi.get_directory, DirectoryService.get_directory.
    rewrite Hfind. cbn [DirectoryService.to_response Directory.r_is_public
                        Directory.r_owner_id].
    rewrite Hpriv.
    destruct (Role.eqb (User.r_role U) Role.SUPER_ADMIN) eqn:Er.
    { destruct (User.r_role U); try discriminate. now elim Hrole. }
    destruct (Directory.owner_id D =? User.id U) eqn:E; [|reflexivity].
    apply String.eqb_eq in E. contradiction. }
  split.
  - rewrite Hget, Hacc.
    destruct (first_grant _ _ _) as [g|]; [|reflexivity].
    now destruct (str_in "read" (Permission.permissions g)).
  - intros g Hg Hwrite.
    assert (Hfalse : PermissionService.can_access_directory
                       fuel st (User.id U) directory_id = Some false).
    { rewrite Hacc. cbn [first_grant]. rewrite Hg. f_equal.
      apply str_in_false. intro Hin. apply Hwrite in Hin. discriminate. }
    split; [exact Hfalse|]. split; [now rewrite Hget, Hfalse|].
    intro Huniq.
    destruct (get_user_directories_spec st (User.id U) (User.r_role U) Hrole Huniq)
      as [Hspec _].
    apply in_map_iff. exists (DirectoryService.to_response D). split.
    + cbn. now apply find_directory_id with (directories_collection st).
    + apply Hspec. exists D. split; [now apply find_directory_In with directory_id|].
      split; [|reflexivity]. right; right.
      apply (find_permission_granted _ _ _ _ _ Hg).
      now apply find_directory_id with (directories_collection st).
Qed.

Lemma fetch_requires_read_in_nearest_grant_witness :
  PermissionService.can_access_directory 1 Examples.write_only_db "guest" "box"
  = Some false
  /\ DirectoriesApi.get_directory 1 Examples.write_only_db "box"
                                  (Examples.user_of "guest" Role.USER)
     = Some (Raise (HTTPException HTTP_403_FORBIDDEN "No access to this directory")).
Proof.
  destruct (fetch_requires_read_in_nearest_grant Examples.write_only_db
              (Examples.user_of "guest" Role.USER) "box"
              (Examples.dir_of "box" "alice" None false) [] AtRoot 1 eq_refl)
    as [_ Hw].
  - discriminate.
  - reflexivity.
  - discriminate.
  - now apply chain_root.
  - cbn. lia.
  - destruct (Hw (Examples.grant_of 0 "guest" "box" ["write"]) eq_refl)
      as [Hacc [Hget _]].
    + intro c. cbn. split.
      * intros [H | []]. now symmetry.
      * intros ->. now left.
    + split; [exact Hacc | exact Hget].
Defined.

End DirectoryFetch.

Section GrantUpsert.
Import Permission.
Import PermissionService.

(** On distinct identifiers [update_one] rewrites exactly the documents
    with the given [_id]. *)
Lemma update_one_map (ps : list doc) (id : nat) (v : list string) :
  NoDup (map _id ps) ->
  update_one ps id v
  = map (fun p => if (_id p =? id)%nat then with_permissions v p else p) ps.
Proof.
  induction ps as [|p ps IH]; intro Hnd; cbn; [reflexivity|].
  cbn in Hnd. inversion Hnd as [|? ? Hp Hnd']; subst.
  destruct (_id p =? id)%nat eqn:E.
  - f_equal. apply Nat.eqb_eq in E. subst id.
    rewrite <- (map_id ps) at 1. apply map_ext_in.
    intros q Hq. destruct (_id q =? _id p)%nat eqn:Eq; [|reflexivity].
    apply Nat.eqb_eq in Eq. exfalso. apply Hp. rewrite <- Eq. now apply in_map.
  - f_equal. now apply IH.
Qed.

Lemma filter_same_pair_map (u d : string) (f : doc -> doc) (ps : list doc) :
  (forall p, user_id (f p) = user_id p /\ directory_id (f p) = directory_id p) ->
  filter (same_pair u d) (map f ps) = map f (filter (same_pair u d) ps).
Proof.
  intro Hf. induction ps as [|p ps IH]; cbn [map filter]; [reflexivity|].
  assert (He : same_pair u d (f p) = same_pair u d p).
  { unfold same_pair. now destruct (Hf p) as [-> ->]. }
  rewrite He. destruct (same_pair u d p); cbn [map]; now rewrite IH.
Qed.

(** A successful lookup on a well-formed collection names the whole
    content of the pair. *)
Lemma find_permission_filter (ps : list doc) (u d : string) (g : doc) :
  List.length (filter (same_pair u d) ps) <= 1 ->
  find_permission ps u d = Some g ->
  filter (same_pair u d) ps = [g].
Proof.
  unfold find_permission. fold (same_pair u d).
  induction ps as [|p ps IH]; intros Hlen Hf; [discriminate|].
  cbn in Hf, Hlen |- *. destruct (same_pair u d p) eqn:E.
  - injection Hf as <-. cbn in Hlen.
    destruct (filter (same_pair u d) ps); [reflexivity | cbn in Hlen; lia].
  - now apply IH.
Qed.

Lemma find_permission_none_filter (ps : list doc) (u d : string) :
  find_permission ps u d = None -> filter (same_pair u d) ps = [].
Proof.
  unfold find_permission. fold (same_pair u d).
  induction ps as [|p ps IH]; intro Hf; [reflexivity|].
  cbn in Hf |- *. destruct (same_pair u d p); [discriminate | now apply IH].
Qed.

Lemma same_pair_eq (u d u' d' : string) (p : doc) :
  same_pair u d p = true -> same_pair u' d' p = true ->
  (u =? u') && (d =? d') = true.
Proof.
  unfold same_pair. intros H H'.
  apply andb_true_iff in H, H'. destruct H as [Hu Hd], H' as [Hu' Hd'].
  apply String.eqb_eq in Hu, Hd, Hu', Hd'. subst.
  now rewrite !String.eqb_refl.
Qed.

Lemma find_by_id_some (ps : list doc) (p : doc) :
  In p ps -> find (fun q => (_id q =? _id p)%nat) ps <> None.
Proof.
  intros Hin Hn. pose proof (find_none _ _ Hn p Hin) as H. cbn beta in H.
  rewrite Nat.eqb_refl in H. discriminate.
Qed.

(** What one call does to a well-formed store.  A call that raises leaves
    the database as it was.  A call that returns addressed the pair
    (grantee, directory): afterwards that pair holds one document whose list
    is the requested one, every other pair is untouched, and a pair that
    had a document keeps the same document ([_id]). *)
Lemma grant_permission_step (now : nat) (st : db) (data : PermissionGrant)
      (directory_id granted_by : string) :
  grants_wf st ->
  let out := grant_permission now st data directory_id granted_by in
  grants_wf (snd out)
  /\ users_collection (snd out) = users_collection st
  /\ directories_collection (snd out) = directories_collection st
  /\ match fst out with
     | Raise _ => snd out = st
     | Return _ =>
       exists uid,
         grantee st data = Some uid
         /\ (forall u d,
                map Permission.permissions
                    (filter (same_pair u d) (permissions_collection (snd out)))
                = if (uid =? u) && (directory_id =? d)
                  then [map value (grant_permissions data)]
                  else map Permission.permissions
                           (filter (same_pair u d) (permissions_collection st)))
         /\ (forall u d,
                filter (same_pair u d) (permissions_collection st) <> [] ->
                map _id (filter (same_pair u d) (permissions_collection (snd out)))
                = map _id (filter (same_pair u d) (permissions_collection st)))
     end.
Proof.
  intros Hwf. destruct Hwf as [Hnd [Hlt Hone]]. cbn zeta.
  unfold grant_permission, grantee.
  destruct (find_directory (directories_collection st) directory_id) as [dir|];
    [|cbn; repeat split; assumption].
  destruct (negb (Directory.owner_id dir =? granted_by));
    [cbn; repeat split; assumption|].
  destruct (find _ (users_collection st)) as [user|];
    [|cbn; repeat split; assumption].
  destruct (User._id user =? granted_by);
    [cbn; repeat split; assumption|].
  set (uid := User._id user). set (values := map value (grant_permissions data)).
  destruct (find_permission (permissions_collection st) uid directory_id)
    as [existing|] eqn:Hfind.
  - (* update in place *)
    pose proof (find_permission_filter _ _ _ _ (Hone uid directory_id) Hfind) as Hpair.
    assert (Hex : In existing (permissions_collection st)).
    { unfold find_permission in Hfind. now apply find_some in Hfind. }
    set (upd := fun p => if (_id p =? _id existing)%nat
                         then with_permissions values p else p).
    assert (Hupd : update_one (permissions_collection st) (_id existing) values
                   = map upd (permissions_collection st))
      by now apply update_one_map.
    assert (Hkeep : forall p, user_id (upd p) = user_id p
                              /\ Permission.directory_id (upd p)
                                 = Permission.directory_id p
                              /\ _id (upd p) = _id p).
    { intro p. unfold upd. now destruct (_id p =? _id existing)%nat. }
    assert (Hids : map _id (map upd (permissions_collection st))
                   = map _id (permissions_collection st)).
    { rewrite map_map. apply map_ext. intro p. apply Hkeep. }
    assert (Hfilter : forall u d,
               filter (same_pair u d) (map upd (permissions_collection st))
               = map upd (filter (same_pair u d) (permissions_collection st))).
    { intros u d. apply filter_same_pair_map. intro p.
      destruct (Hkeep p) as [? [? ?]]. now split. }
    cbn [snd fst set_permissions permissions_collection users_collection
             directories_collection next_oid].
    rewrite Hupd.
    destruct (find _ (map upd (permissions_collection st))) as [perm|] eqn:Hperm.
    2:{ exfalso.
        apply (find_by_id_some (map upd (permissions_collection st)) (upd existing)).
        - now apply in_map.
        - destruct (Hkeep existing) as [_ [_ ->]]. exact Hperm. }
    cbn [snd fst permissions_collection users_collection directories_collection
             next_oid].
    split; [|split; [reflexivity | split; [reflexivity|]]].
    + repeat split.
      * cbn. now rewrite Hids.
      * cbn. intros p Hp. apply in_map_iff in Hp. destruct Hp as [q [<- Hq]].
        destruct (Hkeep q) as [_ [_ ->]]. now apply Hlt.
      * cbn. intros u d. rewrite Hfilter, length_map. apply Hone.
    + exists uid. split; [reflexivity|]. split.
      * intros u d. rewrite Hfilter.
        destruct ((uid =? u) && (directory_id =? d)) eqn:E.
        -- apply andb_true_iff in E. destruct E as [Eu Ed].
           apply String.eqb_eq in Eu, Ed. subst u d.
           rewrite Hpair. cbn. unfold upd. now rewrite Nat.eqb_refl.
        -- rewrite map_map. apply map_ext_in. intros p Hp.
           apply filter_In in Hp. destruct Hp as [Hp Hsame].
           unfold upd. destruct (_id p =? _id existing)%nat eqn:Eid; [|reflexivity].
           apply Nat.eqb_eq in Eid.
           rewrite (NoDup_map_inj _id _ p existing Hnd Hp Hex Eid) in Hsame.
           assert (Hsame' : same_pair uid directory_id existing = true).
           { assert (Hin : In existing [existing]) by now left.
             rewrite <- Hpair in Hin. now apply filter_In in Hin. }
           rewrite (same_pair_eq _ _ _ _ _ Hsame' Hsame) in E. discriminate.
      * intros u d _. rewrite Hfilter, map_map. apply map_ext.
        intro p. apply Hkeep.
  - (* insert *)
    pose proof (find_permission_none_filter _ _ _ Hfind) as Hpair.
    set (perm_doc := mkDoc (next_oid st) uid directory_id values granted_by now).
    cbn [snd fst set_permissions permissions_collection users_collection
             directories_collection next_oid _id].
    destruct (find _ (permissions_collection st ++ [perm_doc])) as [perm|] eqn:Hperm.
    2:{ exfalso.
        apply (find_by_id_some (permissions_collection st ++ [perm_doc]) perm_doc).
        - apply in_app_iff. right. now left.
        - exact Hperm. }
    cbn [snd fst permissions_collection users_collection directories_collection
             next_oid].
    assert (Hnew : forall u d,
               filter (same_pair u d) (permissions_collection st ++ [perm_doc])
               = filter (same_pair u d) (permissions_collection st)
                 ++ if (uid =? u) && (directory_id =? d) then [perm_doc] else []).
    { intros u d. rewrite filter_app. reflexivity. }
    split; [|split; [reflexivity | split; [reflexivity|]]].
    + repeat split.
      * cbn. rewrite map_app. cbn. apply NoDup_app; [assumption | |].
        -- constructor; [intros [] | constructor].
        -- intros i Hi [<- | []]. apply in_map_iff in Hi.
           destruct Hi as [p [He Hp]]. apply Hlt in Hp. lia.
      * cbn. intros p Hp. apply in_app_iff in Hp.
        destruct Hp as [Hp | [<- | []]]; [apply Hlt in Hp; lia | cbn; lia].
      * cbn. intros u d. rewrite Hnew, length_app.
        destruct ((uid =? u) && (directory_id =? d)) eqn:E.
        -- apply andb_true_iff in E. destruct E as [Eu Ed].
           apply String.eqb_eq in Eu, Ed. subst u d. rewrite Hpair. cbn. lia.
        -- cbn. pose proof (Hone u d). lia.
    + exists uid. split; [reflexivity|]. split.
      * intros u d. rewrite Hnew.
        destruct ((uid =? u) && (directory_id =? d)) eqn:E.
        -- apply andb_true_iff in E. destruct E as [Eu Ed].
           apply String.eqb_eq in Eu, Ed. subst u d. now rewrite Hpair.
        -- now rewrite app_nil_r.
      * intros u d Hne. rewrite Hnew.
        destruct ((uid =? u) && (directory_id =? d)) eqn:E.
        -- apply andb_true_iff in E. destruct E as [Eu Ed].
           apply String.eqb_eq in Eu, Ed. subst u d. contradiction.
        -- now rewrite app_nil_r.
Qed.

End GrantUpsert.

Section GrantSequences.
Import Permission.

(** C7: starting from a well-formed grant collection (in particular an
    empty one), after any sequence of [grant_permission] calls the
    collection is well formed, so every (grantee, directory) pair has at
    most one document; the list of that document is the one of the most
    recent call that returned for the pair (neither appended to nor united
    with the earlier one), a pair no call returned for is as before, and a
    pair that had a document keeps that same document. *)
Theorem grant_upsert (calls : list grant_call) :
  forall st0 : db,
    grants_wf st0 ->
    let st := run_grants st0 calls in
    grants_wf st
    /\ (forall u d,
           List.length (filter (same_pair u d) (permissions_collection st)) <= 1)
    /\ (forall u d,
           map Permission.permissions
               (filter (same_pair u d) (permissions_collection st))
           = match most_recent_grant st0 calls u d with
             | Some caps => [caps]
             | None => map Permission.permissions
                           (filter (same_pair u d) (permissions_collection st0))
             end)
    /\ (forall u d,
           filter (same_pair u d) (permissions_collection st0) <> [] ->
           map _id (filter (same_pair u d) (permissions_collection st))
           = map _id (filter (same_pair u d) (permissions_collection st0))).
Proof.
  induction calls as [|c calls IH]; intros st0 Hwf; cbn zeta.
  - cbn. repeat split; try apply Hwf.
  - cbn [run_grants most_recent_grant].
    pose proof (grant_permission_step (call_now c) st0 (call_data c)
                  (call_directory_id c) (call_granted_by c) Hwf) as Hstep.
    cbn zeta in Hstep. fold (grant st0 c) in Hstep.
    destruct Hstep as [Hwf1 [_ [_ Hres]]].
    destruct (IH (snd (grant st0 c)) Hwf1) as [Hwf' [Hone [Hcaps Hkeep]]].
    split; [exact Hwf' | split; [exact Hone | split]].
    + intros u d. rewrite Hcaps.
      destruct (most_recent_grant (snd (grant st0 c)) calls u d); [reflexivity|].
      destruct (fst (grant st0 c)).
      * destruct Hres as [uid [-> [HA _]]]. rewrite HA.
        now destruct ((uid =? u) && (call_directory_id c =? d)).
      * now rewrite Hres.
    + intros u d Hne.
      assert (Hsame : map _id (filter (same_pair u d)
                                      (permissions_collection (snd (grant st0 c))))
                      = map _id (filter (same_pair u d) (permissions_collection st0))).
      { destruct (fst (grant st0 c)).
        - destruct Hres as [uid [_ [_ HB]]]. now apply HB.
        - now rewrite Hres. }
      rewrite <- Hsame. apply Hkeep. intro Hnil. rewrite Hnil in Hsame.
      destruct (filter (same_pair u d) (permissions_collection st0));
        [now apply Hne | discriminate].
Qed.

Lemma grant_db_wf : grants_wf Examples.grant_db.
Proof.
  repeat split; cbn.
  - constructor.
  - intros p [].
  - intros u d. lia.
Defined.

(** Granting read and then write leaves one document, with write only. *)
Example read_then_write_collection :
  permissions_collection (run_grants Examples.grant_db Examples.read_then_write)
  = [ mkDoc 0 "guest" "box" ["write"] "alice" 10 ].
Proof. reflexivity. Qed.

Lemma grant_upsert_witness :
  map Permission.permissions
      (filter (same_pair "guest" "box")
              (permissions_collection
                 (run_grants Examples.grant_db Examples.read_then_write)))
  = [["write"]].
Proof.
  exact (proj1 (proj2 (proj2 (grant_upsert Examples.read_then_write
                                           Examples.grant_db grant_db_wf)))
               "guest" "box").
Defined.

End GrantSequences.

Section CascadeDelete.
Import DirectoryService.

(** The traversal collects identifiers of stored directories only. *)
Lemma descendants_loop_stored (fuel : nat) (ds : list Directory.doc) :
  forall (queue result out : list string),
    descendants_loop fuel ds queue result = Some out ->
    forall x, In x out -> In x result \/ In x (map Directory._id ds).
Proof.
  induction fuel as [|fuel IH]; intros queue result out H x Hx; [discriminate|].
  cbn [descendants_loop] in H. destruct queue as [|p queue].
  - injection H as <-. now left.
  - destruct (IH _ _ _ H x Hx) as [Hr | Hs]; [|now right].
    apply in_app_iff in Hr. destruct Hr as [Hr | Hr]; [now left|].
    right. apply in_map_iff in Hr. destruct Hr as [d [<- Hd]].
    apply in_map. unfold children_of in Hd. now apply filter_In in Hd.
Qed.

(** C9: a cascade delete of a stored directory by its owner or a
    super-admin, once the plan is computed, returns true after issuing
    exactly three writes over the same identifier list (the target followed
    by the descendants): the files, then the grants, then the directories.
    In the database before the writes and after each of them, no file and no
    grant refers to an identifier of the plan whose directory is gone. *)
Theorem cascade_delete_order
        (fuel : nat) (st : db) (directory_id user_id : string)
        (user_role : Role.UserRole) (D : Directory.doc)
        (descendant_ids : list string) :
  find_directory (directories_collection st) directory_id = Some D ->
  Directory.owner_id D = user_id \/ user_role = Role.SUPER_ADMIN ->
  _get_descendant_ids fuel st directory_id = Some descendant_ids ->
  let all_ids := directory_id :: descendant_ids in
  let writes := [ files_delete_many all_ids;
                  permissions_delete_many all_ids;
                  directories_delete_many all_ids ] in
  delete_directory fuel st directory_id user_id user_role true
  = Some (Return true, writes)
  /\ forall st', In st' (st :: run st writes) ->
                 forall x, In x all_ids -> ~ orphaned_reference st' x.
Proof.
  intros Hfind Hauth Hplan all_ids writes. split.
  - unfold delete_directory. rewrite Hfind.
    assert (Hno : negb (Directory.owner_id D =? user_id)
                  && negb (Role.eqb user_role Role.SUPER_ADMIN) = false).
    { destruct Hauth as [-> | ->]; [now rewrite String.eqb_refl|].
      apply andb_false_r. }
    rewrite Hno, Hplan.
    destruct (children_of (directories_collection st) directory_id);
      now destruct (find _ (files_collection st)).
  - assert (Hstored : forall x, In x all_ids ->
                                In x (map Directory._id (directories_collection st))).
    { intros x [<- | Hx].
      - rewrite <- (find_directory_id _ _ _ Hfind). apply in_map.
        now apply find_directory_In with directory_id.
      - destruct (descendants_loop_stored _ _ _ _ _ Hplan x Hx) as [[] | H].
        exact H. }
    intros st' Hst' x Hx [Hgone Href].
    cbn [run writes] in Hst'.
    destruct Hst' as [<- | [<- | [<- | [<- | []]]]].
    + apply Hgone. now apply Hstored.
    + apply Hgone. cbn. now apply Hstored.
    + apply Hgone. cbn. now apply Hstored.
    + cbn [apply_write files_collection permissions_collection] in Href.
      destruct Href as [[f [Hf He]] | [p [Hp He]]].
      * apply filter_In in Hf. destruct Hf as [_ Hf].
        rewrite He in Hf. apply negb_true_iff in Hf.
        apply str_in_false in Hf. now apply Hf.
      * apply filter_In in Hp. destruct Hp as [_ Hp].
        rewrite He in Hp. apply negb_true_iff in Hp.
        apply str_in_false in Hp. now apply Hp.
Qed.

(** The three-level chain: the plan is the three identifiers, and after the
    cascade no directory, file or grant of the chain is left. *)
Example cascade_db_delete :
  _get_descendant_ids 4 Examples.cascade_db "root" = Some ["mid"; "leaf"]
  /\ map (fun st => (map Directory._id (directories_collection st),
                     map File.directory_id (files_collection st),
                     map Permission.directory_id (permissions_collection st)))
         (run Examples.cascade_db
              [ files_delete_many ["root"; "mid"; "leaf"];
                permissions_delete_many ["root"; "mid"; "leaf"];
                directories_delete_many ["root"; "mid"; "leaf"] ])
     = [ (["root"; "mid"; "leaf"; "other"], ["other"],
          ["root"; "mid"; "leaf"; "other"]);
         (["root"; "mid"; "leaf"; "other"], ["other"], ["other"]);
         (["other"], ["other"], ["other"]) ].
Proof. split; reflexivity. Qed.

Lemma cascade_delete_order_witness :
  delete_directory 4 Examples.cascade_db "root" "owner" Role.USER true
  = Some (Return true,
          [ files_delete_many ["root"; "mid"; "leaf"];
            permissions_delete_many ["root"; "mid"; "leaf"];
            directories_delete_many ["root"; "mid"; "leaf"] ]).
Proof.
  exact (proj1 (cascade_delete_order 4 Examples.cascade_db "root" "owner" Role.USER
                  (Examples.dir_of "root" "owner" None false) ["mid"; "leaf"]
                  eq_refl (or_introl eq_refl) eq_refl)).
Defined.

End CascadeDelete.

Section DescendantEnumeration.
Import DirectoryService.

(** On the two directories that name each other as parent the queue never
    empties. *)
Lemma cyclic_queue_never_empties (fuel : nat) :
  forall queue result : list string,
    queue <> [] ->
    (forall x, In x queue -> x = "a" \/ x = "b") ->
    descendants_loop fuel (directories_collection Examples.cyclic_db) queue result
    = None.
Proof.
  induction fuel as [|fuel IH]; intros queue result Hne Hab; [reflexivity|].
  destruct queue as [|p queue]; [now elim Hne|].
  cbn [descendants_loop]. apply IH.
  - destruct (Hab p (or_introl eq_refl)) as [-> | ->];
      cbn; now destruct queue.
  - intros x Hx. apply in_app_iff in Hx. destruct Hx as [Hx | Hx].
    + apply Hab. now right.
    + destruct (Hab p (or_introl eq_refl)) as [-> | ->];
        cbn in Hx; destruct Hx as [<- | []]; tauto.
Qed.

(** C5, as stated, fails: the loop has no guard against revisiting.  When
    "a" and "b" name each other as parent, the enumeration from "a" returns
    with no amount of fuel. *)
Lemma cycle_is_not_guarded :
  ~ exists fuel out,
      _get_descendant_ids fuel Examples.cyclic_db "a" = Some out.
Proof.
  intros [fuel [out H]]. unfold _get_descendant_ids in H.
  rewrite cyclic_queue_never_empties in H; [discriminate | discriminate |].
  intros x [<- | []]. now left.
Qed.

(** Four iterations on the cycle: "b" and "a" have each been collected
    twice and the queue is as it was after two. *)
Example cycle_collects_twice :
  forall rest,
    descendants_loop (4 + rest) (directories_collection Examples.cyclic_db) ["a"] []
    = descendants_loop rest (directories_collection Examples.cyclic_db)
                       ["a"] ["b"; "a"; "b"; "a"].
Proof. reflexivity. Qed.

(** *** The loop proceeds level by level *)

(** Consuming a prefix of the queue appends its children, in order, to the
    queue and to the result. *)
Lemma loop_consumes_prefix (ds : list Directory.doc) (q1 : list string) :
  forall (q2 result : list string) (fuel : nat),
    descendants_loop (List.length q1 + fuel) ds (q1 ++ q2) result
    = descendants_loop fuel ds (q2 ++ next_level ds q1)
                       (result ++ next_level ds q1).
Proof.
  induction q1 as [|p q1 IH]; intros q2 result fuel.
  - cbn. now rewrite !app_nil_r.
  - cbn [List.length Nat.add app descendants_loop].
    fold (child_ids ds p). rewrite <- app_assoc, IH.
    cbn [next_level flat_map]. now rewrite <- !app_assoc.
Qed.

(** When the [n]-th level is empty the loop returns the levels before it. *)
Lemma loop_returns_levels (ds : list Directory.doc) (n : nat) :
  forall (queue result : list string) (extra : nat),
    level ds n queue = [] ->
    descendants_loop (iterations ds n queue + S extra) ds queue result
    = Some (result ++ collected ds n queue).
Proof.
  induction n as [|n IH]; intros queue result extra Hn.
  - cbn in Hn. subst queue. cbn. now rewrite app_nil_r.
  - cbn [iterations collected]. rewrite <- Nat.add_assoc.
    pose proof (loop_consumes_prefix ds queue [] result
                  (iterations ds n (next_level ds queue) + S extra)) as Hlevel.
    rewrite app_nil_r in Hlevel. rewrite Hlevel. cbn [app]. rewrite IH.
    + now rewrite app_assoc.
    + unfold level in *. now rewrite <- Nat.iter_succ_r.
Qed.

Lemma level_succ_r (ds : list Directory.doc) (k : nat) (queue : list string) :
  level ds (S k) queue = level ds k (next_level ds queue).
Proof. unfold level. apply Nat.iter_succ_r. Qed.

(** The result lists the levels by increasing depth. *)
Lemma collected_levels (ds : list Directory.doc) (n : nat) :
  forall queue : list string,
    collected ds n queue
    = List.concat (map (fun k => level ds (S k) queue) (seq 0 n)).
Proof.
  induction n as [|n IH]; intro queue; [reflexivity|].
  cbn [collected seq map List.concat]. rewrite IH. f_equal.
  rewrite <- seq_shift, map_map. f_equal. apply map_ext.
  intro k. now rewrite (level_succ_r ds (S k)).
Qed.

(** *** Counting occurrences on distinct identifiers *)

(** A selection of the stored directories holds an identifier once if its
    document is selected and not at all otherwise. *)
Lemma count_selected_ids (ds : list Directory.doc)
      (f : Directory.doc -> bool) (x : string) :
  NoDup (map Directory._id ds) ->
  count_occ string_dec (map Directory._id (filter f ds)) x
  = match find_directory ds x with
    | Some d => if f d then 1 else 0
    | None => 0
    end.
Proof.
  unfold find_directory.
  induction ds as [|d ds IH]; intro Hnd; [reflexivity|].
  cbn in Hnd. inversion Hnd as [|? ? Hd Hnd']; subst.
  cbn [find filter]. destruct (Directory._id d =? x) eqn:E.
  - apply String.eqb_eq in E. subst x.
    assert (Hrest : count_occ string_dec (map Directory._id (filter f ds))
                              (Directory._id d) = 0).
    { apply count_occ_not_In. intro Hin. apply Hd.
      apply in_map_iff in Hin. destruct Hin as [d' [He Hin]].
      apply filter_In in Hin. rewrite <- He. apply in_map. tauto. }
    destruct (f d); [|assumption].
    cbn [map]. rewrite count_occ_cons_eq by reflexivity. now rewrite Hrest.
  - apply String.eqb_neq in E.
    destruct (f d); [|now apply IH].
    cbn [map]. rewrite count_occ_cons_neq by assumption. now apply IH.
Qed.

Lemma count_child_ids (ds : list Directory.doc) (p x : string) :
  NoDup (map Directory._id ds) ->
  count_occ string_dec (child_ids ds p) x
  = match parent_id_of ds x with
    | Some q => if q =? p then 1 else 0
    | None => 0
    end.
Proof.
  intro Hnd. unfold child_ids, children_of, parent_id_of.
  rewrite count_selected_ids by assumption.
  destruct (find_directory ds x) as [d|]; [|reflexivity].
  destruct (Directory.parent_id d); reflexivity.
Qed.

(** An identifier occurs in the next level as often as its parent occurs in
    the queue. *)
Lemma count_next_level (ds : list Directory.doc) (queue : list string) (x : string) :
  NoDup (map Directory._id ds) ->
  count_occ string_dec (next_level ds queue) x
  = match parent_id_of ds x with
    | Some p => count_occ string_dec queue p
    | None => 0
    end.
Proof.
  intro Hnd. induction queue as [|p0 queue IH].
  - cbn. now destruct (parent_id_of ds x).
  - cbn [next_level flat_map]. rewrite count_occ_app.
    fold (next_level ds queue). rewrite IH, count_child_ids by assumption.
    destruct (parent_id_of ds x) as [q|]; [|reflexivity].
    destruct (q =? p0) eqn:E.
    + apply String.eqb_eq in E. subst q.
      now rewrite count_occ_cons_eq by reflexivity.
    + apply String.eqb_neq in E.
      rewrite count_occ_cons_neq; [reflexivity | congruence].
Qed.

(** An identifier occurs in the [k]-th level as often as its [k]-th
    ancestor occurs in the queue. *)
Lemma count_level (ds : list Directory.doc) (k : nat) :
  NoDup (map Directory._id ds) ->
  forall (queue : list string) (x : string),
    count_occ string_dec (level ds k queue) x
    = match ancestor ds k x with
      | Some y => count_occ string_dec queue y
      | None => 0
      end.
Proof.
  intro Hnd. induction k as [|k IH]; intros queue x; [reflexivity|].
  change (level ds (S k) queue) with (next_level ds (level ds k queue)).
  rewrite count_next_level by assumption. cbn [ancestor].
  destruct (parent_id_of ds x) as [p|]; [apply IH | reflexivity].
Qed.

Lemma in_level_single (ds : list Directory.doc) (k : nat) (a x : string) :
  NoDup (map Directory._id ds) ->
  In x (level ds k [a]) <-> ancestor ds k x = Some a.
Proof.
  intro Hnd. rewrite (count_occ_In string_dec), count_level by assumption.
  destruct (ancestor ds k x) as [y|]; [|split; [lia | discriminate]].
  cbn. destruct (string_dec a y) as [-> | Hne].
  - split; [reflexivity | lia].
  - split; [lia | intro H; injection H as ->; now elim Hne].
Qed.

Lemma level_single_NoDup (ds : list Directory.doc) (k : nat) (a : string) :
  NoDup (map Directory._id ds) -> NoDup (level ds k [a]).
Proof.
  intro Hnd. apply (NoDup_count_occ string_dec). intro x.
  rewrite count_level by assumption.
  destruct (ancestor ds k x) as [y|]; [|lia].
  cbn. destruct (string_dec a y); lia.
Qed.

(** *** Ancestors, descendants and the depth of an acyclic store *)

Lemma ancestor_add (ds : list Directory.doc) (i j : nat) :
  forall x : string,
    ancestor ds (i + j) x
    = match ancestor ds i x with
      | Some y => ancestor ds j y
      | None => None
      end.
Proof.
  induction i as [|i IH]; intro x; [reflexivity|].
  cbn [Nat.add ancestor]. destruct (parent_id_of ds x) as [p|]; [apply IH | reflexivity].
Qed.

Lemma parent_is_child (ds : list Directory.doc) (x p : string) :
  parent_id_of ds x = Some p -> is_child ds x p.
Proof.
  unfold parent_id_of. destruct (find_directory ds x) as [d|] eqn:E; [|discriminate].
  intro Hp. exists d. repeat split; [| | assumption].
  - now apply find_directory_In with x.
  - now apply find_directory_id with ds.
Qed.

Lemma child_has_parent (ds : list Directory.doc) (x p : string) :
  NoDup (map Directory._id ds) -> is_child ds x p -> parent_id_of ds x = Some p.
Proof.
  intros Hnd [d [Hd [Hid Hp]]]. unfold parent_id_of.
  destruct (find_directory ds x) as [d'|] eqn:E.
  - rewrite (unique_ids_inj ds d' d Hnd (find_directory_In _ _ _ E) Hd); [assumption|].
    rewrite Hid. now apply find_directory_id with ds.
  - apply find_directory_None in E. exfalso. apply E. rewrite <- Hid. now apply in_map.
Qed.

Lemma ancestor_descendant (ds : list Directory.doc) (k : nat) :
  forall x a : string, ancestor ds (S k) x = Some a -> descendant_of ds a x.
Proof.
  induction k as [|k IH]; intros x a H; cbn [ancestor] in H;
    destruct (parent_id_of ds x) as [p|] eqn:Hp; try discriminate.
  - injection H as ->. apply descendant_child. now apply parent_is_child.
  - apply descendant_step with p; [now apply parent_is_child|].
    apply IH. exact H.
Qed.

Lemma descendant_ancestor (ds : list Directory.doc) (a x : string) :
  NoDup (map Directory._id ds) ->
  descendant_of ds a x -> exists k, ancestor ds (S k) x = Some a.
Proof.
  intros Hnd H. induction H as [x Hc | x y Hc _ [k IH]].
  - exists 0. cbn. now rewrite (child_has_parent _ _ _ Hnd Hc).
  - exists (S k). cbn [ancestor]. now rewrite (child_has_parent _ _ _ Hnd Hc).
Qed.

Lemma in_upward (ds : list Directory.doc) (k : nat) :
  forall x y : string,
    In y (upward ds k x) -> exists j, j < k /\ ancestor ds j x = Some y.
Proof.
  induction k as [|k IH]; intros x y H; [destruct H|].
  cbn [upward] in H. destruct H as [<- | H].
  - exists 0. split; [lia | reflexivity].
  - destruct (parent_id_of ds x) as [p|] eqn:Hp; [|destruct H].
    destruct (IH p y H) as [j [Hj Ha]]. exists (S j). split; [lia|].
    cbn [ancestor]. now rewrite Hp.
Qed.

Lemma upward_length (ds : list Directory.doc) (k : nat) :
  forall x a : string,
    ancestor ds k x = Some a -> List.length (upward ds k x) = k.
Proof.
  induction k as [|k IH]; intros x a H; [reflexivity|].
  cbn [ancestor] in H. cbn [upward].
  destruct (parent_id_of ds x) as [p|]; [|discriminate].
  cbn. f_equal. now apply IH with a.
Qed.

Lemma upward_stored (ds : list Directory.doc) (k : nat) :
  forall x a : string,
    ancestor ds k x = Some a -> incl (upward ds k x) (map Directory._id ds).
Proof.
  induction k as [|k IH]; intros x a H y Hy; [destruct Hy|].
  cbn [ancestor] in H. cbn [upward] in Hy.
  destruct (parent_id_of ds x) as [p|] eqn:Hp; [|discriminate].
  destruct Hy as [<- | Hy]; [|now apply (IH p a H)].
  apply parent_is_child in Hp. destruct Hp as [d [Hd [<- _]]]. now apply in_map.
Qed.

Lemma upward_NoDup (ds : list Directory.doc) (k : nat) :
  acyclic ds -> forall x : string, NoDup (upward ds k x).
Proof.
  intro Hacyc. induction k as [|k IH]; intro x; [constructor|].
  cbn [upward]. destruct (parent_id_of ds x) as [p|] eqn:Hp.
  - constructor; [|apply IH]. intro Hin.
    destruct (in_upward _ _ _ _ Hin) as [j [_ Hj]].
    apply (Hacyc x). apply ancestor_descendant with j.
    cbn [ancestor]. now rewrite Hp.
  - constructor; [intros [] | constructor].
Qed.

(** Without a cycle no chain of ancestors is longer than the collection. *)
Lemma depth_bound (ds : list Directory.doc) (k : nat) (x a : string) :
  acyclic ds -> ancestor ds k x = Some a -> k <= List.length ds.
Proof.
  intros Hacyc H.
  rewrite <- (upward_length _ _ _ _ H), <- (length_map Directory._id ds).
  apply NoDup_incl_length; [now apply upward_NoDup | now apply upward_stored with a].
Qed.

Lemma deep_level_empty (ds : list Directory.doc) (a : string) :
  NoDup (map Directory._id ds) -> acyclic ds ->
  level ds (S (List.length ds)) [a] = [].
Proof.
  intros Hnd Hacyc.
  destruct (level ds (S (List.length ds)) [a]) as [|x l] eqn:E; [reflexivity|].
  assert (Hin : In x (level ds (S (List.length ds)) [a])) by (rewrite E; now left).
  apply in_level_single in Hin; [|assumption].
  apply depth_bound in Hin; [lia | assumption].
Qed.

Lemma NoDup_concat_map {A : Type} (f : nat -> list A) (l : list nat) :
  NoDup l ->
  (forall k, In k l -> NoDup (f k)) ->
  (forall i j x, In i l -> In j l -> i <> j -> In x (f i) -> In x (f j) -> False) ->
  NoDup (List.concat (map f l)).
Proof.
  induction l as [|k l IH]; intros Hl Hf Hdisj; [constructor|].
  inversion Hl as [|? ? Hk Hl']; subst. cbn [map List.concat].
  apply NoDup_app.
  - apply Hf. now left.
  - apply IH; [assumption | |].
    + intros i Hi. apply Hf. now right.
    + intros i j x Hi Hj. apply Hdisj; now right.
  - intros x Hx Hin. apply in_concat in Hin. destruct Hin as [l' [Hl'' Hx']].
    apply in_map_iff in Hl''. destruct Hl'' as [j [<- Hj]].
    apply (Hdisj k j x); [now left | now right | | assumption | assumption].
    intros ->. contradiction.
Qed.

(** C5 (amended): the enumeration is a breadth-first traversal along
    [parent_id] without a guard against revisiting.  On a store with distinct
    identifiers and no cycle in the parent links it returns, for every fuel
    from some bound on, the levels below the target by increasing depth;
    the target and the returned identifiers are pairwise distinct, and an
    identifier is returned exactly when it is a direct or transitive
    descendant of the target. *)
Theorem cascade_plan_on_acyclic_store (st : db) (directory_id : string) :
  unique_ids st ->
  acyclic (directories_collection st) ->
  exists (bound depth : nat) (descendant_ids : list string),
    (forall fuel, bound <= fuel ->
                  _get_descendant_ids fuel st directory_id = Some descendant_ids)
    /\ descendant_ids
       = List.concat (map (fun k => level (directories_collection st) (S k)
                                          [directory_id])
                          (seq 0 depth))
    /\ NoDup (directory_id :: descendant_ids)
    /\ forall x, In x descendant_ids
                 <-> descendant_of (directories_collection st) directory_id x.
Proof.
  intros Huniq Hacyc. unfold unique_ids in Huniq.
  set (ds := directories_collection st) in *.
  set (depth := S (List.length ds)).
  exists (S (iterations ds depth [directory_id])), depth,
         (collected ds depth [directory_id]).
  assert (Hin : forall x, In x (collected ds depth [directory_id])
                          <-> descendant_of ds directory_id x).
  { intro x. rewrite collected_levels, in_concat. split.
    - intros [l [Hl Hx]]. apply in_map_iff in Hl. destruct Hl as [k [<- _]].
      apply in_level_single in Hx; [|assumption].
      now apply ancestor_descendant with k.
    - intro Hd. destruct (descendant_ancestor _ _ _ Huniq Hd) as [k Hk].
      exists (level ds (S k) [directory_id]). split.
      + apply in_map_iff. exists k. split; [reflexivity|].
        apply in_seq. pose proof (depth_bound _ _ _ _ Hacyc Hk). unfold depth. lia.
      + now apply in_level_single. }
  split; [|split; [apply collected_levels | split; [|exact Hin]]].
  - intros fuel Hfuel. unfold _get_descendant_ids. fold ds.
    replace fuel with (iterations ds depth [directory_id]
                       + S (fuel - S (iterations ds depth [directory_id]))) by lia.
    rewrite loop_returns_levels; [reflexivity|].
    now apply deep_level_empty.
  - constructor.
    + intro Hself. apply Hin in Hself. now apply (Hacyc directory_id).
    + rewrite collected_levels. apply NoDup_concat_map.
      * apply seq_NoDup.
      * intros k _. now apply level_single_NoDup.
      * assert (Hlt : forall i j x, i < j ->
                   In x (level ds (S i) [directory_id]) ->
                   In x (level ds (S j) [directory_id]) -> False).
        { intros i j x Hij Hi Hj.
          apply in_level_single in Hi; [|assumption].
          apply in_level_single in Hj; [|assumption].
          replace (S j) with (S i + S (j - S i)) in Hj by lia.
          rewrite ancestor_add, Hi in Hj.
          apply (Hacyc directory_id).
          now apply ancestor_descendant with (j - S i). }
        intros i j x _ _ Hne Hi Hj.
        destruct (Nat.lt_ge_cases i j) as [Hlt' | Hge].
        -- now apply (Hlt i j x).
        -- apply (Hlt j i x); [lia | assumption | assumption].
Qed.

End DescendantEnumeration.

Section DescendantExamples.
Import DirectoryService.

(** A store is acyclic as soon as every child ranks above its parent. *)
Lemma acyclic_by_rank (ds : list Directory.doc) (rank : string -> nat) :
  (forall d p, In d ds -> Directory.parent_id d = Some p ->
               rank p < rank (Directory._id d)) ->
  acyclic ds.
Proof.
  intro Hrank.
  assert (Hlt : forall a x, descendant_of ds a x -> rank a < rank x).
  { intros a x H. induction H as [x [d [Hd [<- Hp]]] | x y [d [Hd [<- Hp]]] _ IH].
    - now apply Hrank.
    - pose proof (Hrank d y Hd Hp). lia. }
  intros x Hx. apply Hlt in Hx. lia.
Qed.

Lemma cascade_db_unique_ids : unique_ids Examples.cascade_db.
Proof.
  unfold unique_ids. cbn.
  repeat (constructor; [cbn; intuition discriminate|]). constructor.
Defined.

Lemma cascade_db_acyclic : acyclic (directories_collection Examples.cascade_db).
Proof.
  apply acyclic_by_rank
    with (rank := fun x => if x =? "mid" then 1 else if x =? "leaf" then 2 else 0).
  intros d p Hd Hp. cbn in Hd.
  destruct Hd as [<- | [<- | [<- | [<- | []]]]]; cbn in Hp;
    try discriminate; injection Hp as <-; cbn; lia.
Defined.

Lemma cascade_plan_on_acyclic_store_witness :
  exists (bound depth : nat) (descendant_ids : list string),
    (forall fuel, bound <= fuel ->
                  _get_descendant_ids fuel Examples.cascade_db "root"
                  = Some descendant_ids)
    /\ descendant_ids
       = List.concat
           (map (fun k => level (directories_collection Examples.cascade_db)
                                (S k) ["root"])
                (seq 0 depth))
    /\ NoDup ("root" :: descendant_ids)
    /\ forall x, In x descendant_ids
                 <-> descendant_of (directories_collection Examples.cascade_db)
                                   "root" x.
Proof.
  exact (cascade_plan_on_acyclic_store Examples.cascade_db "root"
           cascade_db_unique_ids cascade_db_acyclic).
Defined.

End DescendantExamples.

(** ** Further properties of the services *)

Section Revocation.
Import Permission.
Import PermissionService.

(** A successful [delete_one] removes the first document of the pair. *)
Lemma delete_one_found (ps : list doc) (u d : string) :
  forall ps', delete_one ps u d = (ps', true) ->
    exists l1 g l2,
      ps = l1 ++ g :: l2 /\ ps' = l1 ++ l2
      /\ same_pair u d g = true
      /\ forall x, In x l1 -> same_pair u d x = false.
Proof.
  induction ps as [|p ps IH]; intros ps' H; [discriminate|].
  cbn [delete_one] in H. fold (same_pair u d p) in H.
  destruct (same_pair u d p) eqn:E.
  - injection H as <-. exists [], p, ps. repeat split; [assumption | intros x []].
  - destruct (delete_one ps u d) as [rest found] eqn:Er.
    injection H as <- ->.
    destruct (IH rest eq_refl) as [l1 [g [l2 [-> [-> [Hg Hl1]]]]]].
    exists (p :: l1), g, l2. repeat split; [assumption|].
    intros x [<- | Hx]; [assumption | now apply Hl1].
Qed.

(** An unsuccessful [delete_one] changes nothing and there was no match. *)
Lemma delete_one_missing (ps : list doc) (u d : string) :
  forall ps', delete_one ps u d = (ps', false) ->
    ps' = ps /\ find_permission ps u d = None.
Proof.
  unfold find_permission. fold (same_pair u d).
  induction ps as [|p ps IH]; intros ps' H.
  - injection H as <-. now split.
  - cbn [delete_one] in H. fold (same_pair u d p) in H. cbn [find].
    destruct (same_pair u d p) eqn:E; [discriminate|].
    destruct (delete_one ps u d) as [rest found] eqn:Er.
    injection H as <- ->. destruct (IH rest eq_refl) as [-> Hn]. now split.
Qed.

Lemma filter_none (u d : string) (l : list doc) :
  (forall x, In x l -> same_pair u d x = false) -> filter (same_pair u d) l = [].
Proof.
  induction l as [|x l IH]; intro H; cbn; [reflexivity|].
  rewrite (H x (or_introl eq_refl)). apply IH. intros y Hy. apply H. now right.
Qed.

Lemma find_permission_none_iff (ps : list doc) (u d : string) :
  find_permission ps u d = None <-> filter (same_pair u d) ps = [].
Proof.
  unfold find_permission. fold (same_pair u d).
  induction ps as [|p ps IH]; cbn; [tauto|].
  destruct (same_pair u d p); [split; discriminate | exact IH].
Qed.

Lemma set_permissions_same (st : db) :
  set_permissions st (permissions_collection st) (next_oid st) = st.
Proof. now destruct st. Qed.

(** X1: [revoke_permission] on a well-formed grant collection.  A call that
    raises (directory missing, caller not the owner) leaves the database as it
    was.  A call that returns reports whether the pair held a grant; after it
    the pair holds none, every other pair is untouched, the collection is
    still well formed, and when nothing was held the database is unchanged. *)
Theorem revoke_removes_the_grant
        (st : db) (directory_id uid revoked_by : string) :
  grants_wf st ->
  let out := revoke_permission st directory_id uid revoked_by in
  match fst out with
  | Raise _ =>
    snd out = st
    /\ (find_directory (directories_collection st) directory_id = None
        \/ exists D, find_directory (directories_collection st) directory_id = Some D
                     /\ Directory.owner_id D <> revoked_by)
  | Return deleted =>
    grants_wf (snd out)
    /\ deleted = match find_permission (permissions_collection st) uid directory_id with
                 | Some _ => true
                 | None => false
                 end
    /\ find_permission (permissions_collection (snd out)) uid directory_id = None
    /\ (forall u d, (u =? uid) && (d =? directory_id) = false ->
                    filter (same_pair u d) (permissions_collection (snd out))
                    = filter (same_pair u d) (permissions_collection st))
    /\ (deleted = false -> snd out = st)
  end.
Proof.
  intros [Hnd [Hlt Hone]]. cbn zeta. unfold revoke_permission.
  destruct (find_directory (directories_collection st) directory_id) as [D|] eqn:HD;
    [|cbn; split; [reflexivity | now left]].
  destruct (Directory.owner_id D =? revoked_by) eqn:Eo; cbn [negb].
  2:{ cbn. split; [reflexivity|]. right. exists D. split; [reflexivity|].
      now apply String.eqb_neq. }
  destruct (delete_one (permissions_collection st) uid directory_id)
    as [ps' deleted] eqn:Ed.
  cbn [fst snd]. destruct deleted.
  - destruct (delete_one_found _ _ _ _ Ed) as [l1 [g [l2 [Hps [-> [Hg Hl1]]]]]].
    assert (Hfilter : forall u d,
               filter (same_pair u d) (permissions_collection st)
               = filter (same_pair u d) l1
                 ++ (if same_pair u d g then [g] else [])
                 ++ filter (same_pair u d) l2).
    { intros u d. rewrite Hps, filter_app. cbn [filter].
      now destruct (same_pair u d g). }
    assert (Hl2 : filter (same_pair uid directory_id) l2 = []).
    { pose proof (Hone uid directory_id) as H1.
      rewrite Hfilter, Hg, (filter_none _ _ _ Hl1) in H1. cbn in H1.
      destruct (filter (same_pair uid directory_id) l2); [reflexivity | cbn in H1; lia]. }
    unfold set_permissions. cbn [permissions_collection next_oid].
    split; [|split; [|split; [|split]]].
    + repeat split; cbn [permissions_collection next_oid].
      * rewrite Hps, map_app in Hnd. cbn in Hnd.
        apply NoDup_remove_1 in Hnd. now rewrite map_app.
      * intros p Hp. apply Hlt. rewrite Hps. apply in_app_iff.
        apply in_app_iff in Hp. destruct Hp; [now left | right; now right].
      * intros u d. pose proof (Hone u d) as H1. rewrite Hfilter in H1.
        rewrite filter_app, length_app. rewrite !length_app in H1.
        destruct (same_pair u d g); cbn in H1; lia.
    + assert (Hf : find_permission (permissions_collection st) uid directory_id <> None).
      { rewrite find_permission_none_iff, Hfilter, Hg.
        destruct (filter (same_pair uid directory_id) l1); discriminate. }
      now destruct (find_permission (permissions_collection st) uid directory_id).
    + apply find_permission_none_iff. rewrite filter_app, Hl2.
      now rewrite (filter_none _ _ _ Hl1).
    + intros u d Hne. rewrite Hfilter, filter_app.
      destruct (same_pair u d g) eqn:Eg; [|reflexivity].
      rewrite (same_pair_eq _ _ _ _ _ Eg Hg) in Hne. discriminate.
    + discriminate.
  - destruct (delete_one_missing _ _ _ _ Ed) as [-> Hnone].
    rewrite set_permissions_same.
    split; [now repeat split|]. split; [now rewrite Hnone|].
    split; [exact Hnone|]. split; [reflexivity | reflexivity].
Qed.

End Revocation.

Section RevocationExamples.
Import Permission.
Import PermissionService.

Lemma write_only_db_wf : grants_wf Examples.write_only_db.
Proof.
  repeat split; cbn.
  - constructor; [intros [] | constructor].
  - intros p [<- | []]. cbn. lia.
  - intros u d. destruct (same_pair u d _); cbn; lia.
Defined.

Lemma revoke_removes_the_grant_witness :
  find_permission
    (permissions_collection
       (snd (revoke_permission Examples.write_only_db "box" "guest" "alice")))
    "guest" "box" = None.
Proof.
  exact (proj1 (proj2 (proj2 (revoke_removes_the_grant
                                Examples.write_only_db "box" "guest" "alice"
                                write_only_db_wf)))).
Defined.

End RevocationExamples.

Section GrantRoundTrip.
Import Permission.
Import PermissionService.

Lemma delete_one_appended (ps : list doc) (u d : string) (g : doc) :
  find_permission ps u d = None ->
  same_pair u d g = true ->
  delete_one (ps ++ [g]) u d = (ps, true).
Proof.
  unfold find_permission. fold (same_pair u d).
  induction ps as [|p ps IH]; intros Hn Hg; cbn [app delete_one];
    fold (same_pair u d g).
  - now rewrite Hg.
  - fold (same_pair u d p). cbn [find] in Hn.
    destruct (same_pair u d p); [discriminate|].
    now rewrite (IH Hn Hg).
Qed.

(** A returning grant to a user without a grant on the directory appends one
    document. *)
Lemma grant_permission_inserts
      (now : nat) (st : db) (data : PermissionGrant)
      (directory_id granted_by uid : string) (resp : PermissionResponse) :
  grantee st data = Some uid ->
  find_permission (permissions_collection st) uid directory_id = None ->
  fst (grant_permission now st data directory_id granted_by) = Return resp ->
  (exists D, find_directory (directories_collection st) directory_id = Some D
             /\ (Directory.owner_id D =? granted_by) = true)
  /\ snd (grant_permission now st data directory_id granted_by)
     = set_permissions st
         (permissions_collection st
          ++ [mkDoc (next_oid st) uid directory_id
                    (map value (grant_permissions data)) granted_by now])
         (S (next_oid st)).
Proof.
  unfold grantee, grant_permission.
  destruct (find_directory (directories_collection st) directory_id) as [D|] eqn:HD;
    [|discriminate 3].
  destruct (Directory.owner_id D =? granted_by) eqn:Eo; cbn [negb]; [|discriminate 3].
  destruct (find _ (users_collection st)) as [user|]; [|discriminate 1].
  intro Hu. injection Hu as Hu. rewrite Hu.
  destruct (uid =? granted_by); [discriminate 2|].
  intros Hnone. rewrite Hnone.
  destruct (find _ _) as [perm|]; [|discriminate 1].
  intros _. split; [now exists D | reflexivity].
Qed.

(** X2: granting to a user who holds no grant on the directory and then
    revoking that user's grant (by the same owner) returns true and leaves
    the grant collection exactly as it was before the grant. *)
Theorem revoke_undoes_grant
        (now : nat) (st : db) (data : PermissionGrant)
        (directory_id granted_by uid : string) (resp : PermissionResponse) :
  grantee st data = Some uid ->
  find_permission (permissions_collection st) uid directory_id = None ->
  fst (grant_permission now st data directory_id granted_by) = Return resp ->
  let st' := snd (grant_permission now st data directory_id granted_by) in
  fst (revoke_permission st' directory_id uid granted_by) = Return true
  /\ permissions_collection (snd (revoke_permission st' directory_id uid granted_by))
     = permissions_collection st.
Proof.
  intros Hu Hnone Hret. cbn zeta.
  destruct (grant_permission_inserts _ _ _ _ _ _ _ Hu Hnone Hret)
    as [[D [HD Eo]] ->].
  unfold revoke_permission, set_permissions.
  cbn [directories_collection permissions_collection next_oid].
  rewrite HD, Eo. cbn [negb].
  rewrite delete_one_appended.
  - now split.
  - exact Hnone.
  - unfold same_pair. cbn. now rewrite !String.eqb_refl.
Qed.

Lemma revoke_undoes_grant_witness :
  permissions_collection
    (snd (revoke_permission
            (snd (grant_permission 10 Examples.grant_db
                    (mkGrant "guest@example.org" [READ]) "box" "alice"))
            "box" "guest" "alice"))
  = [].
Proof.
  exact (proj2 (revoke_undoes_grant 10 Examples.grant_db
                  (mkGrant "guest@example.org" [READ]) "box" "alice" "guest"
                  (mkResponse 0 "guest" "guest@example.org" "box" ["read"] 10)
                  eq_refl eq_refl eq_refl)).
Defined.

End GrantRoundTrip.

Section GrantProvenance.
Import Permission.
Import PermissionService.

Lemma update_one_In (ps : list doc) (id : nat) (v : list string) (p : doc) :
  In p (update_one ps id v) ->
  In p ps \/ exists q, In q ps /\ p = with_permissions v q.
Proof.
  induction ps as [|x ps IH]; intro H; [destruct H|].
  cbn [update_one] in H. destruct (_id x =? id)%nat.
  - destruct H as [<- | H]; [right; exists x; split; [now left | reflexivity]|].
    left. now right.
  - destruct H as [<- | H]; [left; now left|].
    destruct (IH H) as [Hin | [q [Hq ->]]]; [left; now right|].
    right. exists q. split; [now right | reflexivity].
Qed.

(** A grant call changes neither the directories nor the users, and every
    document after it is an old one, an old one with a new capability list,
    or a new one issued by the owner of the stored directory to another,
    registered user. *)
Lemma grant_permission_documents
      (now : nat) (st : db) (data : PermissionGrant) (directory_id granted_by : string) :
  let st' := snd (grant_permission now st data directory_id granted_by) in
  directories_collection st' = directories_collection st
  /\ users_collection st' = users_collection st
  /\ forall p, In p (permissions_collection st') ->
       In p (permissions_collection st)
       \/ (exists q v, In q (permissions_collection st) /\ p = with_permissions v q)
       \/ grant_sound st p.
Proof.
  cbn zeta. unfold grant_permission.
  destruct (find_directory (directories_collection st) directory_id) as [D|] eqn:HD;
    [|cbn; now repeat split; try left].
  destruct (Directory.owner_id D =? granted_by) eqn:Eo; cbn [negb];
    [|cbn; now repeat split; try left].
  destruct (find _ (users_collection st)) as [user|] eqn:Hu;
    [|cbn; now repeat split; try left].
  destruct (User._id user =? granted_by) eqn:Eself;
    [cbn; now repeat split; try left|].
  destruct (find_permission (permissions_collection st) (User._id user) directory_id)
    as [existing|].
  - assert (Hdocs : forall p,
               In p (update_one (permissions_collection st) (_id existing)
                                (map value (grant_permissions data))) ->
               In p (permissions_collection st)
               \/ (exists q v, In q (permissions_collection st)
                               /\ p = with_permissions v q)
               \/ grant_sound st p).
    { intros p Hp. apply update_one_In in Hp.
      destruct Hp as [Hp | [q [Hq ->]]]; [now left|].
      right; left. now exists q, (map value (grant_permissions data)). }
    cbn [snd fst set_permissions permissions_collection users_collection
             directories_collection next_oid _id].
    destruct (find _ (update_one _ _ _)); cbn; repeat split; exact Hdocs.
  - assert (Hdocs : forall p,
               In p (permissions_collection st
                     ++ [mkDoc (next_oid st) (User._id user) directory_id
                               (map value (grant_permissions data)) granted_by now]) ->
               In p (permissions_collection st)
               \/ (exists q v, In q (permissions_collection st)
                               /\ p = with_permissions v q)
               \/ grant_sound st p).
    { intros p Hp. apply in_app_iff in Hp.
      destruct Hp as [Hp | [<- | []]]; [now left|].
      right; right. exists D, user. cbn. repeat split.
      - exact HD.
      - now apply String.eqb_eq.
      - now apply find_some in Hu.
      - now apply String.eqb_neq. }
    cbn [snd fst set_permissions permissions_collection users_collection
             directories_collection next_oid _id].
    destruct (find _ (permissions_collection st ++ _)); cbn; repeat split;
      exact Hdocs.
Qed.

Lemma grant_sound_transfer (st st' : db) (p : doc) :
  directories_collection st' = directories_collection st ->
  users_collection st' = users_collection st ->
  grant_sound st p -> grant_sound st' p.
Proof.
  intros Hd Hu [D [user H]]. exists D, user. now rewrite Hd, Hu.
Qed.

Lemma grant_sound_with_permissions (st : db) (v : list string) (q : doc) :
  grant_sound st q -> grant_sound st (with_permissions v q).
Proof. intros [D [user H]]. exists D, user. exact H. Qed.

(** X3: when every stored grant was issued by the owner of its (stored)
    directory to a registered user other than that owner, so is every grant
    after any sequence of [grant_permission] calls; in particular the owner
    of the directory a grant names is never the grantee. *)
Theorem grants_come_from_owners (calls : list grant_call) :
  forall st0 : db,
    (forall p, In p (permissions_collection st0) -> grant_sound st0 p) ->
    let st := run_grants st0 calls in
    (forall p, In p (permissions_collection st) -> grant_sound st p)
    /\ (forall p D, In p (permissions_collection st) ->
                    find_directory (directories_collection st) (directory_id p) = Some D ->
                    Directory.owner_id D <> user_id p).
Proof.
  induction calls as [|c calls IH]; intros st0 H0; cbn zeta.
  - cbn [run_grants]. split; [exact H0|].
    intros p D Hp HD. destruct (H0 p Hp) as [D' [user [HD' [Ho [_ [_ Hne]]]]]].
    rewrite HD in HD'. injection HD' as <-. congruence.
  - cbn [run_grants]. apply IH.
    destruct (grant_permission_documents (call_now c) st0 (call_data c)
                (call_directory_id c) (call_granted_by c)) as [Hd [Hu Hdocs]].
    fold (grant st0 c) in Hd, Hu, Hdocs.
    intros p Hp. apply (grant_sound_transfer st0); [assumption | assumption |].
    destruct (Hdocs p Hp) as [Hin | [[q [v [Hq ->]]] | Hs]].
    + now apply H0.
    + apply grant_sound_with_permissions. now apply H0.
    + exact Hs.
Qed.

Lemma grants_come_from_owners_witness :
  grant_sound (run_grants Examples.grant_db Examples.read_then_write)
              (mkDoc 0 "guest" "box" ["write"] "alice" 10).
Proof.
  apply (grants_come_from_owners Examples.read_then_write Examples.grant_db).
  - intros p [].
  - now left.
Defined.

End GrantProvenance.

Section EffectivePermissions.
Import Permission.
Import PermissionService.

(** The enum lookup inverts [value]. *)
Lemma of_value_value (a : PermissionType) : of_value (value a) = Some a.
Proof. now destruct a. Qed.

Lemma of_value_some (s : string) (a : PermissionType) :
  of_value s = Some a -> s = value a.
Proof.
  unfold of_value.
  destruct (s =? "read") eqn:Er; [apply String.eqb_eq in Er; now intros [= <-]|].
  destruct (s =? "write") eqn:Ew; [apply String.eqb_eq in Ew; now intros [= <-]|].
  destruct (s =? "delete") eqn:Ed; [apply String.eqb_eq in Ed; now intros [= <-]|].
  discriminate.
Qed.

Lemma value_eqb (a b : PermissionType) : (value a =? value b) = Permission.eqb a b.
Proof. now destruct a, b. Qed.

(** A converted list has the members whose values the stored list holds. *)
Lemma to_permission_types_mem (values : list string) :
  forall ts, to_permission_types values = Return ts ->
             forall a, str_in (value a) values = existsb (Permission.eqb a) ts.
Proof.
  induction values as [|s values IH]; intros ts H a.
  - injection H as <-. reflexivity.
  - cbn [to_permission_types] in H.
    destruct (of_value s) as [t|] eqn:Es; [|discriminate].
    destruct (to_permission_types values) as [ts'|]; [|discriminate].
    injection H as <-. apply of_value_some in Es. subst s.
    unfold str_in. cbn [existsb]. rewrite value_eqb.
    f_equal. now apply IH.
Qed.

(** The conversion succeeds on strings that are all values. *)
Lemma to_permission_types_valid (values : list string) :
  (forall s, In s values -> exists a, s = value a) ->
  exists ts, to_permission_types values = Return ts.
Proof.
  induction values as [|s values IH]; intro H.
  - now exists [].
  - destruct (H s (or_introl eq_refl)) as [a ->].
    destruct IH as [ts Hts]; [intros s Hs; apply H; now right|].
    exists (a :: ts). cbn [to_permission_types]. now rewrite of_value_value, Hts.
Qed.

Lemma scan_effective_agrees (ps : list doc) (uid : string) (path : list string) :
  forall ts, scan_effective ps uid path = Return ts ->
             forall a, scan_path ps uid path a = existsb (Permission.eqb a) ts.
Proof.
  induction path as [|x path IH]; intros ts H a.
  - injection H as <-. reflexivity.
  - cbn [scan_effective scan_path] in *.
    destruct (find_permission ps uid x) as [g|]; [|now apply IH].
    now apply to_permission_types_mem.
Qed.

Lemma scan_effective_valid (ps : list doc) (uid : string) (path : list string) :
  (forall p s, In p ps -> In s (Permission.permissions p) -> exists a, s = value a) ->
  exists ts, scan_effective ps uid path = Return ts.
Proof.
  intro Hvalid. induction path as [|x path IH]; [now exists []|].
  cbn [scan_effective].
  destruct (find_permission ps uid x) as [g|] eqn:Hg; [|exact IH].
  apply to_permission_types_valid. intros s Hs.
  apply (Hvalid g s); [|assumption].
  unfold find_permission in Hg. now apply find_some in Hg.
Qed.

(** X4: whenever [get_effective_permissions] reports a list, the check for
    an action answers whether the action is in that list.  On a store whose
    capability strings are all values of the enum (as [grant_permission]
    writes them), it reports a list whenever [check_permission] returns. *)
Theorem effective_permissions_agree_with_check
        (fuel : nat) (st : db) (uid directory_id : string) :
  (forall ts, get_effective_permissions fuel st uid directory_id = Some (Return ts) ->
              forall a, check_permission fuel st uid directory_id a
                        = Some (existsb (Permission.eqb a) ts))
  /\ (valid_grants st ->
      forall a b, check_permission fuel st uid directory_id a = Some b ->
                  exists ts, get_effective_permissions fuel st uid directory_id
                             = Some (Return ts)).
Proof.
  unfold get_effective_permissions, check_permission.
  destruct (find_directory (directories_collection st) directory_id) as [D|].
  2:{ split; [intros ts [= <-] a; reflexivity | intros _ a b _; now exists []]. }
  destruct (Directory.owner_id D =? uid).
  { split; [intros ts [= <-] a; now destruct a|].
    intros _ a b _. now exists [READ; WRITE; DELETE]. }
  destruct (build_path fuel (directories_collection st) D [directory_id]) as [path|].
  2:{ split; [discriminate | intros _ a b; discriminate]. }
  split.
  - intros ts [= H] a. f_equal. now apply scan_effective_agrees.
  - intros Hvalid a b _.
    destruct (scan_effective_valid (permissions_collection st) uid path Hvalid)
      as [ts ->].
    now exists ts.
Qed.

End EffectivePermissions.

Section EffectivePermissionsExamples.
Import Permission.
Import PermissionService.

Lemma effective_permissions_agree_with_check_witness :
  check_permission 3 Examples.shadow_db "guest" "leaf" WRITE = Some false.
Proof.
  exact (proj1 (effective_permissions_agree_with_check 3 Examples.shadow_db
                  "guest" "leaf")
               [READ] eq_refl WRITE).
Defined.

(** Every document after a grant call is an old one or holds the values of
    the requested members. *)
Lemma grant_permission_values
      (now : nat) (st : db) (data : PermissionGrant) (directory_id granted_by : string) :
  forall p,
    In p (permissions_collection
            (snd (grant_permission now st data directory_id granted_by))) ->
    In p (permissions_collection st)
    \/ Permission.permissions p = map value (grant_permissions data).
Proof.
  unfold grant_permission.
  destruct (find_directory (directories_collection st) directory_id) as [D|];
    [|cbn; now left].
  destruct (negb (Directory.owner_id D =? granted_by)); [cbn; now left|].
  destruct (find _ (users_collection st)) as [user|]; [|cbn; now left].
  destruct (User._id user =? granted_by); [cbn; now left|].
  destruct (find_permission (permissions_collection st) (User._id user) directory_id)
    as [existing|];
    cbn [snd fst set_permissions permissions_collection users_collection
             directories_collection next_oid _id].
  - assert (Hdocs : forall p,
               In p (update_one (permissions_collection st) (_id existing)
                                (map value (grant_permissions data))) ->
               In p (permissions_collection st)
               \/ Permission.permissions p = map value (grant_permissions data)).
    { intros p Hp. apply update_one_In in Hp.
      destruct Hp as [Hp | [q [Hq ->]]]; [now left | now right]. }
    destruct (find _ (update_one _ _ _)); exact Hdocs.
  - assert (Hdocs : forall p,
               In p (permissions_collection st
                     ++ [mkDoc (next_oid st) (User._id user) directory_id
                               (map value (grant_permissions data)) granted_by now]) ->
               In p (permissions_collection st)
               \/ Permission.permissions p = map value (grant_permissions data)).
    { intros p Hp. apply in_app_iff in Hp.
      destruct Hp as [Hp | [<- | []]]; [now left | now right]. }
    destruct (find _ (permissions_collection st ++ _)); exact Hdocs.
Qed.

(** X5: granting never stores a string that is not a value of the enum: a
    store whose capability strings are all enum values stays so after any
    sequence of [grant_permission] calls, so the conversions of
    [get_effective_permissions] cannot raise on it. *)
Theorem grants_stay_valid (calls : list grant_call) :
  forall st0 : db, valid_grants st0 -> valid_grants (run_grants st0 calls).
Proof.
  induction calls as [|c calls IH]; intros st0 H0; [exact H0|].
  cbn [run_grants]. apply IH. intros p s Hp Hs.
  destruct (grant_permission_values _ _ _ _ _ p Hp) as [Hin | Heq].
  - now apply (H0 p s).
  - rewrite Heq in Hs. apply in_map_iff in Hs. destruct Hs as [a [<- _]].
    now exists a.
Qed.

Lemma grants_stay_valid_witness :
  exists a, "write" = value a.
Proof.
  apply (grants_stay_valid Examples.read_then_write Examples.grant_db)
    with (p := mkDoc 0 "guest" "box" ["write"] "alice" 10).
  - intros p s [].
  - now left.
  - now left.
Defined.

End EffectivePermissionsExamples.

Section MissingDirectory.
Import Permission.

Lemma is_owner_missing (st : db) (id u : string) :
  find_directory (directories_collection st) id = None ->
  DirectoryService.is_owner st id u = false.
Proof.
  intro Hn. unfold DirectoryService.is_owner.
  destruct (find _ (directories_collection st)) as [d|] eqn:E; [|reflexivity].
  apply find_some in E. destruct E as [Hd Hb].
  apply andb_true_iff in Hb. destruct Hb as [Hid _]. apply String.eqb_eq in Hid.
  apply find_directory_None in Hn. exfalso. apply Hn. rewrite <- Hid. now apply in_map.
Qed.

(** X6: for an identifier that names no stored directory, with any fuel:
    [check_permission] and [can_access_directory] answer false,
    [get_effective_permissions] the empty list, the fetch endpoint raises
    404, [check_file_permission] answers true for a super-admin only, and
    [PermissionChecker] returns true for a super-admin and raises 403 for
    every other user. *)
Theorem missing_directory_is_denied
        (fuel : nat) (st : db) (directory_id : string) (U : User.UserResponse)
        (action : PermissionType) :
  find_directory (directories_collection st) directory_id = None ->
  PermissionService.check_permission fuel st (User.id U) directory_id action
    = Some false
  /\ PermissionService.can_access_directory fuel st (User.id U) directory_id
     = Some false
  /\ PermissionService.get_effective_permissions fuel st (User.id U) directory_id
     = Some (Return [])
  /\ DirectoriesApi.get_directory fuel st directory_id U
     = Some (Raise (HTTPException HTTP_404_NOT_FOUND "Directory not found"))
  /\ FilesApi.check_file_permission fuel st U directory_id action
     = Some (Role.eqb (User.r_role U) Role.SUPER_ADMIN)
  /\ (User.r_role U = Role.SUPER_ADMIN ->
      Deps.PermissionChecker action fuel st directory_id U = Some (Return true))
  /\ (User.r_role U <> Role.SUPER_ADMIN ->
      exists detail,
        Deps.PermissionChecker action fuel st directory_id U
        = Some (Raise (HTTPException HTTP_403_FORBIDDEN detail))).
Proof.
  intro Hn.
  assert (Hcheck : forall a,
             PermissionService.check_permission fuel st (User.id U) directory_id a
             = Some false).
  { intro a. unfold PermissionService.check_permission. now rewrite Hn. }
  assert (Hpub : DirectoryService.is_public st directory_id = false).
  { unfold DirectoryService.is_public. now rewrite Hn. }
  pose proof (is_owner_missing st directory_id (User.id U) Hn) as Hown.
  split; [apply Hcheck|].
  split; [unfold PermissionService.can_access_directory; now rewrite Hn|].
  split; [unfold PermissionService.get_effective_permissions; now rewrite Hn|].
  split; [unfold DirectoriesApi.get_directory, DirectoryService.get_directory;
          now rewrite Hn|].
  split; [|split].
  - unfold FilesApi.check_file_permission.
    rewrite Hpub, Hown, Hcheck, andb_false_r.
    now destruct (Role.eqb (User.r_role U) Role.SUPER_ADMIN).
  - intros Hsa. unfold Deps.PermissionChecker. now rewrite Hsa.
  - intros Hsa. unfold Deps.PermissionChecker.
    rewrite Hpub, Hown, Hcheck, !andb_false_r.
    destruct (User.r_role U), action; try (now elim Hsa); cbn; eexists; reflexivity.
Qed.

Lemma missing_directory_is_denied_witness :
  Deps.PermissionChecker READ 0 Examples.own_db "nowhere"
                         (Examples.user_of "root" Role.SUPER_ADMIN)
  = Some (Return true)
  /\ PermissionService.check_permission 0 Examples.own_db "root" "nowhere" READ
     = Some false.
Proof.
  destruct (missing_directory_is_denied 0 Examples.own_db "nowhere"
              (Examples.user_of "root" Role.SUPER_ADMIN) READ eq_refl)
    as [Hc [_ [_ [_ [_ [Hsa _]]]]]].
  split; [apply Hsa; reflexivity | exact Hc].
Defined.

End MissingDirectory.

Section WalkTermination.
Import Permission.

Lemma parent_id_of_stored (ds : list Directory.doc) (D : Directory.doc) :
  NoDup (map Directory._id ds) -> In D ds ->
  parent_id_of ds (Directory._id D) = Directory.parent_id D.
Proof.
  intros Hnd HD. unfold parent_id_of.
  destruct (find_directory ds (Directory._id D)) as [D'|] eqn:E.
  - now rewrite (unique_ids_inj ds D' D Hnd (find_directory_In _ _ _ E) HD
                   (find_directory_id _ _ _ E)).
  - apply find_directory_None in E. exfalso. apply E. now apply in_map.
Qed.

(** A stored directory whose ancestors are at most [n] has an ancestor chain
    of at most [n] identifiers. *)
Lemma ancestor_chain_bounded (ds : list Directory.doc) (n : nat) :
  NoDup (map Directory._id ds) ->
  forall D : Directory.doc,
    In D ds ->
    (forall j a, ancestor ds j (Directory._id D) = Some a -> j <= n) ->
    exists chain e, ancestor_chain ds D chain e /\ List.length chain <= n.
Proof.
  intro Hnd. induction n as [|n IH]; intros D HD Hdepth.
  - destruct (Directory.parent_id D) as [p|] eqn:Hp.
    + assert (H1 : ancestor ds 1 (Directory._id D) = Some p).
      { cbn [ancestor]. now rewrite (parent_id_of_stored ds D Hnd HD), Hp. }
      apply Hdepth in H1. lia.
    + exists [], AtRoot. split; [|cbn; lia]. apply chain_root. now rewrite Hp.
  - destruct (Directory.parent_id D) as [p|] eqn:Hp.
    + destruct (truthy_str p) eqn:Ht.
      * destruct (find_directory ds p) as [D'|] eqn:Hf.
        -- destruct (IH D' (find_directory_In _ _ _ Hf)) as [chain [e [Hc Hlen]]].
           { intros j a Hj.
             assert (HS : ancestor ds (S j) (Directory._id D) = Some a).
             { cbn [ancestor]. rewrite (parent_id_of_stored ds D Hnd HD), Hp.
               now rewrite <- (find_directory_id _ _ _ Hf). }
             apply Hdepth in HS. lia. }
           exists (p :: chain), e. split; [now apply chain_up with D' | cbn; lia].
        -- exists [p], AtBrokenLink. split; [now apply chain_broken | cbn; lia].
      * exists [], AtRoot. split; [|cbn; lia]. apply chain_root. now rewrite Hp.
    + exists [], AtRoot. split; [|cbn; lia]. apply chain_root. now rewrite Hp.
Qed.

(** X7: on a store with distinct identifiers and no cycle in the parent
    links, the ancestor walk always ends: with a fuel above the number of
    stored directories, [check_permission] returns a boolean for every user,
    directory and action, and [PermissionChecker] and the fetch endpoint
    return an outcome. *)
Theorem access_checks_terminate_on_acyclic_store
        (st : db) (fuel : nat) (U : User.UserResponse) (directory_id : string)
        (action : PermissionType) :
  unique_ids st ->
  acyclic (directories_collection st) ->
  List.length (directories_collection st) < fuel ->
  (exists b, PermissionService.check_permission fuel st (User.id U) directory_id action
             = Some b)
  /\ (exists r, Deps.PermissionChecker action fuel st directory_id U = Some r)
  /\ (exists r, DirectoriesApi.get_directory fuel st directory_id U = Some r).
Proof.
  intros Huniq Hacyc Hfuel.
  assert (Hcheck : forall a, exists b,
               PermissionService.check_permission fuel st (User.id U) directory_id a
               = Some b).
  { intro a. unfold PermissionService.check_permission.
    destruct (find_directory (directories_collection st) directory_id) as [D|] eqn:HD;
      [|now exists false].
    destruct (Directory.owner_id D =? User.id U); [now exists true|].
    destruct (ancestor_chain_bounded (directories_collection st)
                (List.length (directories_collection st)) Huniq D
                (find_directory_In _ _ _ HD)) as [chain [e [Hc Hlen]]].
    { intros j a' Hj. now apply depth_bound with (Directory._id D) a'. }
    rewrite (build_path_complete _ _ _ _ Hc) by lia. eexists; reflexivity. }
  split; [apply Hcheck|]. split.
  - unfold Deps.PermissionChecker.
    destruct (Hcheck action) as [b ->].
    repeat match goal with
           | |- context [if ?c then _ else _] => destruct c
           end; eexists; reflexivity.
  - unfold DirectoriesApi.get_directory, PermissionService.can_access_directory,
      DirectoryService.get_directory.
    destruct (Hcheck READ) as [b ->].
    destruct (find_directory (directories_collection st) directory_id);
      [|eexists; reflexivity].
    repeat match goal with
           | |- context [if ?c then _ else _] => destruct c
           end; eexists; reflexivity.
Qed.

Lemma access_checks_terminate_on_acyclic_store_witness :
  exists b,
    PermissionService.check_permission 5 Examples.cascade_db "guest" "leaf" DELETE
    = Some b.
Proof.
  refine (proj1 (access_checks_terminate_on_acyclic_store Examples.cascade_db 5
                   (Examples.user_of "guest" Role.USER) "leaf" DELETE
                   cascade_db_unique_ids cascade_db_acyclic _)).
  cbn. lia.
Defined.

End WalkTermination.

Section DeleteRefusals.
Import DirectoryService.

(** X8: [delete_directory] issues no write unless it returns true.  It
    returns false when the directory is not stored, raises [PermissionError]
    for a caller who is neither the owner nor a super-admin, and without
    [cascade] raises [ValueError] when the directory has a subdirectory or a
    file; none of these needs fuel. *)
Theorem delete_refusals_write_nothing
        (fuel : nat) (st : db) (directory_id user_id : string)
        (user_role : Role.UserRole) (cascade : bool) :
  (find_directory (directories_collection st) directory_id = None ->
   delete_directory fuel st directory_id user_id user_role cascade
   = Some (Return false, []))
  /\ (forall D,
         find_directory (directories_collection st) directory_id = Some D ->
         Directory.owner_id D <> user_id -> user_role <> Role.SUPER_ADMIN ->
         delete_directory fuel st directory_id user_id user_role cascade
         = Some (Raise (PermissionError "Not authorized to delete this directory"), []))
  /\ (forall D,
         find_directory (directories_collection st) directory_id = Some D ->
         Directory.owner_id D = user_id \/ user_role = Role.SUPER_ADMIN ->
         cascade = false ->
         children_of (directories_collection st) directory_id <> []
         \/ (exists f, In f (files_collection st) /\ File.directory_id f = directory_id) ->
         exists msg,
           delete_directory fuel st directory_id user_id user_role cascade
           = Some (Raise (ValueError msg), []))
  /\ (forall r ws,
         delete_directory fuel st directory_id user_id user_role cascade = Some (r, ws) ->
         r <> Return true -> ws = []).
Proof.
  unfold delete_directory.
  destruct (find_directory (directories_collection st) directory_id) as [D|].
  2:{ repeat split; try discriminate. intros r ws [= <- <-] _. reflexivity. }
  split; [discriminate|]. split; [|split].
  - intros D' [= <-] Hown Hrole.
    apply String.eqb_neq in Hown. rewrite Hown.
    destruct user_role; try reflexivity. now elim Hrole.
  - intros D' [= <-] Hauth -> Hnonempty.
    assert (Hno : negb (Directory.owner_id D =? user_id)
                  && negb (Role.eqb user_role Role.SUPER_ADMIN) = false).
    { destruct Hauth as [-> | ->]; [now rewrite String.eqb_refl | apply andb_false_r]. }
    rewrite Hno.
    destruct (children_of (directories_collection st) directory_id) as [|c cs];
      [|eexists; reflexivity].
    destruct Hnonempty as [Hc | [f [Hf He]]]; [now elim Hc|].
    destruct (find _ (files_collection st)) eqn:E; [eexists; reflexivity|].
    pose proof (find_none _ _ E f Hf) as Hn. cbn beta in Hn.
    rewrite He, String.eqb_refl in Hn. discriminate.
  - intros r ws.
    destruct (negb (Directory.owner_id D =? user_id)
              && negb (Role.eqb user_role Role.SUPER_ADMIN));
      [intros [= <- <-]; reflexivity|].
    destruct (children_of (directories_collection st) directory_id),
             (find _ (files_collection st)), cascade;
      try (intros [= <- <-] H; try reflexivity; now elim H);
      destruct (_get_descendant_ids fuel st directory_id);
      try discriminate; intros [= <- <-] H; now elim H.
Qed.

Lemma delete_refusals_write_nothing_witness :
  exists msg,
    delete_directory 0 Examples.cascade_db "root" "owner" Role.USER false
    = Some (Raise (ValueError msg), []).
Proof.
  refine (proj1 (proj2 (proj2 (delete_refusals_write_nothing
                                 0 Examples.cascade_db "root" "owner" Role.USER false)))
                (Examples.dir_of "root" "owner" None false) eq_refl
                (or_introl eq_refl) eq_refl _).
  left. discriminate.
Defined.

End DeleteRefusals.

Section DeletionKeepsTheForest.
Import DirectoryService.

Lemma descendants_loop_mono (fuel : nat) (ds : list Directory.doc) :
  forall (queue result out : list string) (fuel' : nat),
    descendants_loop fuel ds queue result = Some out ->
    fuel <= fuel' ->
    descendants_loop fuel' ds queue result = Some out.
Proof.
  induction fuel as [|fuel IH]; intros queue result out fuel' H Hle; [discriminate|].
  destruct fuel' as [|fuel']; [lia|].
  cbn [descendants_loop] in *. destruct queue as [|p queue]; [assumption|].
  apply IH; [assumption | lia].
Qed.

(** The levels below a directory hold exactly its descendants. *)
Lemma collected_descendants (ds : list Directory.doc) (a x : string) :
  NoDup (map Directory._id ds) -> acyclic ds ->
  In x (collected ds (S (List.length ds)) [a]) <-> descendant_of ds a x.
Proof.
  intros Hnd Hacyc. rewrite collected_levels, in_concat. split.
  - intros [l [Hl Hx]]. apply in_map_iff in Hl. destruct Hl as [k [<- _]].
    apply in_level_single in Hx; [|assumption].
    now apply ancestor_descendant with k.
  - intro Hd. destruct (descendant_ancestor _ _ _ Hnd Hd) as [k Hk].
    exists (level ds (S k) [a]). split.
    + apply in_map_iff. exists k. split; [reflexivity|].
      apply in_seq. pose proof (depth_bound _ _ _ _ Hacyc Hk). lia.
    + now apply in_level_single.
Qed.

(** Whatever fuel made the enumeration return, it returned the descendants. *)
Lemma descendant_ids_spec (fuel : nat) (st : db) (directory_id : string)
      (out : list string) :
  unique_ids st -> acyclic (directories_collection st) ->
  _get_descendant_ids fuel st directory_id = Some out ->
  forall x, In x out <-> descendant_of (directories_collection st) directory_id x.
Proof.
  intros Huniq Hacyc Hout x. unfold unique_ids in Huniq.
  set (ds := directories_collection st) in *.
  set (n := iterations ds (S (List.length ds)) [directory_id]).
  assert (Hbig : descendants_loop (n + S fuel) ds [directory_id] []
                 = Some (collected ds (S (List.length ds)) [directory_id])).
  { unfold n. rewrite loop_returns_levels; [reflexivity|].
    now apply deep_level_empty. }
  unfold _get_descendant_ids in Hout. fold ds in Hout.
  apply (descendants_loop_mono _ _ _ _ _ (n + S fuel)) in Hout; [|lia].
  rewrite Hbig in Hout. injection Hout as <-.
  now apply collected_descendants.
Qed.

Lemma delete_first_unique (ds : list Directory.doc) (id : string) :
  NoDup (map Directory._id ds) ->
  delete_first ds id = filter (fun d => negb (Directory._id d =? id)) ds.
Proof.
  induction ds as [|d ds IH]; intro Hnd; [reflexivity|].
  cbn in Hnd. inversion Hnd as [|? ? Hd Hnd']; subst.
  cbn [delete_first filter]. destruct (Directory._id d =? id) eqn:E; cbn [negb].
  - apply String.eqb_eq in E. subst id.
    symmetry. rewrite <- (filter_ext_in (fun _ => true)).
    + clear. induction ds as [|x ds IH]; cbn; [reflexivity | now rewrite IH].
    + intros x Hx. symmetry. apply negb_true_iff. apply String.eqb_neq.
      intro He. apply Hd. rewrite <- He. now apply in_map.
  - f_equal. now apply IH.
Qed.

Lemma descendant_of_sub (ds ds' : list Directory.doc) (a x : string) :
  incl ds' ds -> descendant_of ds' a x -> descendant_of ds a x.
Proof.
  intros Hincl H.
  induction H as [x [d [Hd He]] | x y [d [Hd He]] _ IH].
  - apply descendant_child. exists d. split; [now apply Hincl | exact He].
  - apply descendant_step with y; [|exact IH].
    exists d. split; [now apply Hincl | exact He].
Qed.

(** Removing a set of directories that no survivor names as parent keeps
    the collection a forest. *)
Lemma removal_keeps_forest (ds : list Directory.doc) (gone : Directory.doc -> bool) :
  NoDup (map Directory._id ds) -> acyclic ds -> parents_stored ds ->
  (forall d P p, In d ds -> gone d = false -> Directory.parent_id d = Some p ->
                 In P ds -> Directory._id P = p -> gone P = false) ->
  let ds' := filter (fun d => negb (gone d)) ds in
  NoDup (map Directory._id ds') /\ acyclic ds' /\ parents_stored ds'.
Proof.
  intros Hnd Hacyc Hstored Hclosed ds'. split; [|split].
  - now apply NoDup_map_filter.
  - intros x Hx. apply (Hacyc x).
    apply descendant_of_sub with ds'; [|exact Hx].
    intros d Hd. now apply filter_In in Hd.
  - intros d p Hd Hp Ht. apply filter_In in Hd. destruct Hd as [Hd Hg].
    apply negb_true_iff in Hg.
    pose proof (Hstored d p Hd Hp Ht) as Hin. apply in_map_iff in Hin.
    destruct Hin as [P [HP HinP]]. apply in_map_iff. exists P. split; [exact HP|].
    apply filter_In. split; [exact HinP|]. apply negb_true_iff.
    now apply (Hclosed d P p).
Qed.

Lemma children_of_nil (ds : list Directory.doc) (id : string) (d : Directory.doc) :
  children_of ds id = [] -> In d ds -> Directory.parent_id d <> Some id.
Proof.
  intros Hnil Hd Hp.
  assert (Hin : In d (children_of ds id)).
  { unfold children_of. apply filter_In. split; [exact Hd|].
    rewrite Hp. apply String.eqb_refl. }
  rewrite Hnil in Hin. destruct Hin.
Qed.

(** X9: [delete_directory] keeps the directory collection a forest: if the
    stored directories have distinct identifiers, no cycle and no dangling
    parent before the call, then they have after it, whatever its outcome,
    with or without [cascade]. *)
Theorem delete_directory_keeps_forest
        (fuel : nat) (st : db) (directory_id user_id : string)
        (user_role : Role.UserRole) (cascade : bool)
        (r : result bool) (ws : list write) :
  tree_wf st ->
  delete_directory fuel st directory_id user_id user_role cascade = Some (r, ws) ->
  tree_wf (final_db st ws).
Proof.
  intros [Huniq [Hacyc Hstored]] Hdel.
  unfold delete_directory in Hdel.
  destruct (find_directory (directories_collection st) directory_id) as [D|] eqn:HD;
    [|injection Hdel as <- <-; now repeat split].
  destruct (negb (Directory.owner_id D =? user_id)
            && negb (Role.eqb user_role Role.SUPER_ADMIN));
    [injection Hdel as <- <-; now repeat split|].
  assert (Hcascade :
            forall out, _get_descendant_ids fuel st directory_id = Some out ->
              tree_wf (final_db st [files_delete_many (directory_id :: out);
                                    permissions_delete_many (directory_id :: out);
                                    directories_delete_many (directory_id :: out)])).
  { intros out Hout. unfold tree_wf, unique_ids, final_db.
    cbn [fold_left apply_write directories_collection].
    apply (removal_keeps_forest (directories_collection st)
             (fun d => str_in (Directory._id d) (directory_id :: out)));
      try assumption.
    intros d P p Hd Hgone Hp HP HidP.
    apply str_in_false. apply str_in_false in Hgone. intro Hin. apply Hgone.
    right. apply (descendant_ids_spec _ _ _ _ Huniq Hacyc Hout).
    assert (Hchild : is_child (directories_collection st) (Directory._id d) p)
      by (exists d; now repeat split).
    rewrite HidP in Hin. destruct Hin as [<- | Hin].
    - now apply descendant_child.
    - apply descendant_step with p; [exact Hchild|].
      now apply (descendant_ids_spec _ _ _ _ Huniq Hacyc Hout). }
  assert (Hplain :
            children_of (directories_collection st) directory_id = [] ->
            tree_wf (final_db st [permissions_delete_many_eq directory_id;
                                  directories_delete_one directory_id])).
  { intro Hnil. unfold tree_wf, unique_ids, final_db.
    cbn [fold_left apply_write directories_collection].
    rewrite (delete_first_unique _ _ Huniq).
    apply (removal_keeps_forest (directories_collection st)
             (fun d => Directory._id d =? directory_id));
      try assumption.
    intros d P p Hd _ Hp HP HidP. apply String.eqb_neq. intros He.
    apply (children_of_nil _ _ d Hnil Hd). congruence. }
  destruct (children_of (directories_collection st) directory_id) as [|c cs] eqn:Hch;
    destruct (find _ (files_collection st));
    destruct cascade;
    try (injection Hdel as <- <-; now repeat split);
    try (destruct (_get_descendant_ids fuel st directory_id) as [out|];
         [injection Hdel as <- <-; now apply Hcascade | discriminate]);
    injection Hdel as <- <-; now apply Hplain.
Qed.

Lemma cascade_db_tree_wf : tree_wf Examples.cascade_db.
Proof.
  split; [exact cascade_db_unique_ids | split; [exact cascade_db_acyclic|]].
  intros d p Hd Hp _. cbn in Hd.
  destruct Hd as [<- | [<- | [<- | [<- | []]]]]; cbn in Hp;
    try discriminate; injection Hp as <-; cbn; tauto.
Defined.

Lemma delete_directory_keeps_forest_witness :
  tree_wf (final_db Examples.cascade_db
                    [ files_delete_many ["mid"; "leaf"];
                      permissions_delete_many ["mid"; "leaf"];
                      directories_delete_many ["mid"; "leaf"] ]).
Proof.
  exact (delete_directory_keeps_forest 3 Examples.cascade_db "mid" "owner" Role.USER
           true (Return true) _ cascade_db_tree_wf eq_refl).
Defined.

End DeletionKeepsTheForest.

Section DeletionContents.
Import DirectoryService.

(** What a returning cascade delete was called on and what it issued. *)
Lemma cascade_delete_inversion
      (fuel : nat) (st : db) (directory_id user_id : string)
      (user_role : Role.UserRole) (ws : list write) :
  delete_directory fuel st directory_id user_id user_role true
  = Some (Return true, ws) ->
  exists out,
    _get_descendant_ids fuel st directory_id = Some out
    /\ ws = [files_delete_many (directory_id :: out);
             permissions_delete_many (directory_id :: out);
             directories_delete_many (directory_id :: out)].
Proof.
  unfold delete_directory.
  destruct (find_directory (directories_collection st) directory_id) as [D|];
    [|discriminate].
  destruct (negb (Directory.owner_id D =? user_id)
            && negb (Role.eqb user_role Role.SUPER_ADMIN)); [discriminate|].
  destruct (children_of (directories_collection st) directory_id),
           (find _ (files_collection st));
    (destruct (_get_descendant_ids fuel st directory_id) as [out|];
     [|discriminate]);
    intros [= <-]; now exists out.
Qed.

(** X10: on a store with distinct identifiers and no cycle, a cascade delete
    that returns true removes exactly the subtree: a directory survives
    exactly when it is neither the target nor a descendant of it, and a file
    or a grant survives exactly when its [directory_id] is neither; the
    users are untouched. *)
Theorem cascade_removes_exactly_the_subtree
        (fuel : nat) (st : db) (directory_id user_id : string)
        (user_role : Role.UserRole) (ws : list write) :
  unique_ids st ->
  acyclic (directories_collection st) ->
  delete_directory fuel st directory_id user_id user_role true
  = Some (Return true, ws) ->
  let st' := final_db st ws in
  let in_plan := fun x => x = directory_id
                          \/ descendant_of (directories_collection st) directory_id x in
  (forall d, In d (directories_collection st')
             <-> In d (directories_collection st) /\ ~ in_plan (Directory._id d))
  /\ (forall f, In f (files_collection st')
                <-> In f (files_collection st) /\ ~ in_plan (File.directory_id f))
  /\ (forall p, In p (permissions_collection st')
                <-> In p (permissions_collection st)
                    /\ ~ in_plan (Permission.directory_id p))
  /\ users_collection st' = users_collection st.
Proof.
  intros Huniq Hacyc Hdel st' in_plan.
  destruct (cascade_delete_inversion _ _ _ _ _ _ Hdel) as [out [Hout ->]].
  assert (Hplan : forall x, str_in x (directory_id :: out) = false <-> ~ in_plan x).
  { intro x. rewrite str_in_false. unfold in_plan. cbn [In].
    rewrite (descendant_ids_spec _ _ _ _ Huniq Hacyc Hout x).
    split; intros H [He | Hd]; apply H; try (now right); left; congruence. }
  unfold st', final_db.
  cbn [fold_left apply_write directories_collection files_collection
                 permissions_collection users_collection].
  split; [|split; [|split; [|reflexivity]]].
  - intro d. rewrite filter_In, negb_true_iff, Hplan. tauto.
  - intro f. rewrite filter_In, negb_true_iff, Hplan. tauto.
  - intro p. rewrite filter_In, negb_true_iff, Hplan. tauto.
Qed.

Lemma cascade_removes_exactly_the_subtree_witness :
  map Directory._id
      (directories_collection
         (final_db Examples.cascade_db
                   [ files_delete_many ["root"; "mid"; "leaf"];
                     permissions_delete_many ["root"; "mid"; "leaf"];
                     directories_delete_many ["root"; "mid"; "leaf"] ]))
  = ["other"]
  /\ forall d,
      In d (directories_collection
              (final_db Examples.cascade_db
                        [ files_delete_many ["root"; "mid"; "leaf"];
                          permissions_delete_many ["root"; "mid"; "leaf"];
                          directories_delete_many ["root"; "mid"; "leaf"] ]))
      <-> In d (directories_collection Examples.cascade_db)
          /\ ~ (Directory._id d = "root"
                \/ descendant_of (directories_collection Examples.cascade_db)
                                 "root" (Directory._id d)).
Proof.
  split; [reflexivity|].
  exact (proj1 (cascade_removes_exactly_the_subtree
                  4 Examples.cascade_db "root" "owner" Role.USER _
                  cascade_db_unique_ids cascade_db_acyclic eq_refl)).
Defined.

(** What a returning plain delete was called on and what it issued. *)
Lemma plain_delete_inversion
      (fuel : nat) (st : db) (directory_id user_id : string)
      (user_role : Role.UserRole) (ws : list write) :
  delete_directory fuel st directory_id user_id user_role false
  = Some (Return true, ws) ->
  children_of (directories_collection st) directory_id = []
  /\ find (fun f => File.directory_id f =? directory_id) (files_collection st) = None
  /\ ws = [permissions_delete_many_eq directory_id;
           directories_delete_one directory_id].
Proof.
  unfold delete_directory.
  destruct (find_directory (directories_collection st) directory_id) as [D|];
    [|discriminate].
  destruct (negb (Directory.owner_id D =? user_id)
            && negb (Role.eqb user_role Role.SUPER_ADMIN)); [discriminate|].
  destruct (children_of (directories_collection st) directory_id); [|discriminate].
  destruct (find _ (files_collection st)); [discriminate|].
  intros [= <-]. now repeat split.
Qed.

(** X11: on a store with distinct identifiers, a delete without [cascade]
    that returns true removes the target directory and the grants on it and
    nothing else, and it leaves nothing behind that points at the target: no
    file is in it and no directory names it as parent. *)
Theorem plain_delete_removes_one_directory
        (fuel : nat) (st : db) (directory_id user_id : string)
        (user_role : Role.UserRole) (ws : list write) :
  unique_ids st ->
  delete_directory fuel st directory_id user_id user_role false
  = Some (Return true, ws) ->
  let st' := final_db st ws in
  (forall d, In d (directories_collection st')
             <-> In d (directories_collection st) /\ Directory._id d <> directory_id)
  /\ files_collection st' = files_collection st
  /\ (forall p, In p (permissions_collection st')
                <-> In p (permissions_collection st)
                    /\ Permission.directory_id p <> directory_id)
  /\ users_collection st' = users_collection st
  /\ (forall f, In f (files_collection st') -> File.directory_id f <> directory_id)
  /\ (forall d, In d (directories_collection st') ->
                Directory.parent_id d <> Some directory_id).
Proof.
  intros Huniq Hdel st'.
  destruct (plain_delete_inversion _ _ _ _ _ _ Hdel) as [Hch [Hfiles ->]].
  unfold st', final_db.
  cbn [fold_left apply_write directories_collection files_collection
                 permissions_collection users_collection].
  rewrite (delete_first_unique _ _ Huniq).
  split; [|split; [reflexivity | split; [|split; [reflexivity | split]]]].
  - intro d. rewrite filter_In, negb_true_iff, String.eqb_neq. tauto.
  - intro p. rewrite filter_In, negb_true_iff, String.eqb_neq. tauto.
  - intros f Hf He. pose proof (find_none _ _ Hfiles f Hf) as Hn. cbn beta in Hn.
    rewrite He, String.eqb_refl in Hn. discriminate.
  - intros d Hd. apply filter_In in Hd. destruct Hd as [Hd _].
    now apply (children_of_nil _ _ d Hch).
Qed.

Lemma plain_delete_removes_one_directory_witness :
  files_collection
    (final_db Examples.write_only_db
              [permissions_delete_many_eq "box"; directories_delete_one "box"])
  = files_collection Examples.write_only_db
  /\ users_collection
       (final_db Examples.write_only_db
                 [permissions_delete_many_eq "box"; directories_delete_one "box"])
     = users_collection Examples.write_only_db.
Proof.
  assert (Huniq : unique_ids Examples.write_only_db).
  { unfold unique_ids. cbn. constructor; [intros [] | constructor]. }
  destruct (plain_delete_removes_one_directory
              0 Examples.write_only_db "box" "alice" Role.USER
              [permissions_delete_many_eq "box"; directories_delete_one "box"]
              Huniq eq_refl)
    as [_ [Hf [_ [Hu _]]]].
  split; [exact Hf | exact Hu].
Defined.

End DeletionContents.

Section CascadeOnEmptyDirectory.
Import DirectoryService.

Lemma filter_keeps_all {A : Type} (f : A -> bool) (l : list A) :
  (forall x, In x l -> f x = true) -> filter f l = l.
Proof.
  induction l as [|x l IH]; intro H; cbn; [reflexivity|].
  rewrite (H x (or_introl eq_refl)). f_equal. apply IH. intros y Hy. apply H. now right.
Qed.

Lemma str_in_single (x id : string) : str_in x [id] = (x =? id).
Proof. unfold str_in. cbn. apply orb_false_r. Qed.

(** X12: on a store with distinct identifiers, where a delete without
    [cascade] returns true (the directory has neither subdirectories nor
    files), the cascade delete returns true as well, given a fuel of at
    least two, and both leave the same database. *)
Theorem cascade_on_empty_directory_is_plain_delete
        (fuel : nat) (st : db) (directory_id user_id : string)
        (user_role : Role.UserRole) (ws : list write) :
  unique_ids st ->
  2 <= fuel ->
  delete_directory fuel st directory_id user_id user_role false
  = Some (Return true, ws) ->
  exists ws',
    delete_directory fuel st directory_id user_id user_role true
    = Some (Return true, ws')
    /\ final_db st ws' = final_db st ws.
Proof.
  intros Huniq Hfuel Hdel.
  destruct (plain_delete_inversion _ _ _ _ _ _ Hdel) as [Hch [Hfiles ->]].
  assert (Hplan : _get_descendant_ids fuel st directory_id = Some []).
  { destruct fuel as [|[|fuel]]; try lia.
    unfold _get_descendant_ids. cbn [descendants_loop]. now rewrite Hch. }
  exists [files_delete_many [directory_id];
          permissions_delete_many [directory_id];
          directories_delete_many [directory_id]].
  split.
  - unfold delete_directory in *.
    destruct (find_directory (directories_collection st) directory_id) as [D|];
      [|discriminate].
    destruct (negb (Directory.owner_id D =? user_id)
              && negb (Role.eqb user_role Role.SUPER_ADMIN)); [discriminate|].
    now rewrite Hch, Hfiles, Hplan.
  - unfold final_db.
    cbn [fold_left apply_write directories_collection files_collection
                   permissions_collection users_collection next_oid].
    rewrite (delete_first_unique _ _ Huniq).
    f_equal.
    + apply filter_ext. intro d. now rewrite str_in_single.
    + apply filter_keeps_all. intros f Hf. rewrite str_in_single.
      apply negb_true_iff. apply (find_none _ _ Hfiles f Hf).
    + apply filter_ext. intro p. now rewrite str_in_single.
Qed.

Lemma cascade_on_empty_directory_is_plain_delete_witness :
  final_db Examples.write_only_db
           [files_delete_many ["box"]; permissions_delete_many ["box"];
            directories_delete_many ["box"]]
  = final_db Examples.write_only_db
             [permissions_delete_many_eq "box"; directories_delete_one "box"].
Proof.
  assert (Huniq : unique_ids Examples.write_only_db).
  { unfold unique_ids. cbn. constructor; [intros [] | constructor]. }
  destruct (cascade_on_empty_directory_is_plain_delete
              2 Examples.write_only_db "box" "alice" Role.USER _
              Huniq (le_n 2) eq_refl) as [ws' [Hws' Heq]].
  injection Hws' as <-. exact Heq.
Defined.

End CascadeOnEmptyDirectory.

Section DirectoryCreation.
Import DirectoryService.

(** A descendant relation ends with a child of the ancestor. *)
Lemma descendant_has_child (ds : list Directory.doc) (a x : string) :
  descendant_of ds a x -> exists z, is_child ds z a.
Proof.
  intro H. induction H as [x Hc | x y _ _ IH]; [now exists x | exact IH].
Qed.

(** Appending a directory with a new identifier that nobody names as parent
    creates no cycle. *)
Lemma acyclic_add_leaf (ds : list Directory.doc) (doc : Directory.doc) :
  acyclic ds ->
  ~ In (Directory._id doc) (map Directory._id ds) ->
  (forall d, In d ds -> Directory.parent_id d <> Some (Directory._id doc)) ->
  Directory.parent_id doc <> Some (Directory._id doc) ->
  acyclic (ds ++ [doc]).
Proof.
  intros Hacyc Hfresh Hnoparent Hself.
  set (oid := Directory._id doc) in *.
  assert (Hold : forall x y, is_child (ds ++ [doc]) x y -> x <> oid ->
                             is_child ds x y /\ y <> oid).
  { intros x y [d [Hd [Hid Hp]]] Hx. apply in_app_iff in Hd.
    destruct Hd as [Hd | [<- | []]]; [|now elim Hx].
    split; [now exists d|]. intros ->. now apply (Hnoparent d Hd). }
  assert (Hnew : forall y, is_child (ds ++ [doc]) oid y -> y <> oid).
  { intros y [d [Hd [Hid Hp]]] ->. apply in_app_iff in Hd.
    destruct Hd as [Hd | [<- | []]]; [|now apply Hself].
    apply Hfresh. rewrite <- Hid. now apply in_map. }
  assert (Hdown : forall a x, descendant_of (ds ++ [doc]) a x -> x <> oid ->
                              descendant_of ds a x).
  { intros a x H. induction H as [x Hc | x y Hc _ IH]; intro Hx.
    - apply descendant_child. now apply Hold.
    - destruct (Hold x y Hc Hx) as [Hc' Hy].
      apply descendant_step with y; [exact Hc' | now apply IH]. }
  intros x Hx. destruct (string_dec x oid) as [-> | Hne].
  - assert (Hz : exists z, is_child ds z oid).
    { inversion Hx as [x' Hc | x' y Hc Hd]; subst.
      - now elim (Hnew oid Hc).
      - apply descendant_has_child with y. apply Hdown; [exact Hd | now apply Hnew]. }
    destruct Hz as [z [d [Hd [_ Hp]]]]. now apply (Hnoparent d Hd).
  - apply (Hacyc x). now apply Hdown.
Qed.

(** X13: [create_directory] with a new, non-empty identifier keeps the
    directory collection a forest in which no two directories of one owner
    share a path.  A call that raises (missing parent, duplicate path) leaves
    the database as it was; a call that returns appends one document, owned
    by the caller, with the drawn identifier and the requested parent. *)
Theorem create_directory_keeps_forest
        (oid : string) (now : nat) (st : db) (data : Directory.DirectoryCreate)
        (owner : string) :
  tree_wf st ->
  paths_unique (directories_collection st) ->
  ~ In oid (map Directory._id (directories_collection st)) ->
  truthy_str oid = true ->
  let out := create_directory oid now st data owner in
  tree_wf (snd out)
  /\ paths_unique (directories_collection (snd out))
  /\ match fst out with
     | Raise _ => snd out = st
     | Return resp =>
       exists doc,
         directories_collection (snd out) = directories_collection st ++ [doc]
         /\ resp = to_response doc
         /\ Directory._id doc = oid
         /\ Directory.owner_id doc = owner
         /\ Directory.parent_id doc = Directory.c_parent_id data
         /\ files_collection (snd out) = files_collection st
         /\ permissions_collection (snd out) = permissions_collection st
     end.
Proof.
  intros [Huniq [Hacyc Hstored]] Hpaths Hfresh Htruthy. cbn zeta.
  unfold create_directory.
  set (built := match Directory.c_parent_id data with
                | Some p => _
                | None => _
                end).
  assert (Hparent : forall new_path, built = Return new_path ->
             forall p, Directory.c_parent_id data = Some p -> truthy_str p = true ->
                       In p (map Directory._id (directories_collection st))).
  { intros new_path Hb p Hp Ht. unfold built in Hb. rewrite Hp, Ht in Hb.
    destruct (find_directory (directories_collection st) p) as [parent|] eqn:Hf;
      [|discriminate].
    rewrite <- (find_directory_id _ _ _ Hf). apply in_map.
    now apply find_directory_In with p. }
  destruct built as [new_path|e]; [|now repeat split].
  destruct (find _ (directories_collection st)) as [dup|] eqn:Hdup;
    [now repeat split|].
  set (doc := Directory.mkDoc oid (Directory.c_name data) owner
                              (Directory.c_parent_id data) new_path
                              (Directory.c_is_public data) now).
  unfold set_directories.
  cbn [fst snd directories_collection files_collection permissions_collection].
  assert (Hnoparent : forall d, In d (directories_collection st) ->
                                Directory.parent_id d <> Some oid).
  { intros d Hd Hp. apply Hfresh. now apply (Hstored d oid). }
  split; [|split].
  - unfold tree_wf, unique_ids. cbn [directories_collection]. split; [|split].
    + rewrite map_app. cbn. apply NoDup_app; [exact Huniq | |].
      * constructor; [intros [] | constructor].
      * intros x Hx [<- | []]. now apply Hfresh.
    + apply acyclic_add_leaf; try assumption.
      cbn. intro Hp. apply Hfresh. now apply (Hparent new_path eq_refl oid).
    + intros d p Hd Hp Ht. rewrite map_app. apply in_app_iff. left.
      apply in_app_iff in Hd. destruct Hd as [Hd | [<- | []]].
      * now apply (Hstored d p).
      * now apply (Hparent new_path eq_refl p).
  - intros d d' Hd Hd' Ho Hp.
    assert (Hclash : forall x, In x (directories_collection st) ->
                               Directory.owner_id x = owner ->
                               Directory.path x = new_path -> False).
    { intros x Hx Hox Hpx. pose proof (find_none _ _ Hdup x Hx) as Hn.
      cbn beta in Hn. rewrite Hox, Hpx, !String.eqb_refl in Hn. discriminate. }
    apply in_app_iff in Hd. apply in_app_iff in Hd'.
    destruct Hd as [Hd | [<- | []]], Hd' as [Hd' | [<- | []]].
    + now apply Hpaths.
    + exfalso. now apply (Hclash d Hd).
    + exfalso. apply (Hclash d' Hd'); now symmetry.
    + reflexivity.
  - exists doc. now repeat split.
Qed.

End DirectoryCreation.

Section DirectoryCreationExamples.
Import DirectoryService.

Lemma own_db_tree_wf : tree_wf Examples.own_db.
Proof.
  split; [|split].
  - unfold unique_ids. cbn. constructor; [intros [] | constructor].
  - apply acyclic_by_rank with (rank := fun _ => 0).
    intros d p [<- | []] Hp. discriminate.
  - intros d p [<- | []] Hp. discriminate.
Defined.

Lemma own_db_paths_unique : paths_unique (directories_collection Examples.own_db).
Proof. intros d d' [<- | []] [<- | []] _ _. reflexivity. Defined.

Lemma create_directory_keeps_forest_witness :
  tree_wf (snd (create_directory "0001" 7 Examples.own_db
                                 (Directory.mkCreate "docs" (Some "home") false)
                                 "alice"))
  /\ map Directory.path
         (directories_collection
            (snd (create_directory "0001" 7 Examples.own_db
                                   (Directory.mkCreate "docs" (Some "home") false)
                                   "alice")))
     = ["/home"; "/home/docs"].
Proof.
  split; [|reflexivity].
  refine (proj1 (create_directory_keeps_forest
                   "0001" 7 Examples.own_db
                   (Directory.mkCreate "docs" (Some "home") false) "alice"
                   own_db_tree_wf own_db_paths_unique _ eq_refl)).
  cbn. intros [H | []]. discriminate.
Defined.

End DirectoryCreationExamples.

Section DirectoryUpdate.
Import DirectoryService.

Lemma update_one_shape (ds : list Directory.doc) (id : string) (u : update_doc) :
  map shape_of (update_one ds id u) = map shape_of ds.
Proof.
  induction ds as [|d ds IH]; [reflexivity|].
  cbn [update_one]. destruct (Directory._id d =? id); cbn [map].
  - reflexivity.
  - now rewrite IH.
Qed.

Lemma update_one_others (ds : list Directory.doc) (id : string) (u : update_doc)
      (d : Directory.doc) :
  In d (update_one ds id u) -> Directory._id d <> id -> In d ds.
Proof.
  induction ds as [|x ds IH]; intros H Hne; [destruct H|].
  cbn [update_one] in H. destruct (Directory._id x =? id) eqn:E.
  - destruct H as [<- | H]; [|now right].
    apply String.eqb_eq in E. cbn in Hne. contradiction.
  - destruct H as [<- | H]; [now left | right; now apply IH].
Qed.

(** Being a forest depends on the identifiers and the parent links only. *)
Lemma forest_by_shape (ds ds' : list Directory.doc) :
  map shape_of ds' = map shape_of ds ->
  NoDup (map Directory._id ds) /\ acyclic ds /\ parents_stored ds ->
  NoDup (map Directory._id ds') /\ acyclic ds' /\ parents_stored ds'.
Proof.
  intros Hshape [Hnd [Hacyc Hstored]].
  assert (Hids : map Directory._id ds' = map Directory._id ds).
  { pose proof (f_equal (map (fun s => fst (fst (fst s)))) Hshape) as H.
    rewrite !map_map in H. exact H. }
  assert (Hlink : forall ds1 ds2, map shape_of ds1 = map shape_of ds2 ->
                    forall d, In d ds1 ->
                    exists d', In d' ds2 /\ Directory._id d' = Directory._id d
                               /\ Directory.parent_id d' = Directory.parent_id d).
  { intros ds1 ds2 H d Hd. apply (in_map shape_of) in Hd. rewrite H in Hd.
    apply in_map_iff in Hd. destruct Hd as [d' [He Hd']].
    exists d'. unfold shape_of in He. injection He as H1 _ H3 _. now repeat split. }
  assert (Hchild : forall x p, is_child ds' x p -> is_child ds x p).
  { intros x p [d [Hd [Hid Hp]]].
    destruct (Hlink ds' ds Hshape d Hd) as [d' [Hd' [Hid' Hp']]].
    exists d'. repeat split; congruence. }
  split; [now rewrite Hids|]. split.
  - assert (Hdesc : forall a x, descendant_of ds' a x -> descendant_of ds a x).
    { intros a x Hx. induction Hx as [y Hc | y z Hc _ IH].
      - apply descendant_child. now apply Hchild.
      - apply descendant_step with z; [now apply Hchild | exact IH]. }
    intros x Hx. apply (Hacyc x). now apply Hdesc.
  - intros d p Hd Hp Ht. rewrite Hids.
    destruct (Hlink ds' ds Hshape d Hd) as [d' [Hd' [_ Hp']]].
    apply (Hstored d' p Hd'); congruence.
Qed.

(** X14: [update_directory] never changes the identifier, owner, parent or
    creation time of any directory, nor any directory other than the target
    (a rename is not propagated to the paths of the descendants), nor the
    files, grants and users; so it keeps the collection a forest.  A call
    that raises changes nothing, and a caller who is neither the owner nor a
    super-admin gets [PermissionError]. *)
Theorem update_directory_keeps_shape
        (st : db) (directory_id user_id : string) (user_role : Role.UserRole)
        (new_name : option string) (new_is_public : option bool) :
  let out := update_directory st directory_id user_id user_role
                              new_name new_is_public in
  map shape_of (directories_collection (snd out))
  = map shape_of (directories_collection st)
  /\ (forall d, In d (directories_collection (snd out)) ->
                Directory._id d <> directory_id -> In d (directories_collection st))
  /\ files_collection (snd out) = files_collection st
  /\ permissions_collection (snd out) = permissions_collection st
  /\ users_collection (snd out) = users_collection st
  /\ (forall e, fst out = Raise e -> snd out = st)
  /\ (forall D, find_directory (directories_collection st) directory_id = Some D ->
                Directory.owner_id D <> user_id -> user_role <> Role.SUPER_ADMIN ->
                fst out
                = Raise (PermissionError "Not authorized to update this directory"))
  /\ (tree_wf st -> tree_wf (snd out)).
Proof.
  cbn zeta.
  assert (Hmain :
    let out := update_directory st directory_id user_id user_role
                                new_name new_is_public in
    map shape_of (directories_collection (snd out))
    = map shape_of (directories_collection st)
    /\ (forall d, In d (directories_collection (snd out)) ->
                  Directory._id d <> directory_id -> In d (directories_collection st))
    /\ files_collection (snd out) = files_collection st
    /\ permissions_collection (snd out) = permissions_collection st
    /\ users_collection (snd out) = users_collection st
    /\ (forall e, fst out = Raise e -> snd out = st)
    /\ (forall D, find_directory (directories_collection st) directory_id = Some D ->
                  Directory.owner_id D <> user_id -> user_role <> Role.SUPER_ADMIN ->
                  fst out
                  = Raise (PermissionError "Not authorized to update this directory"))).
  { cbn zeta. unfold update_directory.
    destruct (find_directory (directories_collection st) directory_id) as [D|];
      [|cbn; repeat split; try discriminate; now intros].
    destruct (negb (Directory.owner_id D =? user_id)
              && negb (Role.eqb user_role Role.SUPER_ADMIN)) eqn:Eauth;
      [cbn; repeat split; now intros|].
    assert (Hauth : forall D', Some D = Some D' ->
                      Directory.owner_id D' <> user_id ->
                      user_role <> Role.SUPER_ADMIN -> False).
    { intros D' [= <-] Hown Hrole. apply String.eqb_neq in Hown.
      rewrite Hown in Eauth. destruct user_role; try discriminate. now elim Hrole. }
    match goal with
    | |- context [match ?r with Return _ => _ | Raise _ => _ end] =>
      destruct r as [[set_n set_p]|e]
    end.
    2:{ cbn. repeat split; try (now intros). intros D' H1 H2 H3.
        now elim (Hauth D' H1 H2 H3). }
    destruct (update_doc_truthy (mkUpdate set_n set_p new_is_public));
      unfold set_directories;
      cbn [fst snd directories_collection files_collection permissions_collection
               users_collection];
      repeat split; try discriminate; try (now intros);
      try (apply update_one_shape); try (apply update_one_others);
      intros D' H1 H2 H3; now elim (Hauth D' H1 H2 H3). }
  cbn zeta in Hmain.
  destruct Hmain as [Hshape [Hothers [Hf [Hp [Hu [Hraise Hauth]]]]]].
  repeat split; try assumption.
  - now apply (forest_by_shape (directories_collection st)).
  - now apply (forest_by_shape (directories_collection st)).
  - now apply (forest_by_shape (directories_collection st)).
Qed.

(** Renaming "mid" rewrites its name and path; "leaf" below it keeps the
    path it had. *)
Example rename_is_not_propagated :
  map Directory.path
      (directories_collection
         (snd (update_directory Examples.cascade_db "mid" "owner" Role.USER
                                (Some "middle") None)))
  = ["/root"; "/root/middle"; "/leaf"; "/other"].
Proof. reflexivity. Qed.

Lemma update_directory_keeps_shape_witness :
  tree_wf (snd (update_directory Examples.cascade_db "mid" "owner" Role.USER
                                 (Some "middle") None)).
Proof.
  exact (proj2 (proj2 (proj2 (proj2 (proj2 (proj2 (proj2
           (update_directory_keeps_shape Examples.cascade_db "mid" "owner" Role.USER
              (Some "middle") None)))))))
               cascade_db_tree_wf).
Defined.

End DirectoryUpdate.

Section FilePermission.
Import Permission.

(** X15: in the file endpoints' check, on a stored directory D: the owner
    is allowed every action whatever the role, anyone is allowed read when D
    is public, and for a user who is neither super-admin nor owner every
    other case (write or delete, or read on a private D) is decided by the
    first grant found on D followed by its ancestor chain, so that publicity
    confers read only. *)
Theorem file_permission_owner_and_public
        (fuel : nat) (st : db) (directory_id : string) (D : Directory.doc)
        (U : User.UserResponse) (action : PermissionType) :
  find_directory (directories_collection st) directory_id = Some D ->
  (Directory.owner_id D = User.id U ->
   FilesApi.check_file_permission fuel st U directory_id action = Some true)
  /\ (Directory.is_public D = true ->
      FilesApi.check_file_permission fuel st U directory_id READ = Some true)
  /\ (forall (chain : list string) (e : chain_end),
         User.r_role U <> Role.SUPER_ADMIN ->
         DirectoryService.is_owner st directory_id (User.id U) = false ->
         ancestor_chain (directories_collection st) D chain e ->
         List.length chain < fuel ->
         action <> READ \/ Directory.is_public D = false ->
         FilesApi.check_file_permission fuel st U directory_id action
         = Some match first_grant (permissions_collection st) (User.id U)
                                  (directory_id :: chain) with
                | Some g => str_in (value action) (Permission.permissions g)
                | None => false
                end).
Proof.
  intro Hfind. pose proof (is_public_of_found _ _ _ Hfind) as Hpub.
  split; [|split].
  - intro Hown. unfold FilesApi.check_file_permission.
    rewrite (is_owner_of_found _ _ _ _ Hfind Hown).
    destruct (Role.eqb (User.r_role U) Role.SUPER_ADMIN); [reflexivity|].
    now destruct (_ && _).
  - intro Hp. unfold FilesApi.check_file_permission. rewrite Hpub, Hp.
    now destruct (Role.eqb (User.r_role U) Role.SUPER_ADMIN).
  - intros chain e Hsa Hno Hchain Hfuel Hcase.
    unfold FilesApi.check_file_permission. rewrite Hpub, Hno.
    assert (Hr : Role.eqb (User.r_role U) Role.SUPER_ADMIN = false)
      by (destruct (User.r_role U); try reflexivity; now elim Hsa).
    rewrite Hr.
    assert (Hfast : Permission.eqb action READ && Directory.is_public D = false).
    { destruct Hcase as [Ha | ->]; [|apply andb_false_r].
      destruct action; try reflexivity. now elim Ha. }
    rewrite Hfast.
    apply (check_permission_non_owner _ _ _ _ _ _ action _ Hfind
             (not_owner_of_found _ _ _ _ Hfind Hno) Hchain Hfuel).
Qed.

Lemma file_permission_owner_and_public_witness :
  FilesApi.check_file_permission 1 Examples.public_db
                                 (Examples.user_of "alice" Role.PENDING) "pub" DELETE
  = Some true
  /\ FilesApi.check_file_permission 1 Examples.public_db
                                    (Examples.user_of "bob" Role.USER) "pub" WRITE
     = Some false.
Proof.
  split.
  - refine (proj1 (file_permission_owner_and_public
                     1 Examples.public_db "pub"
                     (Examples.dir_of "pub" "alice" None true)
                     (Examples.user_of "alice" Role.PENDING) DELETE eq_refl) eq_refl).
  - refine (proj2 (proj2 (file_permission_owner_and_public
                            1 Examples.public_db "pub"
                            (Examples.dir_of "pub" "alice" None true)
                            (Examples.user_of "bob" Role.USER) WRITE eq_refl))
                  [] AtRoot _ eq_refl _ _ _).
    + discriminate.
    + now apply chain_root.
    + cbn. lia.
    + left. discriminate.
Defined.

End FilePermission.

Section CreateEndpoint.
Import Permission.

(** X16: creating a subdirectory through the endpoint, with a non-empty
    parent identifier.  When the parent is not stored the outcome is a 400
    and the database is unchanged (with any fuel, for every role).  When the
    parent is stored and the caller is neither a super-admin nor its owner,
    and the first grant found on the parent followed by its chain lacks
    write (or there is none), the outcome is a 403 and the database is
    unchanged, whether the parent is public or not. *)
Theorem create_needs_write_on_foreign_parent
        (fuel : nat) (oid : string) (now : nat) (st : db)
        (data : Directory.DirectoryCreate) (U : User.UserResponse) (p : string) :
  Directory.c_parent_id data = Some p ->
  truthy_str p = true ->
  (find_directory (directories_collection st) p = None ->
   DirectoriesApi.create_directory fuel oid now st data U
   = Some (Raise (HTTPException HTTP_400_BAD_REQUEST "Parent directory not found"),
           st))
  /\ (forall (P : Directory.doc) (chain : list string) (e : chain_end),
         find_directory (directories_collection st) p = Some P ->
         User.r_role U <> Role.SUPER_ADMIN ->
         Directory.owner_id P <> User.id U ->
         ancestor_chain (directories_collection st) P chain e ->
         List.length chain < fuel ->
         match first_grant (permissions_collection st) (User.id U) (p :: chain) with
         | Some g => str_in "write" (Permission.permissions g)
         | None => false
         end = false ->
         DirectoriesApi.create_directory fuel oid now st data U
         = Some (Raise (HTTPException HTTP_403_FORBIDDEN
                                      "No write permission for parent directory"),
                 st)).
Proof.
  intros Hparent Htruthy. split.
  - intro Hnone. unfold DirectoriesApi.create_directory,
      DirectoryService.create_directory, DirectoryService.get_directory.
    rewrite Hparent, Htruthy, Hnone. cbn [andb].
    now destruct (negb (Role.eqb (User.r_role U) Role.SUPER_ADMIN)).
  - intros P chain e HP Hsa Hown Hchain Hfuel Hnowrite.
    unfold DirectoriesApi.create_directory, DirectoryService.get_directory.
    rewrite Hparent, Htruthy, HP. cbn [andb DirectoryService.to_response
                                          Directory.r_owner_id].
    assert (Hr : Role.eqb (User.r_role U) Role.SUPER_ADMIN = false)
      by (destruct (User.r_role U); try reflexivity; now elim Hsa).
    rewrite Hr. cbn [negb].
    apply String.eqb_neq in Hown. rewrite Hown. cbn [negb].
    apply String.eqb_neq in Hown.
    rewrite (check_permission_non_owner _ _ _ _ _ _ WRITE _ HP Hown Hchain Hfuel).
    cbn [value]. now rewrite Hnowrite.
Qed.

Lemma create_needs_write_on_foreign_parent_witness :
  DirectoriesApi.create_directory 1 "0001" 7 Examples.public_db
                                  (Directory.mkCreate "sub" (Some "pub") false)
                                  (Examples.user_of "bob" Role.USER)
  = Some (Raise (HTTPException HTTP_403_FORBIDDEN
                               "No write permission for parent directory"),
          Examples.public_db).
Proof.
  refine (proj2 (create_needs_write_on_foreign_parent
                   1 "0001" 7 Examples.public_db
                   (Directory.mkCreate "sub" (Some "pub") false)
                   (Examples.user_of "bob" Role.USER) "pub" eq_refl eq_refl)
                (Examples.dir_of "pub" "alice" None true) [] AtRoot
                eq_refl _ _ _ _ eq_refl).
  - discriminate.
  - discriminate.
  - now apply chain_root.
  - cbn. lia.
Defined.

End CreateEndpoint.

Section RoleTable.

(** X17: the role table is monotone along the order pending, user, admin,
    super-admin: a capability a role has, every higher role has; and a
    capability name outside the five of the table is denied to every role. *)
Theorem role_capabilities_are_monotone (permission : string) :
  (forall r r', role_rank r <= role_rank r' ->
                Role.has_permission r permission = true ->
                Role.has_permission r' permission = true)
  /\ (~ In permission ["read"; "write"; "delete"; "manage_users"; "access_all"] ->
      forall r, Role.has_permission r permission = false).
Proof.
  assert (Hcases : In permission ["read"; "write"; "delete"; "manage_users"; "access_all"]
                   \/ forall r, Role.has_permission r permission = false).
  { unfold Role.has_permission.
    destruct ("read" =? permission) eqn:E1;
      [apply String.eqb_eq in E1; left; cbn; tauto|].
    destruct ("write" =? permission) eqn:E2;
      [apply String.eqb_eq in E2; left; cbn; tauto|].
    destruct ("delete" =? permission) eqn:E3;
      [apply String.eqb_eq in E3; left; cbn; tauto|].
    destruct ("manage_users" =? permission) eqn:E4;
      [apply String.eqb_eq in E4; left; cbn; tauto|].
    destruct ("access_all" =? permission) eqn:E5;
      [apply String.eqb_eq in E5; left; cbn; tauto|].
    right. intro r.
    destruct r; unfold Role.get_role_permissions, Role.ROLE_PERMISSIONS;
      cbn [Role.dict_get Role.eqb]; now rewrite E1, E2, E3, E4, E5. }
  split.
  - intros r r' Hle Hhas.
    destruct Hcases as [Hin | Hnone]; [|now rewrite Hnone in Hhas].
    cbn in Hin.
    destruct Hin as [<- | [<- | [<- | [<- | [<- | []]]]]];
      destruct r, r'; cbn in Hle; try lia; try reflexivity; discriminate.
  - intros Hnot r. destruct Hcases as [Hin | Hnone]; [contradiction | apply Hnone].
Qed.

Lemma role_capabilities_are_monotone_witness :
  Role.has_permission Role.ADMIN "delete" = true
  /\ Role.has_permission Role.SUPER_ADMIN "share" = false.
Proof.
  split.
  - apply (proj1 (role_capabilities_are_monotone "delete") Role.ADMIN Role.ADMIN);
      [cbn; lia | reflexivity].
  - apply (proj2 (role_capabilities_are_monotone "share")).
    cbn. intuition discriminate.
Defined.

End RoleTable.

Section OwnershipTest.

(** X18: on a store with distinct identifiers, [is_owner] answers true
    exactly when the directory the identifier looks up is owned by the user. *)
Theorem is_owner_agrees_with_lookup (st : db) (directory_id u : string) :
  unique_ids st ->
  (DirectoryService.is_owner st directory_id u = true
   <-> exists D, find_directory (directories_collection st) directory_id = Some D
                 /\ Directory.owner_id D = u).
Proof.
  intro Huniq. split.
  - unfold DirectoryService.is_owner.
    destruct (find _ (directories_collection st)) as [d|] eqn:E; [|discriminate].
    intros _. apply find_some in E. destruct E as [Hd Hb].
    apply andb_true_iff in Hb. destruct Hb as [Hid Ho].
    apply String.eqb_eq in Hid, Ho.
    destruct (find_directory (directories_collection st) directory_id) as [D|] eqn:HD.
    + exists D. split; [reflexivity|].
      rewrite (unique_ids_inj _ D d Huniq (find_directory_In _ _ _ HD) Hd); [exact Ho|].
      rewrite Hid. now apply find_directory_id with (directories_collection st).
    + apply find_directory_None in HD. exfalso. apply HD. rewrite <- Hid.
      now apply in_map.
  - intros [D [HD Ho]]. now apply (is_owner_of_found _ _ _ D).
Qed.

Lemma is_owner_agrees_with_lookup_witness :
  DirectoryService.is_owner Examples.tree_db "e" "u1" = true.
Proof.
  apply (proj2 (is_owner_agrees_with_lookup Examples.tree_db "e" "u1"
                  tree_db_unique_ids)).
  exists (Examples.dir_of "e" "u1" (Some "c") false). now split.
Defined.

End OwnershipTest.

Section RevocationFallsBack.
Import Permission.
Import PermissionService.

Lemma delete_one_other (ps : list doc) (u d x : string) :
  x <> d ->
  find_permission (fst (delete_one ps u d)) u x = find_permission ps u x.
Proof.
  intro Hne. unfold find_permission.
  induction ps as [|p ps IH]; [reflexivity|].
  cbn [delete_one]. destruct ((user_id p =? u) && (Permission.directory_id p =? d)) eqn:E.
  - cbn [fst find]. apply andb_true_iff in E. destruct E as [_ Ed].
    apply String.eqb_eq in Ed. rewrite Ed.
    apply String.eqb_neq in Hne. rewrite String.eqb_sym in Hne.
    now rewrite Hne, andb_false_r.
  - destruct (delete_one ps u d) as [rest found]. cbn [fst find] in *.
    now rewrite IH.
Qed.

Lemma delete_one_clears (ps : list doc) (u d : string) :
  List.length (filter (same_pair u d) ps) <= 1 ->
  find_permission (fst (delete_one ps u d)) u d = None.
Proof.
  unfold find_permission. fold (same_pair u d).
  induction ps as [|p ps IH]; intro Hlen; [reflexivity|].
  cbn [delete_one]. fold (same_pair u d p). cbn [filter] in Hlen.
  destruct (same_pair u d p) eqn:E.
  - cbn [fst]. cbn in Hlen.
    destruct (filter (same_pair u d) ps) eqn:Ef; [|cbn in Hlen; lia].
    apply find_permission_none_iff in Ef. exact Ef.
  - destruct (delete_one ps u d) as [rest found]. cbn [fst find] in *.
    rewrite E. now apply IH.
Qed.

Lemma first_grant_ext (ps ps' : list doc) (uid : string) (path : list string) :
  (forall x, In x path -> find_permission ps' uid x = find_permission ps uid x) ->
  first_grant ps' uid path = first_grant ps uid path.
Proof.
  induction path as [|x path IH]; intro H; [reflexivity|].
  cbn [first_grant]. rewrite (H x (or_introl eq_refl)).
  destruct (find_permission ps uid x); [reflexivity|].
  apply IH. intros y Hy. apply H. now right.
Qed.

(** X19: after the owner revokes a user's grant on a directory D (on a
    well-formed grant collection), the user's access to D is decided by the
    first grant found on D's ancestors: the inherited grant, if any, applies
    again, and without one the answer is false. *)
Theorem revocation_falls_back_to_ancestors
        (st : db) (uid directory_id revoked_by : string) (D : Directory.doc)
        (chain : list string) (e : chain_end) (action : PermissionType) (fuel : nat) :
  grants_wf st ->
  find_directory (directories_collection st) directory_id = Some D ->
  Directory.owner_id D = revoked_by ->
  Directory.owner_id D <> uid ->
  ancestor_chain (directories_collection st) D chain e ->
  ~ In directory_id chain ->
  List.length chain < fuel ->
  let st' := snd (revoke_permission st directory_id uid revoked_by) in
  check_permission fuel st' uid directory_id action
  = Some match first_grant (permissions_collection st) uid chain with
         | Some g => str_in (value action) (Permission.permissions g)
         | None => false
         end.
Proof.
  intros [_ [_ Hone]] HD Hrev Hown Hchain Hnotin Hfuel. cbn zeta.
  assert (Hst' : directories_collection
                   (snd (revoke_permission st directory_id uid revoked_by))
                 = directories_collection st
                 /\ permissions_collection
                      (snd (revoke_permission st directory_id uid revoked_by))
                    = fst (delete_one (permissions_collection st) uid directory_id)).
  { unfold revoke_permission. rewrite HD, Hrev, String.eqb_refl. cbn [negb].
    now destruct (delete_one (permissions_collection st) uid directory_id). }
  destruct Hst' as [Hdirs Hperms].
  rewrite (check_permission_non_owner _ uid directory_id D chain e action fuel);
    try assumption; try (now rewrite Hdirs).
  rewrite Hperms. cbn [first_grant].
  rewrite (delete_one_clears _ _ _ (Hone uid directory_id)).
  f_equal. rewrite (first_grant_ext (permissions_collection st)); [reflexivity|].
  intros x Hx. apply delete_one_other. intros ->. contradiction.
Qed.

Lemma shadow_db_wf : grants_wf Examples.shadow_db.
Proof.
  repeat split.
  - cbn. repeat (constructor; [cbn; intuition discriminate|]). constructor.
  - cbn. intros p [<- | [<- | []]]; cbn; lia.
  - intros u d. unfold Examples.shadow_db, Examples.grant_of, same_pair.
    cbn [permissions_collection filter user_id Permission.directory_id].
    destruct ("guest" =? u); cbn [andb]; [|cbn; lia].
    destruct ("root" =? d) eqn:Er.
    + apply String.eqb_eq in Er. subst d. cbn. lia.
    + destruct ("leaf" =? d); cbn; lia.
Defined.

Lemma revocation_falls_back_to_ancestors_witness :
  check_permission 3 (snd (revoke_permission Examples.shadow_db "leaf" "guest" "owner"))
                   "guest" "leaf" WRITE
  = Some true.
Proof.
  refine (revocation_falls_back_to_ancestors
            Examples.shadow_db "guest" "leaf" "owner"
            (Examples.dir_of "leaf" "owner" (Some "mid") false)
            ["mid"; "root"] AtRoot WRITE 3
            shadow_db_wf eq_refl eq_refl _ shadow_chain _ _).
  - discriminate.
  - cbn. intuition discriminate.
  - cbn. lia.
Defined.

End RevocationFallsBack.

Section ForestCompleteness.
Import Directory.
Import DirectoryService.

Lemma visible_is_stored (st : db) (uid : string) (role : Role.UserRole)
      (r : DirectoryResponse) :
  unique_ids st ->
  In r (get_user_directories st uid role) ->
  exists D, In D (directories_collection st) /\ r = to_response D.
Proof.
  intros Huniq Hr.
  destruct (Role.eqb role Role.SUPER_ADMIN) eqn:E.
  - unfold get_user_directories in Hr. rewrite E in Hr.
    apply in_map_iff in Hr. destruct Hr as [D [<- HD]]. now exists D.
  - assert (Hrole : role <> Role.SUPER_ADMIN) by (intros ->; discriminate).
    apply (get_user_directories_spec st uid role Hrole Huniq) in Hr.
    destruct Hr as [D [HD [_ ->]]]. now exists D.
Qed.

(** X20: on a store with distinct identifiers and no cycle in the parent
    links, the tree view loses nobody: every directory of the list the tree
    is built from is one of the returned roots or is found from a root
    through the children lists. *)
Theorem visible_directories_are_in_the_forest
        (st : db) (uid : string) (role : Role.UserRole) :
  unique_ids st ->
  acyclic (directories_collection st) ->
  forall d, In d (get_user_directories st uid role) ->
            in_forest (fst (get_directory_tree st uid role))
                      (snd (get_directory_tree st uid role)) (r_id d).
Proof.
  intros Huniq Hacyc.
  set (vis := get_user_directories st uid role).
  pose proof (get_user_directories_NoDup st uid role Huniq) as Hnd. fold vis in Hnd.
  rewrite (get_directory_tree_unfold st uid role Hnd). fold vis.
  set (m0 := map (fun d => (r_id d, new_node d)) vis).
  set (ds := directories_collection st) in *.
  assert (Hdepth : forall n d,
             In d vis ->
             (forall j a, ancestor ds j (r_id d) = Some a -> j <= n) ->
             in_forest (fst (assemble (map todo_entry vis) m0 []))
                       (snd (assemble (map todo_entry vis) m0 [])) (r_id d)).
  { induction n as [|n IH]; intros d Hd Hbound;
      (destruct (attaches m0 (todo_entry d)) eqn:Eatt;
       [|apply forest_root; rewrite assemble_roots; cbn [app];
         apply (in_selected_refs vis _ d Hnd Hd); now rewrite Eatt]);
      unfold attaches, todo_entry in Eatt; cbn [snd] in Eatt;
      (destruct (r_parent_id d) as [p|] eqn:Hp; [|discriminate]);
      apply andb_true_iff in Eatt; destruct Eatt as [Ht Hmem];
      destruct (visible_is_stored st uid role d Huniq Hd) as [D [HD Hresp]];
      assert (Hparent : parent_id_of ds (r_id d) = Some p)
        by (rewrite Hresp in Hp |- *; cbn [to_response r_id r_parent_id] in *;
            now rewrite (parent_id_of_stored ds D Huniq HD)).
    - assert (H1 : ancestor ds 1 (r_id d) = Some p)
        by (cbn [ancestor]; now rewrite Hparent).
      apply Hbound in H1. lia.
    - pose proof Hmem as Hin. apply dict_mem_fresh_map in Hin.
      apply in_map_iff in Hin. destruct Hin as [d' [Hid' Hd']].
      assert (Hreach : in_forest (fst (assemble (map todo_entry vis) m0 []))
                                 (snd (assemble (map todo_entry vis) m0 [])) p).
      { rewrite <- Hid'. apply IH; [exact Hd'|].
        intros j a Hj. rewrite Hid' in Hj.
        assert (HS : ancestor ds (S j) (r_id d) = Some a)
          by (cbn [ancestor]; now rewrite Hparent).
        apply Hbound in HS. lia. }
      unfold dict_mem in Hmem.
      destruct (dict_lookup m0 p) as [v|] eqn:Ev; [|discriminate].
      apply (forest_child _ _ p (r_id d)
               (children_extend v (map fst (filter (attaches_to m0 p)
                                                   (map todo_entry vis)))));
        [exact Hreach | now rewrite assemble_children, Ev |].
      cbn [children_extend children]. apply in_app_iff. right.
      apply (in_selected_refs vis _ d Hnd Hd).
      unfold attaches_to, todo_entry. cbn [snd]. rewrite Hp, Ht. cbn [andb].
      unfold dict_mem. rewrite Ev. cbn. apply String.eqb_refl. }
  intros d Hd. apply (Hdepth (List.length ds) d Hd).
  intros j a Hj. now apply depth_bound with (r_id d) a.
Qed.

Lemma visible_directories_are_in_the_forest_witness :
  in_forest (fst (get_directory_tree Examples.tree_db "u1" Role.USER))
            (snd (get_directory_tree Examples.tree_db "u1" Role.USER)) "e".
Proof.
  assert (Hacyc : acyclic (directories_collection Examples.tree_db)).
  { apply acyclic_by_rank
      with (rank := fun x => if x =? "b" then 1 else if x =? "c" then 2
                             else if x =? "e" then 3 else 0).
    intros d p Hd Hp. cbn in Hd.
    destruct Hd as [<- | [<- | [<- | [<- | []]]]]; cbn in Hp;
      try discriminate; injection Hp as <-; cbn; lia. }
  apply (visible_directories_are_in_the_forest Examples.tree_db "u1" Role.USER
           tree_db_unique_ids Hacyc
           (to_response (Examples.dir_of "e" "u1" (Some "c") false))).
  cbn. now left.
Defined.

End ForestCompleteness.
